(** * QuadTree image processing core

    A shallow embedding of [backend/main.py]: the [QuadTreeNode] dataclass,
    the [QuadTree] class (build, flips, overlay, rendering) and the guard of
    the [/overlay] endpoint, followed by the properties proved about them.

    Conventions of the embedding:
    - Python integers are [Z]; Python floats are IEEE-754 binary64 values,
      represented by Rocq's primitive [float] (the same format and the same
      round-to-nearest-even arithmetic as CPython and numpy's float64);
    - a Python call that may raise returns a [result]: [Ok v] or [Raise e];
    - a numpy array of rank 2 or 3 is its shape together with a total
      function from in-range indices to values;
    - [numpy.std] is not interpreted: the outcome of the comparison
      [np.std(region) < threshold] is an operation of the class [NumpyStd]. *)

From Stdlib Require Import ZArith QArith List String Bool Lia Floats.
From Stdlib Require Uint63.
From Equations Require Import Equations.
Import ListNotations.

#[local] Set Warnings "-register-all".
#[local] Open Scope string_scope.
#[local] Open Scope list_scope.
#[local] Open Scope Z_scope.

(** ** Results of Python calls *)

Inductive exn : Type :=
| IndexError
| ValueError
| OverflowError
| ZeroDivisionError
| RecursionError
| HTTPException (status_code : Z).

Inductive result (A : Type) : Type :=
| Ok (a : A)
| Raise (e : exn).

Arguments Ok {A} a.
Arguments Raise {A} e.

Definition bind {A B : Type} (c : result A) (k : A -> result B) : result B :=
  match c with
  | Ok a => k a
  | Raise e => Raise e
  end.

Notation "x <- c ;; k" := (bind c (fun x => k))
  (at level 61, c at next level, right associativity).

Notation "' pat <- c ;; k" := (bind c (fun x => match x with pat => k end))
  (at level 61, pat pattern, c at next level, right associativity).

(** [[f(v) for v in l]], stopping at the first call that raises. *)
Fixpoint mapM {A B : Type} (f : A -> result B) (l : list A) : result (list B) :=
  match l with
  | [] => Ok []
  | a :: l' => b <- f a ;; bs <- mapM f l' ;; Ok (b :: bs)
  end.

(** [t[i]] on a tuple or list, for a literal index [i >= 0]. *)
Definition getitem {A : Type} (l : list A) (i : nat) : result A :=
  match nth_error l i with
  | Some a => Ok a
  | None => Raise IndexError
  end.

(** The integers [lo, lo+1, ..., hi-1]. *)
Definition zrange (lo hi : Z) : list Z :=
  map (fun k => lo + Z.of_nat k) (seq 0 (Z.to_nat (hi - lo))).

(** ** numpy arrays of rank 2 and 3 *)

Inductive ndarray : Type :=
| Gray (H W : Z) (px : Z -> Z -> Z)
| Color (H W C : Z) (px : Z -> Z -> Z -> Z).

Definition shape (a : ndarray) : list Z :=
  match a with
  | Gray H W _ => [H; W]
  | Color H W C _ => [H; W; C]
  end.

Definition rows (a : ndarray) : Z :=
  match a with Gray H _ _ => H | Color H _ _ _ => H end.

Definition cols (a : ndarray) : Z :=
  match a with Gray _ W _ => W | Color _ W _ _ => W end.

(** An integer index into an axis of length [n]: negative indices count
    from the end, anything outside [-n, n) raises. *)
Definition axis_index (n i : Z) : result Z :=
  if (0 <=? i) && (i <? n) then Ok i
  else if (- n <=? i) && (i <? 0) then Ok (i + n)
  else Raise IndexError.

(** The bounds of the slice [start:stop] on an axis of length [n]
    (Python's [slice.indices] for step 1). *)
Definition slice_bound (n v : Z) : Z :=
  if v <? 0 then Z.max (v + n) 0 else Z.min v n.

Definition slice_indices (n start stop : Z) : list Z :=
  zrange (slice_bound n start) (slice_bound n stop).

Definition in_slice (n start stop i : Z) : bool :=
  (slice_bound n start <=? i) && (i <? slice_bound n stop).

(** The channel values of the pixel at row [r], column [c]. *)
Definition channels (C : Z) (px : Z -> Z -> Z -> Z) (r c : Z) : list Z :=
  map (px r c) (zrange 0 C).

(** [image[y, x].tolist() if len(image.shape) == 3 else [int(image[y, x])] * 3] *)
Definition pixel_list (image : ndarray) (y x : Z) : result (list Z) :=
  match image with
  | Color H W C px =>
      r <- axis_index H y ;; c <- axis_index W x ;; Ok (channels C px r c)
  | Gray H W px =>
      r <- axis_index H y ;; c <- axis_index W x ;;
      Ok [px r c; px r c; px r c]
  end.

Definition zsum (l : list Z) : Z := fold_right Z.add 0 l.

(** [int(np.mean(values))] over a region with [count] entries whose values
    add up to [total].  The mean of an empty region is NaN, which [int]
    refuses.  For byte-valued pixels the float64 sum is exact and the
    truncated quotient is the truncated exact mean. *)
Definition int_mean (total count : Z) : result Z :=
  if count =? 0 then Raise ValueError else Ok (Z.quot total count).

(** The outcome of numpy's standard-deviation test on the region
    [image[y:y+height, x:x+width]]: every channel's [np.std] is strictly
    below [threshold]. *)
Class NumpyStd : Type :=
  std_below : ndarray -> Z -> Z -> Z -> Z -> Z -> bool.

(** ** QuadTreeNode *)

Inductive QuadTreeNode : Type := mkNode {
  x : Z;
  y : Z;
  width : Z;
  height : Z;
  is_leaf : bool;
  pixel_value : option (list Z);
  children : option (list QuadTreeNode)
}.

(** Number of constructors of a node, the measure of the overlay recursion. *)
Fixpoint size (node : QuadTreeNode) : nat :=
  S (match children node with
     | Some l => fold_right Nat.add 0%nat (map size l)
     | None => 0%nat
     end).

(** ** JSON-like values and [QuadTreeNode.to_dict] *)

Inductive pyval : Type :=
| VNone
| VBool (b : bool)
| VInt (n : Z)
| VList (l : list pyval)
| VDict (d : list (string * pyval)).

(** Lookup in a dictionary kept as the list of its items in insertion order. *)
Fixpoint dict_get (d : list (string * pyval)) (k : string) : option pyval :=
  match d with
  | [] => None
  | (k', v) :: d' => if String.eqb k k' then Some v else dict_get d' k
  end.

Definition pixel_value_json (pv : option (list Z)) : pyval :=
  match pv with
  | None => VNone
  | Some l => VList (map VInt l)
  end.

Fixpoint to_dict (self : QuadTreeNode) : list (string * pyval) :=
  let result :=
    [ ("x", VInt (x self));
      ("y", VInt (y self));
      ("width", VInt (width self));
      ("height", VInt (height self));
      ("is_leaf", VBool (is_leaf self));
      ("pixel_value", pixel_value_json (pixel_value self)) ] in
  match children self with
  | Some l =>
      match l with
      | [] => result
      | _ :: _ => result ++ [("children", VList (map (fun child => VDict (to_dict child)) l))]
      end
  | None => result
  end.

(** ** QuadTree: construction *)

Section Build.

Context {np_std : NumpyStd}.

(** Sum of [f r c] over the region [rs] x [cs]. *)
Definition region_sum (f : Z -> Z -> Z) (rs cs : list Z) : Z :=
  zsum (map (fun r => zsum (map (f r) cs)) rs).

Definition region_count (rs cs : list Z) : Z :=
  Z.of_nat (List.length rs) * Z.of_nat (List.length cs).

Definition _is_homogeneous (threshold : Z) (image : ndarray)
    (x y width height : Z) : bool :=
  if (width <=? 1) || (height <=? 1) then true
  else std_below image x y width height threshold.

Definition _get_average_color (image : ndarray) (x y width height : Z)
    : result (list Z) :=
  match image with
  | Color H W C px =>
      let rs := slice_indices H y (y + height) in
      let cs := slice_indices W x (x + width) in
      mapM (fun k => int_mean (region_sum (fun r c => px r c k) rs cs)
                              (region_count rs cs))
           (zrange 0 C)
  | Gray H W px =>
      let rs := slice_indices H y (y + height) in
      let cs := slice_indices W x (x + width) in
      avg_color <- int_mean (region_sum px rs cs) (region_count rs cs) ;;
      Ok [avg_color; avg_color; avg_color]
  end.

Equations? _build_tree (threshold : Z) (image : ndarray)
    (x y width height : Z) : result QuadTreeNode
    by wf (Z.to_nat width) lt :=
  _build_tree threshold image x y width height
    with sumbool_of_bool ((width <=? 1) || (height <=? 1)) := {
    | left _ =>
        pixel_value <- pixel_list image y x ;;
        Ok (mkNode x y width height true (Some pixel_value) None)
    | right Hbig =>
        if _is_homogeneous threshold image x y width height then
          avg_color <- _get_average_color image x y width height ;;
          Ok (mkNode x y width height true (Some avg_color) None)
        else
          let mid_x := width / 2 in
          let mid_y := height / 2 in
          nw <- _build_tree threshold image x y mid_x mid_y ;;
          ne <- _build_tree threshold image (x + mid_x) y (width - mid_x) mid_y ;;
          sw <- _build_tree threshold image x (y + mid_y) mid_x (height - mid_y) ;;
          se <- _build_tree threshold image (x + mid_x) (y + mid_y)
                            (width - mid_x) (height - mid_y) ;;
          Ok (mkNode x y width height false None (Some [nw; ne; sw; se]))
    }.
Proof.
  all: apply orb_false_elim in Hbig; destruct Hbig as [Hw _];
    apply Z.leb_gt in Hw; subst mid_x; clear - Hw;
    apply Z2Nat.inj_lt; Z.div_mod_to_equations; lia.
Qed.

End Build.

(** ** Python floats and numpy's int64 *)

(** The float nearest to an integer (conversion of an int64 entry, or of a
    Python int below 2^53, to float64). *)
Definition float_of_Z (z : Z) : float :=
  SF2Prim (binary_normalize prec emax z 0 false).

(** [int(f)]: truncation toward zero; [int] refuses infinities and NaN. *)
Definition int_of_float (f : float) : result Z :=
  match Prim2SF f with
  | S754_zero _ => Ok 0
  | S754_finite s m e => Ok (cond_Zopp s (Z.shiftl (Zpos m) e))
  | S754_infinity _ => Raise OverflowError
  | S754_nan => Raise ValueError
  end.

(** Wrap-around of numpy's int64 arithmetic. *)
Definition wrap64 (z : Z) : Z :=
  (z + 2 ^ 63) mod 2 ^ 64 - 2 ^ 63.

(** Store into a [uint8] array. *)
Definition uint8 (v : Z) : Z := v mod 256.

(** ** QuadTree *)

Record QuadTree : Type := mkTree {
  threshold : Z;
  original_shape : list Z;
  root : QuadTreeNode;
  compression_ratio : float
}.

Fixpoint _count_nodes (node : QuadTreeNode) : Z :=
  if is_leaf node then 1
  else 1 + match children node with
           | Some l => zsum (map _count_nodes l)
           | None => 0
           end.

(** [(total_pixels - node_count) / total_pixels * 100]; the quotient of two
    Python ints below 2^53 is the float quotient of their conversions. *)
Definition _calculate_compression_ratio (original_shape : list Z)
    (root : QuadTreeNode) : result float :=
  h <- getitem original_shape 0 ;;
  w <- getitem original_shape 1 ;;
  let total_pixels := h * w in
  let node_count := _count_nodes root in
  if total_pixels =? 0 then Raise ZeroDivisionError
  else Ok (float_of_Z (total_pixels - node_count) / float_of_Z total_pixels
           * float_of_Z 100)%float.

(** [QuadTree.__init__] *)
Definition QuadTree_init {np_std : NumpyStd} (image_array : ndarray)
    (threshold : Z) : result QuadTree :=
  let original_shape := shape image_array in
  w <- getitem original_shape 1 ;;
  h <- getitem original_shape 0 ;;
  root <- _build_tree threshold image_array 0 0 w h ;;
  compression_ratio <- _calculate_compression_ratio original_shape root ;;
  Ok (mkTree threshold original_shape root compression_ratio).

(** ** Flips *)

(** [node.pixel_value[:] if node.pixel_value else []] (an empty list is
    falsy and is replaced by a new empty list). *)
Definition copy_pixel_value (pv : option (list Z)) : list Z :=
  match pv with
  | Some l => l
  | None => []
  end.

(** The four recursive calls are [flipped[1]], [flipped[0]], [flipped[3]],
    [flipped[2]] of the list of flipped children, taken in that order.
    A non-leaf node without children is passed to itself again: Python ends
    that recursion with [RecursionError]. *)
Fixpoint _flip_horizontal_recursive (original_shape : list Z)
    (node : QuadTreeNode) {struct node} : result QuadTreeNode :=
  if is_leaf node then
    w <- getitem original_shape 1 ;;
    Ok (mkNode (w - x node - width node) (y node) (width node) (height node)
               true (Some (copy_pixel_value (pixel_value node))) None)
  else
    match children node with
    | Some l =>
        match l with
        | [] => Raise RecursionError
        | _ :: _ =>
            let flipped := map (_flip_horizontal_recursive original_shape) l in
            c0 <- nth 1 flipped (Raise IndexError) ;;
            c1 <- nth 0 flipped (Raise IndexError) ;;
            c2 <- nth 3 flipped (Raise IndexError) ;;
            c3 <- nth 2 flipped (Raise IndexError) ;;
            w <- getitem original_shape 1 ;;
            Ok (mkNode (w - x node - width node) (y node) (width node)
                       (height node) false None (Some [c0; c1; c2; c3]))
        end
    | None => Raise RecursionError
    end.

Definition flip_horizontal (self : QuadTree) : result QuadTree :=
  new_root <- _flip_horizontal_recursive (original_shape self) (root self) ;;
  Ok (mkTree (threshold self) (original_shape self) new_root
             (compression_ratio self)).

Fixpoint _flip_vertical_recursive (original_shape : list Z)
    (node : QuadTreeNode) {struct node} : result QuadTreeNode :=
  if is_leaf node then
    h <- getitem original_shape 0 ;;
    Ok (mkNode (x node) (h - y node - height node) (width node) (height node)
               true (Some (copy_pixel_value (pixel_value node))) None)
  else
    match children node with
    | Some l =>
        match l with
        | [] => Raise RecursionError
        | _ :: _ =>
            let flipped := map (_flip_vertical_recursive original_shape) l in
            c0 <- nth 2 flipped (Raise IndexError) ;;
            c1 <- nth 3 flipped (Raise IndexError) ;;
            c2 <- nth 0 flipped (Raise IndexError) ;;
            c3 <- nth 1 flipped (Raise IndexError) ;;
            h <- getitem original_shape 0 ;;
            Ok (mkNode (x node) (h - y node - height node) (width node)
                       (height node) false None (Some [c0; c1; c2; c3]))
        end
    | None => Raise RecursionError
    end.

Definition flip_vertical (self : QuadTree) : result QuadTree :=
  new_root <- _flip_vertical_recursive (original_shape self) (root self) ;;
  Ok (mkTree (threshold self) (original_shape self) new_root
             (compression_ratio self)).

(** ** Overlay *)

(** Pairing of two one-dimensional numpy arrays by broadcasting: equal
    lengths pair entry by entry, a length-one array is repeated, any other
    combination raises. *)
Definition broadcast (c1 c2 : list Z) : result (list (Z * Z)) :=
  if Nat.eqb (List.length c1) (List.length c2) then Ok (combine c1 c2)
  else match c1, c2 with
       | [a], _ => Ok (map (fun b => (a, b)) c2)
       | _, [b] => Ok (map (fun a => (a, b)) c1)
       | _, _ => Raise ValueError
       end.

(** One entry of [c1 * (1 - alpha) + c2 * alpha]. *)
Definition blend_channel (alpha : float) (c1 c2 : Z) : float :=
  (float_of_Z c1 * (1 - alpha) + float_of_Z c2 * alpha)%float.

(** One entry of [np.minimum(c1 + c2, 255)]. *)
Definition add_channel (c1 c2 : Z) : Z :=
  Z.min (wrap64 (c1 + c2)) 255.

(** One entry of [(c1 * c2) / 255]. *)
Definition multiply_channel (c1 c2 : Z) : float :=
  (float_of_Z (wrap64 (c1 * c2)) / float_of_Z 255)%float.

(** One entry of [255 - ((255 - c1) * (255 - c2)) / 255]. *)
Definition screen_channel (c1 c2 : Z) : float :=
  (float_of_Z 255
   - float_of_Z (wrap64 (wrap64 (255 - c1) * wrap64 (255 - c2)))
     / float_of_Z 255)%float.

Definition _apply_overlay_operation (color1 color2 : list Z)
    (operation : string) (alpha : float) : result (list Z) :=
  entries <- broadcast color1 color2 ;;
  if String.eqb operation "blend" then
    mapM (fun '(c1, c2) => int_of_float (blend_channel alpha c1 c2)) entries
  else if String.eqb operation "add" then
    mapM (fun '(c1, c2) => Ok (add_channel c1 c2)) entries
  else if String.eqb operation "multiply" then
    mapM (fun '(c1, c2) => int_of_float (multiply_channel c1 c2)) entries
  else if String.eqb operation "screen" then
    mapM (fun '(c1, c2) => int_of_float (screen_channel c1 c2)) entries
  else
    mapM (fun '(c1, c2) => int_of_float (blend_channel alpha c1 c2)) entries.

Definition _expand_leaf_node (node : QuadTreeNode) : QuadTreeNode :=
  if (width node <=? 1) || (height node <=? 1) then node
  else
    let mid_x := width node / 2 in
    let mid_y := height node / 2 in
    let children :=
      [ mkNode (x node) (y node) mid_x mid_y true
               (Some (copy_pixel_value (pixel_value node))) None;
        mkNode (x node + mid_x) (y node) (width node - mid_x) mid_y true
               (Some (copy_pixel_value (pixel_value node))) None;
        mkNode (x node) (y node + mid_y) mid_x (height node - mid_y) true
               (Some (copy_pixel_value (pixel_value node))) None;
        mkNode (x node + mid_x) (y node + mid_y) (width node - mid_x)
               (height node - mid_y) true
               (Some (copy_pixel_value (pixel_value node))) None ] in
    mkNode (x node) (y node) (width node) (height node) false None
           (Some children).

(** [node.pixel_value or [0,0,0]] *)
Definition pixel_or_black (pv : option (list Z)) : list Z :=
  match pv with
  | Some (c :: l) => c :: l
  | _ => [0; 0; 0]
  end.

(** [node.children or []] *)
Definition children_or_empty (node : QuadTreeNode) : list QuadTreeNode :=
  match children node with
  | Some l => l
  | None => []
  end.

(** [((node1.children or [])[i], (node2.children or [])[i])] *)
Definition child_pair (node1 node2 : QuadTreeNode) (i : nat)
    : result (QuadTreeNode * QuadTreeNode) :=
  c1 <- getitem (children_or_empty node1) i ;;
  c2 <- getitem (children_or_empty node2) i ;;
  Ok (c1, c2).

(** The nodes the recursion continues with once one of them is no leaf. *)
Definition expand_if_leaf (node : QuadTreeNode) : QuadTreeNode :=
  if is_leaf node then _expand_leaf_node node else node.

Lemma size_getitem_children (node c : QuadTreeNode) (i : nat) :
  getitem (children_or_empty node) i = Ok c -> (size c < size node)%nat.
Proof.
  unfold getitem, children_or_empty.
  destruct node as [x0 y0 w0 h0 lf pv [l|]]; simpl.
  - revert i. induction l as [|a l IH]; intros [|i]; simpl; try discriminate.
    + intros [= ->]. lia.
    + intros Hi. specialize (IH i Hi). lia.
  - destruct i; discriminate.
Qed.

Lemma size_expand_child (node c : QuadTreeNode) (i : nat) :
  getitem (children_or_empty (expand_if_leaf node)) i = Ok c ->
  (size c <= size node)%nat /\ (is_leaf node = false -> size c < size node)%nat.
Proof.
  unfold expand_if_leaf, _expand_leaf_node.
  destruct (is_leaf node) eqn:Hl.
  - destruct ((width node <=? 1) || (height node <=? 1)).
    + intros Hc. apply size_getitem_children in Hc. split; [lia | discriminate].
    + intros H. split; [| discriminate].
      destruct i as [|[|[|[|i]]]]; cbn in H;
        try (destruct i; discriminate);
        injection H as <-; simpl; destruct node as [? ? ? ? ? ? [?|]]; simpl; lia.
  - intros Hc. apply size_getitem_children in Hc. split; intros; lia.
Qed.

Lemma size_child_pair (node1 node2 a b : QuadTreeNode) (i : nat) :
  is_leaf node1 && is_leaf node2 = false ->
  child_pair (expand_if_leaf node1) (expand_if_leaf node2) i = Ok (a, b) ->
  (size a + size b < size node1 + size node2)%nat.
Proof.
  intros Hl. unfold child_pair.
  destruct (getitem (children_or_empty (expand_if_leaf node1)) i) as [c1|] eqn:H1;
    simpl; [| discriminate].
  destruct (getitem (children_or_empty (expand_if_leaf node2)) i) as [c2|] eqn:H2;
    simpl; [| discriminate].
  intros [= <- <-].
  apply size_expand_child in H1, H2.
  destruct (is_leaf node1), (is_leaf node2); try discriminate;
    destruct H1 as [? ?], H2 as [? ?];
    repeat match goal with
           | H : false = false -> _ |- _ => specialize (H eq_refl)
           end; lia.
Qed.

(** A value together with the equation that names it, so that the
    termination argument of the recursion below can use it. *)
Definition inspect {A : Type} (a : A) : {b : A | a = b} :=
  exist _ a eq_refl.

Equations? _overlay_recursive (node1 node2 : QuadTreeNode)
    (operation : string) (alpha : float) : result QuadTreeNode
    by wf (size node1 + size node2)%nat lt :=
  _overlay_recursive node1 node2 operation alpha
    with sumbool_of_bool (is_leaf node1 && is_leaf node2) := {
    | left _ =>
        result_color <- _apply_overlay_operation
                          (pixel_or_black (pixel_value node1))
                          (pixel_or_black (pixel_value node2))
                          operation alpha ;;
        Ok (mkNode (x node1) (y node1) (width node1) (height node1)
                   true (Some result_color) None)
    | right Hint
        with inspect (child_pair (expand_if_leaf node1) (expand_if_leaf node2) 0) := {
        | exist _ (Raise e) _ => Raise e
        | exist _ (Ok (a0, b0)) H0
            with _overlay_recursive a0 b0 operation alpha := {
            | Raise e => Raise e
            | Ok r0
                with inspect (child_pair (expand_if_leaf node1) (expand_if_leaf node2) 1) := {
                | exist _ (Raise e) _ => Raise e
                | exist _ (Ok (a1, b1)) H1
                    with _overlay_recursive a1 b1 operation alpha := {
                    | Raise e => Raise e
                    | Ok r1
                        with inspect (child_pair (expand_if_leaf node1) (expand_if_leaf node2) 2) := {
                        | exist _ (Raise e) _ => Raise e
                        | exist _ (Ok (a2, b2)) H2
                            with _overlay_recursive a2 b2 operation alpha := {
                            | Raise e => Raise e
                            | Ok r2
                                with inspect (child_pair (expand_if_leaf node1) (expand_if_leaf node2) 3) := {
                                | exist _ (Raise e) _ => Raise e
                                | exist _ (Ok (a3, b3)) H3
                                    with _overlay_recursive a3 b3 operation alpha := {
                                    | Raise e => Raise e
                                    | Ok r3 =>
                                        Ok (mkNode (x (expand_if_leaf node1))
                                                   (y (expand_if_leaf node1))
                                                   (width (expand_if_leaf node1))
                                                   (height (expand_if_leaf node1))
                                                   false None
                                                   (Some [r0; r1; r2; r3]))
                                    }
                                }
                            }
                        }
                    }
                }
            }
        }
    }.
Proof.
  all: eapply size_child_pair; eauto.
Qed.

Definition overlay (self other_tree : QuadTree) (operation : string)
    (alpha : float) : result QuadTree :=
  new_root <- _overlay_recursive (root self) (root other_tree) operation alpha ;;
  Ok (mkTree (threshold self) (original_shape self) new_root
             ((compression_ratio self + compression_ratio other_tree)
              / float_of_Z 2)%float).

(** ** Rendering *)

(** [np.zeros(shape, dtype=np.uint8)] for a shape of rank 2 or 3.  Other
    ranks are outside the array model (no tree built by [QuadTree_init]
    has one); a negative dimension is refused by numpy. *)
Definition zeros (shape : list Z) : result ndarray :=
  match shape with
  | [h; w] =>
      if (h <? 0) || (w <? 0) then Raise ValueError
      else Ok (Gray h w (fun _ _ => 0))
  | [h; w; c] =>
      if (h <? 0) || (w <? 0) || (c <? 0) then Raise ValueError
      else Ok (Color h w c (fun _ _ _ => 0))
  | _ => Raise IndexError
  end.

(** [image[y:y+height, x:x+width] = value] on an array of rank 3: the list
    [value] is broadcast along the last axis (its length must be the number
    of channels, or one) and stored as bytes. *)
Definition fill_color (H W C : Z) (px : Z -> Z -> Z -> Z)
    (x y width height : Z) (value : list Z) : result ndarray :=
  if (Z.of_nat (List.length value) =? C) || Nat.eqb (List.length value) 1 then
    Ok (Color H W C
          (fun r c k =>
             if in_slice H y (y + height) r && in_slice W x (x + width) c
             then uint8 (match value with
                         | [v] => v
                         | _ => nth (Z.to_nat k) value 0
                         end)
             else px r c k))
  else Raise ValueError.

(** [image[y:y+height, x:x+width] = value] on an array of rank 2, for an
    integer [value]. *)
Definition fill_gray (H W : Z) (px : Z -> Z -> Z)
    (x y width height : Z) (value : Z) : ndarray :=
  Gray H W
    (fun r c =>
       if in_slice H y (y + height) r && in_slice W x (x + width) c
       then uint8 value
       else px r c).

(** [_render_node] receives the array allocated by [to_image] from
    [original_shape], so the test [len(self.original_shape) == 3] is the
    test of the array's own rank. *)
Fixpoint _render_node (node : QuadTreeNode) (image : ndarray) {struct node}
    : result ndarray :=
  if is_leaf node then
    match image with
    | Color H W C px =>
        fill_color H W C px (x node) (y node) (width node) (height node)
                   (pixel_or_black (pixel_value node))
    | Gray H W px =>
        Ok (fill_gray H W px (x node) (y node) (width node) (height node)
                      (match pixel_value node with
                       | Some (v :: _) => v
                       | _ => 0
                       end))
    end
  else
    match children node with
    | Some l =>
        fold_left (fun acc child => image' <- acc ;; _render_node child image')
                  l (Ok image)
    | None => Ok image
    end.

Definition to_image (self : QuadTree) : result ndarray :=
  image <- zeros (original_shape self) ;;
  _render_node (root self) image.

(** ** The [/overlay] endpoint *)

Definition valid_operations : list string :=
  ["blend"; "add"; "multiply"; "screen"].

(** [ImageProcessor.overlay_images] from the two decoded arrays, already
    converted to RGB and resized to a common size by the imaging library. *)
Definition ImageProcessor_overlay_images {np_std : NumpyStd}
    (image1_array image2_array : ndarray) (operation : string)
    (alpha : float) (threshold : Z) : result ndarray :=
  quad_tree1 <- QuadTree_init image1_array threshold ;;
  quad_tree2 <- QuadTree_init image2_array threshold ;;
  result_tree <- overlay quad_tree1 quad_tree2 operation alpha ;;
  to_image result_tree.

(** The endpoint [overlay_images]: every exception raised in its [try]
    block, the three [HTTPException(400)] of its own checks included, is
    caught by [except Exception] and raised again as [HTTPException(500)]. *)
Definition overlay_images {np_std : NumpyStd}
    (file1_is_image file2_is_image : bool)
    (image1_array image2_array : ndarray) (operation : string)
    (alpha : float) (threshold : Z) : result ndarray :=
  let body :=
    if negb file1_is_image || negb file2_is_image then
      Raise (HTTPException 400)
    else if negb (existsb (String.eqb operation) valid_operations) then
      Raise (HTTPException 400)
    else if negb ((0 <=? alpha)%float && (alpha <=? 1)%float) then
      Raise (HTTPException 400)
    else
      ImageProcessor_overlay_images image1_array image2_array operation
                                    alpha threshold in
  match body with
  | Ok r => Ok r
  | Raise _ => Raise (HTTPException 500)
  end.

(** ** The [/flip] endpoint *)

(** [ImageProcessor.process_image] from the decoded array, already
    converted to RGB by the imaging library: the array it hands to the PNG
    encoder.  An operation other than the two flips raises [ValueError]. *)
Definition ImageProcessor_process_image {np_std : NumpyStd}
    (image_array : ndarray) (operation : string) (threshold : Z)
    : result ndarray :=
  quad_tree <- QuadTree_init image_array threshold ;;
  result_tree <-
    (if String.eqb operation "flip_horizontal" then flip_horizontal quad_tree
     else if String.eqb operation "flip_vertical" then flip_vertical quad_tree
     else Raise ValueError) ;;
  to_image result_tree.

Definition operation_map : list (string * string) :=
  [("horizontal", "flip_horizontal"); ("vertical", "flip_vertical")].

(** Lookup in a dictionary of strings kept as the list of its items. *)
Fixpoint lookup (d : list (string * string)) (k : string) : option string :=
  match d with
  | [] => None
  | (k', v) :: d' => if String.eqb k k' then Some v else lookup d' k
  end.

(** The endpoint [flip_image]: as in [overlay_images], every exception
    raised in its [try] block, the two [HTTPException(400)] of its own
    checks included, is raised again as [HTTPException(500)]. *)
Definition flip_image {np_std : NumpyStd} (file_is_image : bool)
    (image_array : ndarray) (operation : string) (threshold : Z)
    : result ndarray :=
  let body :=
    if negb file_is_image then Raise (HTTPException 400)
    else match lookup operation_map operation with
         | None => Raise (HTTPException 400)
         | Some op => ImageProcessor_process_image image_array op threshold
         end in
  match body with
  | Ok r => Ok r
  | Raise _ => Raise (HTTPException 500)
  end.

(** * Vocabulary of the properties *)

(** ** Regions, tilings and tree shapes *)

Record region : Type := mkRegion { rx : Z; ry : Z; rw : Z; rh : Z }.

Definition region_of (node : QuadTreeNode) : region :=
  mkRegion (x node) (y node) (width node) (height node).

(** The pixel at row [r], column [c] lies in the region. *)
Definition inside (R : region) (r c : Z) : Prop :=
  rx R <= c < rx R + rw R /\ ry R <= r < ry R + rh R.

Definition disjoint (A B : region) : Prop :=
  forall r c, ~ (inside A r c /\ inside B r c).

(** The regions [rs] are pairwise disjoint, lie in [R] and cover it. *)
Definition tiles (R : region) (rs : list region) : Prop :=
  ForallOrdPairs disjoint rs
  /\ Forall (fun Ri => forall r c, inside Ri r c -> inside R r c) rs
  /\ (forall r c, inside R r c -> Exists (fun Ri => inside Ri r c) rs).

(** The four quadrants [NW; NE; SW; SE] of the tiling rule. *)
Definition quadrants (R : region) : list region :=
  let mid_x := rw R / 2 in
  let mid_y := rh R / 2 in
  [ mkRegion (rx R) (ry R) mid_x mid_y;
    mkRegion (rx R + mid_x) (ry R) (rw R - mid_x) mid_y;
    mkRegion (rx R) (ry R + mid_y) mid_x (rh R - mid_y);
    mkRegion (rx R + mid_x) (ry R + mid_y) (rw R - mid_x) (rh R - mid_y) ].

(** The quadrants of a node mirrored left to right: the wider half of an
    odd width is on the left. *)
Definition quadrants_flipped_h (R : region) : list region :=
  let mid_x := rw R / 2 in
  let mid_y := rh R / 2 in
  [ mkRegion (rx R) (ry R) (rw R - mid_x) mid_y;
    mkRegion (rx R + (rw R - mid_x)) (ry R) mid_x mid_y;
    mkRegion (rx R) (ry R + mid_y) (rw R - mid_x) (rh R - mid_y);
    mkRegion (rx R + (rw R - mid_x)) (ry R + mid_y) mid_x (rh R - mid_y) ].

(** The quadrants of a node mirrored top to bottom: the taller half of an
    odd height is on top. *)
Definition quadrants_flipped_v (R : region) : list region :=
  let mid_x := rw R / 2 in
  let mid_y := rh R / 2 in
  [ mkRegion (rx R) (ry R) mid_x (rh R - mid_y);
    mkRegion (rx R + mid_x) (ry R) (rw R - mid_x) (rh R - mid_y);
    mkRegion (rx R) (ry R + (rh R - mid_y)) mid_x mid_y;
    mkRegion (rx R + mid_x) (ry R + (rh R - mid_y)) (rw R - mid_x) mid_y ].

(** [m] is [n] or one of its descendants. *)
Inductive subnode (m : QuadTreeNode) : QuadTreeNode -> Prop :=
| subnode_refl : subnode m m
| subnode_child n l c :
    children n = Some l -> In c l -> subnode m c -> subnode m n.

(** An internal node has exactly four children, and their regions are [rs]. *)
Definition four_children (node : QuadTreeNode) (rs : list region) : Prop :=
  exists nw ne sw se,
    children node = Some [nw; ne; sw; se]
    /\ map region_of [nw; ne; sw; se] = rs.

(** Trees as the core builds them: a leaf carries a colour and no children,
    an internal node carries four children and no colour, and the regions of
    the children obey [rule] at every internal node. *)
Inductive shaped (rule : region -> list region -> Prop) : QuadTreeNode -> Prop :=
| shaped_leaf x y w h pv :
    shaped rule (mkNode x y w h true (Some pv) None)
| shaped_internal x y w h nw ne sw se :
    rule (mkRegion x y w h) (map region_of [nw; ne; sw; se]) ->
    shaped rule nw -> shaped rule ne -> shaped rule sw -> shaped rule se ->
    shaped rule (mkNode x y w h false None (Some [nw; ne; sw; se])).

(** The rule of [_build_tree] and [_expand_leaf_node]: only regions wider
    and taller than one pixel are split, into their quadrants. *)
Definition floor_rule (R : region) (rs : list region) : Prop :=
  1 < rw R /\ 1 < rh R /\ rs = quadrants R.

Definition flipped_h_rule (R : region) (rs : list region) : Prop :=
  1 < rw R /\ 1 < rh R /\ rs = quadrants_flipped_h R.

Definition flipped_v_rule (R : region) (rs : list region) : Prop :=
  1 < rw R /\ 1 < rh R /\ rs = quadrants_flipped_v R.

(** Mirror images of a region in an image [W] pixels wide, [H] pixels high. *)
Definition mirror_h (W : Z) (R : region) : region :=
  mkRegion (W - rx R - rw R) (ry R) (rw R) (rh R).

Definition mirror_v (H : Z) (R : region) : region :=
  mkRegion (rx R) (H - ry R - rh R) (rw R) (rh R).

(** The rule obeyed by a flipped tree whose original obeys [rule]. *)
Definition flip_h_of (W : Z) (rule : region -> list region -> Prop)
    (R : region) (rs : list region) : Prop :=
  match rs with
  | [a; b; c; d] =>
      rule (mirror_h W R) [mirror_h W b; mirror_h W a; mirror_h W d; mirror_h W c]
  | _ => False
  end.

Definition flip_v_of (H : Z) (rule : region -> list region -> Prop)
    (R : region) (rs : list region) : Prop :=
  match rs with
  | [a; b; c; d] =>
      rule (mirror_v H R) [mirror_v H c; mirror_v H d; mirror_v H a; mirror_v H b]
  | _ => False
  end.

Section ProducedTrees.

Context {np_std : NumpyStd}.

(** The trees the core produces: built from an array, or obtained from
    produced trees by a flip or an overlay that returns. *)
Inductive produced : QuadTree -> Prop :=
| produced_build image threshold t :
    QuadTree_init image threshold = Ok t -> produced t
| produced_flip_horizontal t t' :
    produced t -> flip_horizontal t = Ok t' -> produced t'
| produced_flip_vertical t t' :
    produced t -> flip_vertical t = Ok t' -> produced t'
| produced_overlay t other operation alpha t' :
    produced t -> produced other ->
    overlay t other operation alpha = Ok t' -> produced t'.

End ProducedTrees.

(** ** Leaves, colours and rasters *)

(** The leaves of a tree in the order [_render_node] visits them. *)
Fixpoint leaves (node : QuadTreeNode) : list QuadTreeNode :=
  if is_leaf node then [node]
  else match children node with
       | Some l => flat_map leaves l
       | None => []
       end.

(** What [_render_node] does at a leaf. *)
Definition render_leaf (node : QuadTreeNode) (image : ndarray) : result ndarray :=
  match image with
  | Color H W C px =>
      fill_color H W C px (x node) (y node) (width node) (height node)
                 (pixel_or_black (pixel_value node))
  | Gray H W px =>
      Ok (fill_gray H W px (x node) (y node) (width node) (height node)
                    (match pixel_value node with
                     | Some (v :: _) => v
                     | _ => 0
                     end))
  end.

(** Writing the leaves one after the other. *)
Definition render_leaves (ls : list QuadTreeNode) (image : result ndarray)
    : result ndarray :=
  fold_left (fun acc leaf => image' <- acc ;; render_leaf leaf image') ls image.

Definition byte (v : Z) : Prop := 0 <= v <= 255.

(** A colour that a leaf of a tree over an array shaped like [image] may
    carry: one byte per channel, or three equal bytes for a grey array. *)
Definition colour_fits (image : ndarray) (pv : list Z) : Prop :=
  match image with
  | Color _ _ C _ => Z.of_nat (List.length pv) = C /\ 0 < C /\ Forall byte pv
  | Gray _ _ _ => exists v, pv = [v; v; v] /\ byte v
  end.

Definition same_frame (a b : ndarray) : Prop :=
  match a, b with
  | Color H W C _, Color H' W' C' _ => H = H' /\ W = W' /\ C = C'
  | Gray H W _, Gray H' W' _ => H = H' /\ W = W'
  | _, _ => False
  end.

(** A leaf that [render_leaf] can write into [canvas]. *)
Definition leaf_ok (canvas : ndarray) (leaf : QuadTreeNode) : Prop :=
  (exists pv, pixel_value leaf = Some pv /\ colour_fits canvas pv)
  /\ 0 <= x leaf /\ 0 <= y leaf /\ 0 <= width leaf /\ 0 <= height leaf.

(** A raster of bytes: non-negative dimensions, at least one channel, every
    entry in [0, 255]. *)
Definition byte_raster (image : ndarray) : Prop :=
  match image with
  | Gray H W px =>
      0 <= H /\ 0 <= W
      /\ forall r c, 0 <= r < H -> 0 <= c < W -> byte (px r c)
  | Color H W C px =>
      0 <= H /\ 0 <= W /\ 0 < C
      /\ forall r c k, 0 <= r < H -> 0 <= c < W -> 0 <= k < C ->
                       byte (px r c k)
  end.

(** ** Binary64 values and the channel formulas *)

(** The record after [k] one-bit shifts of [m0]: the quotient by [2^k], and
    a round or sticky bit only when bits were lost. *)
Definition shifted (m0 k : Z) (mrs : shr_record) : Prop :=
  0 <= k
  /\ shr_m mrs = m0 / 2 ^ k
  /\ (shr_r mrs = true \/ shr_s mrs = true -> m0 / 2 ^ k * 2 ^ k < m0).

Definition scale : Z := 2148.

(** The value [m * 2^e] of a dyadic number, as an integer multiple of
    [2^-scale]. *)
Definition V (m e : Z) : Z := m * 2 ^ (e + scale).

Arguments V : simpl never.

(** A float that is zero, or positive and at most [j * 2^q]. *)
Definition below (f : spec_float) (j q : Z) : Prop :=
  match f with
  | S754_zero _ => True
  | S754_finite false m e => -1074 <= e /\ V (Zpos m) e <= V j q
  | _ => False
  end.

Definition SFone : spec_float := S754_finite false 4503599627370496 (-52).

(** A float that is zero, or positive, at least [i * 2^-8] and at most 1. *)
Definition unit_float (f : spec_float) (i : Z) : Prop :=
  match f with
  | S754_zero _ => i = 0
  | S754_finite false m e =>
      -1074 <= e /\ V i (-8) <= V (Zpos m) e /\ V (Zpos m) e <= V 1 0
  | _ => False
  end.

(** [int] of a finite float: truncation toward zero. *)
Definition truncate_float (f : float) : Z :=
  match Prim2SF f with
  | S754_finite s m e => cond_Zopp s (Z.shiftl (Zpos m) e)
  | _ => 0
  end.

(** Truncation of a rational number toward zero. *)
Definition truncate_Q (q : Q) : Z :=
  Z.quot (Qnum q) (Zpos (Qden q)).

(** The formulas of the specification, per channel: add, multiply and
    screen in exact arithmetic, blend (also for any other tag) in binary64
    arithmetic, the arithmetic of its float operand [alpha]. *)
Definition channel_formula (operation : string) (alpha : float)
    (c1 c2 : Z) : Z :=
  if String.eqb operation "add" then Z.min (c1 + c2) 255
  else if String.eqb operation "multiply" then
    truncate_Q (inject_Z (c1 * c2) / 255)
  else if String.eqb operation "screen" then
    truncate_Q (255 - inject_Z ((255 - c1) * (255 - c2)) / 255)
  else truncate_float (blend_channel alpha c1 c2).

(** One entry of the list [_apply_overlay_operation] returns, from the pair
    of entries of the two broadcast arrays. *)
Definition channel_result (operation : string) (alpha : float)
    (entry : Z * Z) : result Z :=
  let '(c1, c2) := entry in
  if String.eqb operation "blend" then int_of_float (blend_channel alpha c1 c2)
  else if String.eqb operation "add" then Ok (add_channel c1 c2)
  else if String.eqb operation "multiply" then
    int_of_float (multiply_channel c1 c2)
  else if String.eqb operation "screen" then
    int_of_float (screen_channel c1 c2)
  else int_of_float (blend_channel alpha c1 c2).

(** The canonical exponent of a valid finite float. *)
Definition canonical (m : positive) (e : Z) : Prop :=
  Z.max (Zpos (digits2_pos m) + e - 53) (-1074) = e.

Definition fast_float (z : Z) : float := of_uint63 (Uint63.of_Z z).

Definition float_between (f : float) (k : Z) : bool :=
  (fast_float k <=? f)%float && (f <? fast_float (k + 1))%float
  && (0 <=? k) && (k <=? 255).

(** The float results of multiply and screen lie between the truncated
    exact value and its successor. *)
Definition exact_channels_check (c1 c2 : Z) : bool :=
  float_between (fast_float (c1 * c2) / fast_float 255)%float
                (channel_formula "multiply" 0%float c1 c2)
  && float_between (fast_float 255
                    - fast_float ((255 - c1) * (255 - c2)) / fast_float 255)%float
                   (channel_formula "screen" 0%float c1 c2).

(** The rational value of a finite float. *)
Definition Q_of_float (f : float) : Q :=
  match Prim2SF f with
  | S754_finite s m e => (inject_Z (cond_Zopp s (Zpos m)) * Qpower 2 e)%Q
  | _ => 0%Q
  end.

(** The blend formula in exact arithmetic. *)
Definition exact_blend (alpha : Q) (c1 c2 : Z) : Q :=
  (inject_Z c1 * (1 - alpha) + inject_Z c2 * alpha)%Q.

(** ** The pairs of nodes of an overlay *)

(** [_expand_leaf_node] returns such a node unexpanded. *)
Definition minimal (node : QuadTreeNode) : bool :=
  (width node <=? 1) || (height node <=? 1).

(** The pairs of nodes [_overlay_recursive] is called on, from the call on
    [(node1, node2)]: every pair of children in the positions 0 to 3 of the
    expanded nodes of a pair that is not made of two leaves. *)
Inductive visits (node1 node2 : QuadTreeNode)
    : QuadTreeNode -> QuadTreeNode -> Prop :=
| visits_here : visits node1 node2 node1 node2
| visits_child a b i c d :
    visits node1 node2 a b ->
    is_leaf a && is_leaf b = false ->
    (i < 4)%nat ->
    child_pair (expand_if_leaf a) (expand_if_leaf b) i = Ok (c, d) ->
    visits node1 node2 c d.

(** Two subtrees of trees built over rasters of the same height and width,
    at the same place. *)
Definition aligned (a b : QuadTreeNode) : Prop :=
  shaped floor_rule a /\ shaped floor_rule b /\ region_of a = region_of b.

(** A leaf colour of [k] channels, each of them a byte. *)
Definition byte_colour (k : nat) (leaf : QuadTreeNode) : Prop :=
  exists c pv, pixel_value leaf = Some (c :: pv)
               /\ List.length (c :: pv) = k /\ Forall byte (c :: pv).

(** Number of channels of the colours of a tree built over [image]. *)
Definition depth (image : ndarray) : Z :=
  match image with
  | Gray _ _ _ => 3
  | Color _ _ C _ => C
  end.

(** ** Renderings, flipped leaves and symmetric operations *)

(** Every pixel of [out] carries the colour of a leaf of [node] whose
    region contains it. *)
Definition painted_by (node : QuadTreeNode) (out : ndarray) : Prop :=
  forall r c, 0 <= r < rows out -> 0 <= c < cols out ->
    exists leaf pv,
      In leaf (leaves node) /\ inside (region_of leaf) r c
      /\ pixel_value leaf = Some pv /\ pixel_list out r c = Ok pv.

(** The leaf [_flip_horizontal_recursive] makes of a leaf, in an image [W]
    pixels wide, and the one [_flip_vertical_recursive] makes in an image
    [H] pixels high. *)
Definition mirror_leaf_h (W : Z) (leaf : QuadTreeNode) : QuadTreeNode :=
  mkNode (W - x leaf - width leaf) (y leaf) (width leaf) (height leaf) true
         (Some (copy_pixel_value (pixel_value leaf))) None.

Definition mirror_leaf_v (H : Z) (leaf : QuadTreeNode) : QuadTreeNode :=
  mkNode (x leaf) (H - y leaf - height leaf) (width leaf) (height leaf) true
         (Some (copy_pixel_value (pixel_value leaf))) None.

(** The colour the tree under [node] gives to the pixel at row [r], column
    [c]: the colour of a leaf whose region contains the pixel. *)
Definition colour_at (node : QuadTreeNode) (r c : Z) (pv : list Z) : Prop :=
  exists leaf,
    In leaf (leaves node) /\ inside (region_of leaf) r c
    /\ pixel_value leaf = Some pv.

(** Every leaf under [node] carries a colour that fits [image]. *)
Definition colours_fit (image : ndarray) (node : QuadTreeNode) : Prop :=
  Forall (fun leaf => exists pv, pixel_value leaf = Some pv
                                 /\ colour_fits image pv)
         (leaves node).

(** [t'] carries the summary of [t]: threshold, source shape, stored
    ratio, and the number of nodes the ratio is computed from. *)
Definition same_summary (t t' : QuadTree) : Prop :=
  threshold t' = threshold t
  /\ original_shape t' = original_shape t
  /\ compression_ratio t' = compression_ratio t
  /\ _count_nodes (root t') = _count_nodes (root t)
  /\ _calculate_compression_ratio (original_shape t') (root t')
     = _calculate_compression_ratio (original_shape t) (root t).

(** The operations whose formula is symmetric in the two colours. *)
Definition symmetric_operations : list string := ["add"; "multiply"; "screen"].

Definition swap (p : Z * Z) : Z * Z := (snd p, fst p).

(** Multiplying the float of a byte by one or by zero, adding zero to it,
    and truncating it, checked on the 256 bytes. *)
Definition byte_float_check (c : Z) : bool :=
  PrimFloat.Leibniz.eqb (fast_float c * (1 - 0))%float (fast_float c)
  && PrimFloat.Leibniz.eqb (fast_float c * 1)%float (fast_float c)
  && PrimFloat.Leibniz.eqb (fast_float c * 0)%float 0%float
  && PrimFloat.Leibniz.eqb (fast_float c * (1 - 1))%float 0%float
  && PrimFloat.Leibniz.eqb (fast_float c + 0)%float (fast_float c)
  && PrimFloat.Leibniz.eqb (0 + fast_float c)%float (fast_float c)
  && float_between (fast_float c) c.

(** A raster all of whose pixels have the colour [colour]. *)
Definition uniform (image : ndarray) (colour : list Z) : Prop :=
  match image with
  | Gray H W px =>
      exists v, colour = [v; v; v]
                /\ forall r c, 0 <= r < H -> 0 <= c < W -> px r c = v
  | Color H W C px =>
      Z.of_nat (List.length colour) = C
      /\ forall r c k, 0 <= r < H -> 0 <= c < W -> 0 <= k < C ->
                       px r c k = nth (Z.to_nat k) colour 0
  end.

Section BuiltNode.

Context {np_std : NumpyStd}.

(** What [_build_tree] returns for a region: a leaf exactly when
    [_is_homogeneous] holds of the region, and then with the colour of the
    corner pixel (region one pixel wide or high) or the average colour. *)
Definition built_node (thr : Z) (image : ndarray) (m : QuadTreeNode) : Prop :=
  is_leaf m = _is_homogeneous thr image (x m) (y m) (width m) (height m)
  /\ (is_leaf m = true ->
      exists pv,
        pixel_value m = Some pv
        /\ (if minimal m then pixel_list image (y m) (x m)
            else _get_average_color image (x m) (y m) (width m) (height m))
           = Ok pv).

End BuiltNode.

(** ** Concrete rasters and trees *)

(** The standard-deviation test in exact arithmetic: the population variance
    [sum(v^2)/n - (sum(v)/n)^2] is below [threshold^2] for a positive
    [threshold]; no standard deviation is below a threshold of zero or
    less, and the test fails on an empty region (NaN). *)
Definition variance_below (values : list Z) (threshold : Z) : bool :=
  let n := Z.of_nat (List.length values) in
  (0 <? threshold)
  && (n * zsum (map (fun v => v * v) values) - zsum values * zsum values
      <? threshold * threshold * n * n).

Definition region_values (f : Z -> Z -> Z) (rs cs : list Z) : list Z :=
  flat_map (fun r => map (f r) cs) rs.

(** The instance of the test used by the examples below.  It decides the
    comparison in exact arithmetic where [np.std] rounds in binary64, so the
    two can disagree when a deviation equals the threshold or nearly so.
    The examples stay away from that boundary: thresholds 0 and -5, below
    which no deviation lies, a raster of one colour, whose deviation is 0,
    and an empty raster, on which the test is not reached.  The properties
    are stated for every instance of [NumpyStd]. *)
#[export] Instance exact_std : NumpyStd :=
  fun image x y width height threshold =>
    match image with
    | Gray H W px =>
        variance_below
          (region_values px (slice_indices H y (y + height))
                         (slice_indices W x (x + width)))
          threshold
    | Color H W C px =>
        forallb
          (fun k =>
             variance_below
               (region_values (fun r c => px r c k)
                              (slice_indices H y (y + height))
                              (slice_indices W x (x + width)))
               threshold)
          (zrange 0 C)
    end.

(** A grey raster, two rows of three pixels: 0 40 80 / 120 160 200. *)
Definition raster_3x2 : ndarray :=
  Gray 2 3 (fun r c => 40 * (3 * r + c)).

(** An RGB raster of two by two pixels with four different colours. *)
Definition raster_2x2 : ndarray :=
  Color 2 2 3 (fun r c k => 100 * r + 50 * c + 10 * k).

(** An RGB raster of two by two pixels, all of them (255, 0, 0). *)
Definition raster_red : ndarray :=
  Color 2 2 3 (fun r c k => if k =? 0 then 255 else 0).

Definition tree_3x2 : QuadTree :=
  Eval vm_compute in
    match QuadTree_init raster_3x2 0 with
    | Ok t => t
    | Raise _ => mkTree 0 [] (mkNode 0 0 0 0 true None None) 0%float
    end.

Definition tree_2x2 : QuadTree :=
  Eval vm_compute in
    match QuadTree_init raster_2x2 0 with
    | Ok t => t
    | Raise _ => mkTree 0 [] (mkNode 0 0 0 0 true None None) 0%float
    end.

Definition tree_red : QuadTree :=
  Eval vm_compute in
    match QuadTree_init raster_red 10 with
    | Ok t => t
    | Raise _ => mkTree 0 [] (mkNode 0 0 0 0 true None None) 0%float
    end.

Definition flipped_3x2 : QuadTree :=
  Eval vm_compute in
    match flip_horizontal tree_3x2 with
    | Ok t => t
    | Raise _ => tree_3x2
    end.

(** The overlay of the two-by-two examples. *)
Definition overlay_red_2x2 : QuadTree :=
  Eval vm_compute in
    match overlay tree_red tree_2x2 "blend" 0.5%float with
    | Ok t => t
    | Raise _ => tree_red
    end.

(** A grey raster of four rows of three pixels, all different. *)
Definition raster_3x4 : ndarray :=
  Gray 4 3 (fun r c => 20 * (3 * r + c)).

Definition tree_3x4 : QuadTree :=
  Eval vm_compute in
    match QuadTree_init raster_3x4 0 with
    | Ok t => t
    | Raise _ => mkTree 0 [] (mkNode 0 0 0 0 true None None) 0%float
    end.

Definition flipped_3x4 : QuadTree :=
  Eval vm_compute in
    match flip_horizontal tree_3x4 with
    | Ok t => t
    | Raise _ => tree_3x4
    end.

(** A grey strip of one row and four pixels: 10 60 110 160. *)
Definition raster_strip : ndarray :=
  Gray 1 4 (fun r c => 10 + 50 * c).

(** The float nearest to 0.3. *)
Definition alpha_03 : float := 0x1.3333333333333p-2%float.

(** An RGB raster without rows. *)
Definition raster_empty : ndarray :=
  Color 0 5 3 (fun _ _ _ => 0).

(** The tree of the four-colour raster at a negative threshold. *)
Definition tree_2x2_strict : QuadTree :=
  Eval vm_compute in
    match QuadTree_init raster_2x2 (-5) with
    | Ok t => t
    | Raise _ => mkTree 0 [] (mkNode 0 0 0 0 true None None) 0%float
    end.

(** * Properties *)

(** ** Results *)

Lemma bind_Ok {A B : Type} (c : result A) (k : A -> result B) (b : B) :
  bind c k = Ok b -> exists a, c = Ok a /\ k a = Ok b.
Proof.
  destruct c as [a|e]; simpl; [eauto | discriminate].
Qed.

Ltac inv_bind H :=
  let a := fresh "v" in
  let Ha := fresh "Hv" in
  apply bind_Ok in H; destruct H as (a & Ha & H).

Lemma getitem_Ok_In {A : Type} (l : list A) (i : nat) (a : A) :
  getitem l i = Ok a -> In a l.
Proof.
  unfold getitem. destruct (nth_error l i) eqn:E; [|discriminate].
  intros [= ->]. eapply nth_error_In; eauto.
Qed.

(** ** Unfolding of the two well-founded recursions *)

Section Unfold.

Context {np_std : NumpyStd}.

Lemma _build_tree_eq (threshold : Z) (image : ndarray) (x y width height : Z) :
  _build_tree threshold image x y width height =
  if (width <=? 1) || (height <=? 1) then
    pixel_value <- pixel_list image y x ;;
    Ok (mkNode x y width height true (Some pixel_value) None)
  else if _is_homogeneous threshold image x y width height then
    avg_color <- _get_average_color image x y width height ;;
    Ok (mkNode x y width height true (Some avg_color) None)
  else
    let mid_x := width / 2 in
    let mid_y := height / 2 in
    nw <- _build_tree threshold image x y mid_x mid_y ;;
    ne <- _build_tree threshold image (x + mid_x) y (width - mid_x) mid_y ;;
    sw <- _build_tree threshold image x (y + mid_y) mid_x (height - mid_y) ;;
    se <- _build_tree threshold image (x + mid_x) (y + mid_y)
                      (width - mid_x) (height - mid_y) ;;
    Ok (mkNode x y width height false None (Some [nw; ne; sw; se])).
Proof.
  simp _build_tree.
  destruct (sumbool_of_bool ((width <=? 1) || (height <=? 1))) as [e|e];
    simp _build_tree; rewrite e; reflexivity.
Qed.

End Unfold.

Lemma _overlay_recursive_eq (node1 node2 : QuadTreeNode) (operation : string)
    (alpha : float) :
  _overlay_recursive node1 node2 operation alpha =
  if is_leaf node1 && is_leaf node2 then
    result_color <- _apply_overlay_operation
                      (pixel_or_black (pixel_value node1))
                      (pixel_or_black (pixel_value node2))
                      operation alpha ;;
    Ok (mkNode (x node1) (y node1) (width node1) (height node1)
               true (Some result_color) None)
  else
    let n1 := expand_if_leaf node1 in
    let n2 := expand_if_leaf node2 in
    ' (a0, b0) <- child_pair n1 n2 0 ;;
    r0 <- _overlay_recursive a0 b0 operation alpha ;;
    ' (a1, b1) <- child_pair n1 n2 1 ;;
    r1 <- _overlay_recursive a1 b1 operation alpha ;;
    ' (a2, b2) <- child_pair n1 n2 2 ;;
    r2 <- _overlay_recursive a2 b2 operation alpha ;;
    ' (a3, b3) <- child_pair n1 n2 3 ;;
    r3 <- _overlay_recursive a3 b3 operation alpha ;;
    Ok (mkNode (x n1) (y n1) (width n1) (height n1) false None
               (Some [r0; r1; r2; r3])).
Proof.
  funelim (_overlay_recursive node1 node2 operation alpha);
    cbv zeta;
    repeat match goal with
           | H : is_leaf _ && is_leaf _ = _ |- _ => rewrite H
           | H : child_pair _ _ _ = _ |- _ => rewrite H
           | H : _overlay_recursive _ _ _ _ = Ok _ |- _ => rewrite H
           | H : _overlay_recursive _ _ _ _ = Raise _ |- _ => rewrite H
           | |- _ => progress cbn [bind]
           end; reflexivity.
Qed.

(** ** Regions and tilings *)

Ltac zdiv := Z.div_mod_to_equations; lia.

Lemma shaped_mono (rule1 rule2 : region -> list region -> Prop) (node : QuadTreeNode) :
  (forall R rs, rule1 R rs -> rule2 R rs) ->
  shaped rule1 node -> shaped rule2 node.
Proof.
  intros Hsub Hs. induction Hs; constructor; auto.
Qed.

Lemma tiles_four (R a b c d : region) :
  disjoint a b -> disjoint a c -> disjoint a d ->
  disjoint b c -> disjoint b d -> disjoint c d ->
  (forall r k, inside R r k <->
               inside a r k \/ inside b r k \/ inside c r k \/ inside d r k) ->
  tiles R [a; b; c; d].
Proof.
  intros Hab Hac Had Hbc Hbd Hcd Hcover. repeat split.
  - repeat (constructor; [repeat (constructor; try assumption) |]).
    constructor.
  - repeat (constructor; [intros r k Hi; apply Hcover; tauto |]). constructor.
  - intros r k Hi. apply Hcover in Hi.
    destruct Hi as [Hi|[Hi|[Hi|Hi]]];
      [ apply Exists_cons_hd
      | apply Exists_cons_tl, Exists_cons_hd
      | do 2 apply Exists_cons_tl; apply Exists_cons_hd
      | do 3 apply Exists_cons_tl; apply Exists_cons_hd ]; exact Hi.
Qed.

Lemma tiles_four_inv (R a b c d : region) :
  tiles R [a; b; c; d] ->
  (disjoint a b /\ disjoint a c /\ disjoint a d /\
   disjoint b c /\ disjoint b d /\ disjoint c d) /\
  (forall r k, inside R r k <->
               inside a r k \/ inside b r k \/ inside c r k \/ inside d r k).
Proof.
  intros (Hd & Hin & Hcov). split.
  - inversion Hd as [|? ? Ha Hd1]; subst.
    inversion Hd1 as [|? ? Hb Hd2]; subst.
    inversion Hd2 as [|? ? Hc Hd3]; subst.
    inversion Ha as [|? ? Hab Ha1]; subst.
    inversion Ha1 as [|? ? Hac Ha2]; subst.
    inversion Ha2 as [|? ? Had _]; subst.
    inversion Hb as [|? ? Hbc Hb1]; subst.
    inversion Hb1 as [|? ? Hbd _]; subst.
    inversion Hc as [|? ? Hcd _]; subst.
    tauto.
  - intros r k. split.
    + intros Hi. apply Hcov in Hi.
      repeat match goal with
             | H : Exists _ (_ :: _) |- _ => inversion H; clear H; subst
             | H : Exists _ [] |- _ => inversion H
             end; tauto.
    + inversion Hin as [|? ? Ha Hin1]; subst.
      inversion Hin1 as [|? ? Hb Hin2]; subst.
      inversion Hin2 as [|? ? Hc Hin3]; subst.
      inversion Hin3 as [|? ? Hd' _]; subst.
      intros [Hi|[Hi|[Hi|Hi]]]; auto.
Qed.

Ltac geometry :=
  unfold disjoint, inside; simpl; intros; zdiv.

Lemma floor_rule_tiles (R : region) (rs : list region) :
  floor_rule R rs -> tiles R rs.
Proof.
  intros (Hw & Hh & ->). destruct R as [x0 y0 w h]; simpl in *.
  apply tiles_four; geometry.
Qed.

Lemma flipped_h_rule_tiles (R : region) (rs : list region) :
  flipped_h_rule R rs -> tiles R rs.
Proof.
  intros (Hw & Hh & ->). destruct R as [x0 y0 w h]; simpl in *.
  apply tiles_four; geometry.
Qed.

Lemma flipped_v_rule_tiles (R : region) (rs : list region) :
  flipped_v_rule R rs -> tiles R rs.
Proof.
  intros (Hw & Hh & ->). destruct R as [x0 y0 w h]; simpl in *.
  apply tiles_four; geometry.
Qed.

Lemma mirror_h_involutive (W : Z) (R : region) :
  mirror_h W (mirror_h W R) = R.
Proof.
  destruct R; unfold mirror_h; simpl. f_equal; lia.
Qed.

Lemma mirror_v_involutive (H : Z) (R : region) :
  mirror_v H (mirror_v H R) = R.
Proof.
  destruct R; unfold mirror_v; simpl. f_equal; lia.
Qed.

Lemma flip_h_of_floor (W : Z) (R : region) (rs : list region) :
  flip_h_of W floor_rule R rs -> flipped_h_rule R rs.
Proof.
  destruct rs as [|a [|b [|c [|d [|? ?]]]]]; simpl; try tauto.
  intros (Hw & Hh & Heq). simpl in *. repeat split; try assumption.
  destruct R as [x0 y0 w h], a, b, c, d.
  unfold quadrants, quadrants_flipped_h, mirror_h in *; simpl in *.
  injection Heq; intros; subst. repeat f_equal; lia.
Qed.

Lemma flip_v_of_floor (H : Z) (R : region) (rs : list region) :
  flip_v_of H floor_rule R rs -> flipped_v_rule R rs.
Proof.
  destruct rs as [|a [|b [|c [|d [|? ?]]]]]; simpl; try tauto.
  intros (Hw & Hh & Heq). simpl in *. repeat split; try assumption.
  destruct R as [x0 y0 w h], a, b, c, d.
  unfold quadrants, quadrants_flipped_v, mirror_v in *; simpl in *.
  injection Heq; intros; subst. repeat f_equal; lia.
Qed.

Lemma inside_mirror_h (W : Z) (R : region) (r c : Z) :
  inside (mirror_h W R) r c <-> inside R r (W - 1 - c).
Proof.
  unfold inside, mirror_h; simpl. lia.
Qed.

Lemma inside_mirror_v (H : Z) (R : region) (r c : Z) :
  inside (mirror_v H R) r c <-> inside R (H - 1 - r) c.
Proof.
  unfold inside, mirror_v; simpl. lia.
Qed.

Lemma disjoint_mirror_h (W : Z) (A B : region) :
  disjoint (mirror_h W A) (mirror_h W B) -> disjoint A B.
Proof.
  intros Hd r c [Ha Hb]. apply (Hd r (W - 1 - c)).
  rewrite !inside_mirror_h. replace (W - 1 - (W - 1 - c)) with c by lia. tauto.
Qed.

Lemma disjoint_mirror_v (H : Z) (A B : region) :
  disjoint (mirror_v H A) (mirror_v H B) -> disjoint A B.
Proof.
  intros Hd r c [Ha Hb]. apply (Hd (H - 1 - r) c).
  rewrite !inside_mirror_v. replace (H - 1 - (H - 1 - r)) with r by lia. tauto.
Qed.

Lemma disjoint_sym (A B : region) : disjoint A B -> disjoint B A.
Proof.
  intros Hd r c [Hb Ha]. apply (Hd r c). tauto.
Qed.

Lemma flip_h_of_tiles (W : Z) (R : region) (rs : list region) :
  flip_h_of W tiles R rs -> tiles R rs.
Proof.
  destruct rs as [|a [|b [|c [|d [|? ?]]]]]; simpl; try tauto.
  intros Ht. apply tiles_four_inv in Ht.
  destruct Ht as ((Hba & Hbd & Hbc & Had & Hac & Hdc) & Hcov).
  apply tiles_four; eauto using disjoint_mirror_h, disjoint_sym.
  intros r k. specialize (Hcov r (W - 1 - k)).
  rewrite !inside_mirror_h in Hcov.
  replace (W - 1 - (W - 1 - k)) with k in Hcov by lia. tauto.
Qed.

Lemma flip_v_of_tiles (H : Z) (R : region) (rs : list region) :
  flip_v_of H tiles R rs -> tiles R rs.
Proof.
  destruct rs as [|a [|b [|c [|d [|? ?]]]]]; simpl; try tauto.
  intros Ht. apply tiles_four_inv in Ht.
  destruct Ht as ((Hcd & Hca & Hcb & Hda & Hdb & Hab) & Hcov).
  apply tiles_four; eauto using disjoint_mirror_v, disjoint_sym.
  intros r k. specialize (Hcov (H - 1 - r) k).
  rewrite !inside_mirror_v in Hcov.
  replace (H - 1 - (H - 1 - r)) with r in Hcov by lia. tauto.
Qed.

(** ** Shape of the trees the core produces *)

Lemma shaped_internal_inv (rule : region -> list region -> Prop) (node : QuadTreeNode) :
  shaped rule node -> is_leaf node = false ->
  exists nw ne sw se,
    children node = Some [nw; ne; sw; se]
    /\ rule (region_of node) (map region_of [nw; ne; sw; se])
    /\ shaped rule nw /\ shaped rule ne /\ shaped rule sw /\ shaped rule se.
Proof.
  intros Hs Hl. destruct Hs; simpl in *; [discriminate |].
  exists nw, ne, sw, se. auto 10.
Qed.

Lemma shaped_leaf_inv (rule : region -> list region -> Prop) (node : QuadTreeNode) :
  shaped rule node -> is_leaf node = true ->
  exists pv, node = mkNode (x node) (y node) (width node) (height node)
                           true (Some pv) None.
Proof.
  intros Hs Hl. destruct Hs; simpl in *; [eauto | discriminate].
Qed.

Lemma shaped_subnode (rule : region -> list region -> Prop) (m node : QuadTreeNode) :
  subnode m node -> shaped rule node -> shaped rule m.
Proof.
  induction 1 as [|n l c Hch Hin Hsub IH]; intros Hs; [assumption |].
  apply IH. destruct Hs; simpl in Hch; [discriminate |].
  injection Hch as <-. simpl in Hin.
  destruct Hin as [<-|[<-|[<-|[<-|[]]]]]; assumption.
Qed.

Lemma shaped_four_children (rule : region -> list region -> Prop)
    (m node : QuadTreeNode) :
  shaped rule node -> subnode m node -> is_leaf m = false ->
  exists rs, four_children m rs /\ rule (region_of m) rs.
Proof.
  intros Hs Hsub Hl.
  destruct (shaped_internal_inv rule m (shaped_subnode rule m node Hsub Hs) Hl)
    as (nw & ne & sw & se & Hch & Hr & _).
  eexists. split; [| exact Hr]. exists nw, ne, sw, se. auto.
Qed.

Section BuildShape.

Context {np_std : NumpyStd}.

Lemma _build_tree_shaped (threshold : Z) (image : ndarray) (x y width height : Z)
    (node : QuadTreeNode) :
  _build_tree threshold image x y width height = Ok node ->
  shaped floor_rule node /\ region_of node = mkRegion x y width height.
Proof.
  remember (Z.to_nat width) as k eqn:Hk.
  revert x y width height node Hk.
  induction k as [k IH] using lt_wf_ind.
  intros x0 y0 w h node Hk Hb.
  rewrite _build_tree_eq in Hb.
  destruct ((w <=? 1) || (h <=? 1)) eqn:Hsmall.
  - inv_bind Hb. injection Hb as <-. split; [constructor | reflexivity].
  - destruct (_is_homogeneous threshold image x0 y0 w h).
    + inv_bind Hb. injection Hb as <-. split; [constructor | reflexivity].
    + cbv zeta in Hb.
      apply orb_false_elim in Hsmall. destruct Hsmall as [Hw Hh].
      apply Z.leb_gt in Hw, Hh.
      inv_bind Hb. inv_bind Hb. inv_bind Hb. inv_bind Hb.
      injection Hb as <-.
      assert (Hlo : (Z.to_nat (w / 2) < k)%nat) by (subst k; apply Z2Nat.inj_lt; zdiv).
      assert (Hhi : (Z.to_nat (w - w / 2) < k)%nat) by (subst k; apply Z2Nat.inj_lt; zdiv).
      destruct (IH _ Hlo _ _ _ _ _ eq_refl Hv) as [S0 R0].
      destruct (IH _ Hhi _ _ _ _ _ eq_refl Hv0) as [S1 R1].
      destruct (IH _ Hlo _ _ _ _ _ eq_refl Hv1) as [S2 R2].
      destruct (IH _ Hhi _ _ _ _ _ eq_refl Hv2) as [S3 R3].
      split; [| reflexivity].
      constructor; try assumption.
      simpl. rewrite R0, R1, R2, R3. repeat split; assumption.
Qed.

End BuildShape.

Lemma flip_horizontal_shaped (rule : region -> list region -> Prop)
    (original_shape : list Z) (W : Z) (node : QuadTreeNode) :
  getitem original_shape 1 = Ok W ->
  shaped rule node ->
  exists node',
    _flip_horizontal_recursive original_shape node = Ok node'
    /\ shaped (flip_h_of W rule) node'
    /\ region_of node' = mirror_h W (region_of node)
    /\ _flip_horizontal_recursive original_shape node' = Ok node.
Proof.
  intros HW Hs.
  induction Hs as [x0 y0 w h pv
                  |x0 y0 w h nw ne sw se Hr Hnw IHnw Hne IHne Hsw IHsw Hse IHse].
  - simpl. rewrite HW. simpl. eexists. split; [reflexivity |].
    split; [constructor |]. split; [reflexivity |].
    simpl. rewrite HW. simpl. do 2 f_equal. lia.
  - destruct IHnw as (nw' & Enw & Snw & Rnw & Bnw).
    destruct IHne as (ne' & Ene & Sne & Rne & Bne).
    destruct IHsw as (sw' & Esw & Ssw & Rsw & Bsw).
    destruct IHse as (se' & Ese & Sse & Rse & Bse).
    cbn -[getitem]. rewrite Enw, Ene, Esw, Ese, HW. cbn -[getitem].
    eexists. split; [reflexivity |].
    split; [| split; [reflexivity |]].
    + constructor; try assumption.
      simpl. rewrite Rnw, Rne, Rsw, Rse, !mirror_h_involutive.
      unfold mirror_h at 1. simpl.
      replace (W - (W - x0 - w) - w) with x0 by lia. exact Hr.
    + cbn -[getitem]. rewrite Bnw, Bne, Bsw, Bse, HW. cbn -[getitem].
      do 2 f_equal. lia.
Qed.

Lemma flip_vertical_shaped (rule : region -> list region -> Prop)
    (original_shape : list Z) (H : Z) (node : QuadTreeNode) :
  getitem original_shape 0 = Ok H ->
  shaped rule node ->
  exists node',
    _flip_vertical_recursive original_shape node = Ok node'
    /\ shaped (flip_v_of H rule) node'
    /\ region_of node' = mirror_v H (region_of node)
    /\ _flip_vertical_recursive original_shape node' = Ok node.
Proof.
  intros HH Hs.
  induction Hs as [x0 y0 w h pv
                  |x0 y0 w h nw ne sw se Hr Hnw IHnw Hne IHne Hsw IHsw Hse IHse].
  - simpl. rewrite HH. simpl. eexists. split; [reflexivity |].
    split; [constructor |]. split; [reflexivity |].
    simpl. rewrite HH. simpl. do 2 f_equal. lia.
  - destruct IHnw as (nw' & Enw & Snw & Rnw & Bnw).
    destruct IHne as (ne' & Ene & Sne & Rne & Bne).
    destruct IHsw as (sw' & Esw & Ssw & Rsw & Bsw).
    destruct IHse as (se' & Ese & Sse & Rse & Bse).
    cbn -[getitem]. rewrite Enw, Ene, Esw, Ese, HH. cbn -[getitem].
    eexists. split; [reflexivity |].
    split; [| split; [reflexivity |]].
    + constructor; try assumption.
      simpl. rewrite Rnw, Rne, Rsw, Rse, !mirror_v_involutive.
      unfold mirror_v at 1. simpl.
      replace (H - (H - y0 - h) - h) with y0 by lia. exact Hr.
    + cbn -[getitem]. rewrite Bnw, Bne, Bsw, Bse, HH. cbn -[getitem].
      do 2 f_equal. lia.
Qed.

(** The node the overlay recursion continues with on the left: it has no
    children (a leaf too small to expand), or four children shaped like the
    original and placed by [rule]. *)
Lemma expand_if_leaf_shaped (rule : region -> list region -> Prop) (node : QuadTreeNode) :
  (forall R, 1 < rw R -> 1 < rh R -> rule R (quadrants R)) ->
  shaped rule node ->
  region_of (expand_if_leaf node) = region_of node
  /\ (children (expand_if_leaf node) = None
      \/ exists a b c d,
           children (expand_if_leaf node) = Some [a; b; c; d]
           /\ rule (region_of node) (map region_of [a; b; c; d])
           /\ shaped rule a /\ shaped rule b /\ shaped rule c /\ shaped rule d).
Proof.
  intros Hrule Hs. destruct Hs as [x0 y0 w h pv|x0 y0 w h nw ne sw se Hr].
  - unfold expand_if_leaf, _expand_leaf_node. simpl.
    destruct ((w <=? 1) || (h <=? 1)) eqn:Hsmall; simpl.
    + auto.
    + split; [reflexivity |]. right.
      apply orb_false_elim in Hsmall. destruct Hsmall as [Hw Hh].
      apply Z.leb_gt in Hw, Hh.
      do 4 eexists. split; [reflexivity |].
      split; [| repeat split; constructor].
      apply (Hrule (mkRegion x0 y0 w h)); assumption.
  - unfold expand_if_leaf. simpl. split; [reflexivity |]. right.
    exists nw, ne, sw, se. auto 10.
Qed.

Lemma child_pair_Ok (node1 node2 a b : QuadTreeNode) (i : nat) :
  child_pair node1 node2 i = Ok (a, b) ->
  getitem (children_or_empty node1) i = Ok a
  /\ getitem (children_or_empty node2) i = Ok b.
Proof.
  unfold child_pair. intros H. inv_bind H. inv_bind H.
  injection H as <- <-. auto.
Qed.

Lemma _overlay_recursive_shaped (rule : region -> list region -> Prop) :
  (forall R, 1 < rw R -> 1 < rh R -> rule R (quadrants R)) ->
  forall (node1 node2 : QuadTreeNode) (operation : string) (alpha : float)
         (node : QuadTreeNode),
    shaped rule node1 ->
    _overlay_recursive node1 node2 operation alpha = Ok node ->
    shaped rule node /\ region_of node = region_of node1.
Proof.
  intros Hrule node1 node2 operation alpha.
  remember (size node1 + size node2)%nat as k eqn:Hk.
  revert node1 node2 Hk.
  induction k as [k IH] using lt_wf_ind.
  intros node1 node2 Hk node Hs Ho.
  rewrite _overlay_recursive_eq in Ho.
  destruct (is_leaf node1 && is_leaf node2) eqn:Hl.
  - inv_bind Ho. injection Ho as <-. split; [constructor | reflexivity].
  - cbv zeta in Ho.
    destruct (expand_if_leaf_shaped rule node1 Hrule Hs) as [Hreg [Hnone|Hsome]].
    + inv_bind Ho. destruct v as [a0 b0].
      apply child_pair_Ok in Hv. destruct Hv as [Hv _].
      unfold children_or_empty in Hv. rewrite Hnone in Hv. discriminate.
    + destruct Hsome as (a & b & c & d & Hch & Hr & Sa & Sb & Sc & Sd).
      inv_bind Ho. destruct v as [a0 b0]. inv_bind Ho.
      inv_bind Ho. destruct v0 as [a1 b1]. inv_bind Ho.
      inv_bind Ho. destruct v1 as [a2 b2]. inv_bind Ho.
      inv_bind Ho. destruct v2 as [a3 b3]. inv_bind Ho.
      injection Ho as <-.
      pose proof (size_child_pair _ _ _ _ _ Hl Hv) as L0.
      pose proof (size_child_pair _ _ _ _ _ Hl Hv1) as L1.
      pose proof (size_child_pair _ _ _ _ _ Hl Hv3) as L2.
      pose proof (size_child_pair _ _ _ _ _ Hl Hv5) as L3.
      apply child_pair_Ok in Hv, Hv1, Hv3, Hv5.
      destruct Hv as [Hv _], Hv1 as [Hv1 _], Hv3 as [Hv3 _], Hv5 as [Hv5 _].
      unfold children_or_empty in Hv, Hv1, Hv3, Hv5.
      rewrite Hch in Hv, Hv1, Hv3, Hv5.
      cbn in Hv, Hv1, Hv3, Hv5.
      injection Hv as <-. injection Hv1 as <-.
      injection Hv3 as <-. injection Hv5 as <-.
      subst k.
      destruct (IH _ L0 _ _ eq_refl _ Sa Hv0) as [T0 R0].
      destruct (IH _ L1 _ _ eq_refl _ Sb Hv2) as [T1 R1].
      destruct (IH _ L2 _ _ eq_refl _ Sc Hv4) as [T2 R2].
      destruct (IH _ L3 _ _ eq_refl _ Sd Hv6) as [T3 R3].
      split.
      * constructor; try assumption.
        simpl. rewrite R0, R1, R2, R3.
        change (mkRegion (x (expand_if_leaf node1)) (y (expand_if_leaf node1))
                         (width (expand_if_leaf node1))
                         (height (expand_if_leaf node1)))
          with (region_of (expand_if_leaf node1)).
        rewrite Hreg. exact Hr.
      * change (region_of (expand_if_leaf node1) = region_of node1).
        exact Hreg.
Qed.

(** ** Trees produced by the core *)

Section Produced.

Context {np_std : NumpyStd}.

Lemma QuadTree_init_Ok (image : ndarray) (thr : Z) (t : QuadTree) :
  QuadTree_init image thr = Ok t ->
  _build_tree thr image 0 0 (cols image) (rows image) = Ok (root t)
  /\ original_shape t = shape image
  /\ threshold t = thr
  /\ _calculate_compression_ratio (shape image) (root t)
     = Ok (compression_ratio t).
Proof.
  unfold QuadTree_init. intros H.
  assert (Hw : getitem (shape image) 1 = Ok (cols image)) by (destruct image; reflexivity).
  assert (Hh : getitem (shape image) 0 = Ok (rows image)) by (destruct image; reflexivity).
  rewrite Hw, Hh in H. cbn [bind] in H.
  inv_bind H. inv_bind H. injection H as <-. auto.
Qed.

Lemma QuadTree_init_shaped (image : ndarray) (threshold : Z) (t : QuadTree) :
  QuadTree_init image threshold = Ok t ->
  shaped floor_rule (root t)
  /\ region_of (root t) = mkRegion 0 0 (cols image) (rows image)
  /\ getitem (original_shape t) 0 = Ok (rows image)
  /\ getitem (original_shape t) 1 = Ok (cols image).
Proof.
  intros H. apply QuadTree_init_Ok in H. destruct H as (Hb & Hs & _).
  apply _build_tree_shaped in Hb. destruct Hb as [Hb Hr].
  rewrite Hs. repeat split; try assumption; destruct image; reflexivity.
Qed.

Lemma produced_shaped (t : QuadTree) :
  produced t ->
  shaped tiles (root t)
  /\ exists H W, getitem (original_shape t) 0 = Ok H
                 /\ getitem (original_shape t) 1 = Ok W.
Proof.
  induction 1 as [image threshold t Hb
                 |t t' Hp [IH (H & W & HH & HW)] Hf
                 |t t' Hp [IH (H & W & HH & HW)] Hf
                 |t other operation alpha t' Hp [IH Hshape] Hq _ Ho].
  - apply QuadTree_init_shaped in Hb. destruct Hb as (Hs & _ & HH & HW).
    split; [| eauto]. eapply shaped_mono; [| exact Hs].
    exact floor_rule_tiles.
  - unfold flip_horizontal in Hf. inv_bind Hf. injection Hf as <-. simpl.
    split; [| eauto].
    destruct (flip_horizontal_shaped tiles _ W _ HW IH) as (n' & Hn' & Hs' & _).
    rewrite Hn' in Hv. injection Hv as <-.
    eapply shaped_mono; [| exact Hs']. apply flip_h_of_tiles.
  - unfold flip_vertical in Hf. inv_bind Hf. injection Hf as <-. simpl.
    split; [| eauto].
    destruct (flip_vertical_shaped tiles _ H _ HH IH) as (n' & Hn' & Hs' & _).
    rewrite Hn' in Hv. injection Hv as <-.
    eapply shaped_mono; [| exact Hs']. apply flip_v_of_tiles.
  - unfold overlay in Ho. inv_bind Ho. injection Ho as <-. simpl.
    split; [| exact Hshape].
    eapply _overlay_recursive_shaped; [| exact IH | exact Hv].
    intros R Hw Hh. apply floor_rule_tiles. repeat split; assumption.
Qed.

(** C2. In every tree the core produces (by build, by a flip or by an
    overlay), every internal node has four children whose regions tile the
    node's region: they are pairwise disjoint, lie inside the region, and
    cover it. *)
Theorem produced_children_tile (t : QuadTree) (m : QuadTreeNode) :
  produced t -> subnode m (root t) -> is_leaf m = false ->
  exists nw ne sw se,
    children m = Some [nw; ne; sw; se]
    /\ tiles (region_of m) (map region_of [nw; ne; sw; se]).
Proof.
  intros Hp Hsub Hl. apply produced_shaped in Hp. destruct Hp as [Hs _].
  destruct (shaped_internal_inv tiles m (shaped_subnode tiles m _ Hsub Hs) Hl)
    as (nw & ne & sw & se & Hch & Ht & _).
  exists nw, ne, sw, se. auto.
Qed.

(** C1 (amended). In a tree produced by build, and in the result of an
    overlay whose first operand was produced by build, every internal node
    has exactly four children whose regions are the quadrants NW, NE, SW, SE
    computed with mid_x = width/2 and mid_y = height/2 (floor).  In the
    horizontal (vertical) flip of a built tree every internal node has
    exactly four children whose regions are the mirror images of those
    quadrants: the column (row) split is at width - mid_x (height - mid_y). *)
Theorem built_children_quadrants (image : ndarray) (threshold : Z) (t : QuadTree) :
  QuadTree_init image threshold = Ok t ->
  (forall m, subnode m (root t) -> is_leaf m = false ->
             four_children m (quadrants (region_of m)))
  /\ (forall other operation alpha t',
        overlay t other operation alpha = Ok t' ->
        forall m, subnode m (root t') -> is_leaf m = false ->
                  four_children m (quadrants (region_of m)))
  /\ (exists t', flip_horizontal t = Ok t'
        /\ forall m, subnode m (root t') -> is_leaf m = false ->
                     four_children m (quadrants_flipped_h (region_of m)))
  /\ (exists t', flip_vertical t = Ok t'
        /\ forall m, subnode m (root t') -> is_leaf m = false ->
                     four_children m (quadrants_flipped_v (region_of m))).
Proof.
  intros Hb. apply QuadTree_init_shaped in Hb.
  destruct Hb as (Hs & _ & HH & HW).
  assert (Hfloor : forall node, shaped floor_rule node ->
            forall m, subnode m node -> is_leaf m = false ->
                      four_children m (quadrants (region_of m))).
  { intros node Hn m Hsub Hl.
    destruct (shaped_four_children _ _ _ Hn Hsub Hl) as (rs & H4 & _ & _ & ->).
    exact H4. }
  split; [exact (Hfloor _ Hs) |]. split; [| split].
  - intros other operation alpha t' Ho.
    unfold overlay in Ho. inv_bind Ho. injection Ho as <-. simpl.
    apply Hfloor.
    eapply _overlay_recursive_shaped; [| exact Hs | exact Hv].
    intros R Hw Hh. repeat split; assumption.
  - destruct (flip_horizontal_shaped floor_rule _ _ _ HW Hs) as (n' & Hn' & Hs' & _).
    unfold flip_horizontal. rewrite Hn'. simpl. eexists. split; [reflexivity |].
    simpl. intros m Hsub Hl.
    apply (shaped_mono _ flipped_h_rule) in Hs'; [| apply flip_h_of_floor].
    destruct (shaped_four_children _ _ _ Hs' Hsub Hl) as (rs & H4 & _ & _ & ->).
    exact H4.
  - destruct (flip_vertical_shaped floor_rule _ _ _ HH Hs) as (n' & Hn' & Hs' & _).
    unfold flip_vertical. rewrite Hn'. simpl. eexists. split; [reflexivity |].
    simpl. intros m Hsub Hl.
    apply (shaped_mono _ flipped_v_rule) in Hs'; [| apply flip_v_of_floor].
    destruct (shaped_four_children _ _ _ Hs' Hsub Hl) as (rs & H4 & _ & _ & ->).
    exact H4.
Qed.

(** C4. Both flips are involutions on built trees: flipping a tree built
    from a raster and flipping the result again returns the tree itself,
    with the same regions, colours, child order and summary fields. *)
Theorem flip_twice (image : ndarray) (threshold : Z) (t : QuadTree) :
  QuadTree_init image threshold = Ok t ->
  (exists t', flip_horizontal t = Ok t' /\ flip_horizontal t' = Ok t)
  /\ (exists t', flip_vertical t = Ok t' /\ flip_vertical t' = Ok t).
Proof.
  intros Hb. apply QuadTree_init_shaped in Hb.
  destruct Hb as (Hs & _ & HH & HW). split.
  - destruct (flip_horizontal_shaped floor_rule _ _ _ HW Hs) as (n' & Hn' & _ & _ & Hback).
    unfold flip_horizontal. rewrite Hn'. simpl. eexists. split; [reflexivity |].
    simpl. rewrite Hback. simpl. destruct t; reflexivity.
  - destruct (flip_vertical_shaped floor_rule _ _ _ HH Hs) as (n' & Hn' & _ & _ & Hback).
    unfold flip_vertical. rewrite Hn'. simpl. eexists. split; [reflexivity |].
    simpl. rewrite Hback. simpl. destruct t; reflexivity.
Qed.

End Produced.

(** ** Examples on concrete rasters *)

Example tree_3x2_built : QuadTree_init raster_3x2 0 = Ok tree_3x2.
Proof. vm_compute. reflexivity. Qed.

Example tree_2x2_built : QuadTree_init raster_2x2 0 = Ok tree_2x2.
Proof. vm_compute. reflexivity. Qed.

Example tree_red_built : QuadTree_init raster_red 10 = Ok tree_red.
Proof. vm_compute. reflexivity. Qed.

(** Example A of the specification: a single-colour 2x2 image is one leaf,
    and its compression ratio is 75. *)
Example tree_red_is_leaf :
  root tree_red = mkNode 0 0 2 2 true (Some [255; 0; 0]) None
  /\ _count_nodes (root tree_red) = 1
  /\ compression_ratio tree_red = 75%float.
Proof. repeat split. Qed.

(** Example B of the specification: four distinct colours at threshold 0
    give a root with four 1x1 leaves, five nodes and a ratio of -25. *)
Example tree_2x2_is_split :
  is_leaf (root tree_2x2) = false
  /\ _count_nodes (root tree_2x2) = 5
  /\ compression_ratio tree_2x2 = (-25)%float.
Proof. repeat split. Qed.

(** C1, counterexample.  The 3x2 raster is split at mid_x = 1 into columns
    of width 1 and 2; in its horizontal flip the root's NW child has width 2,
    not mid_x = 3/2 = 1. *)
Lemma flip_horizontal_not_quadrants :
  QuadTree_init raster_3x2 0 = Ok tree_3x2
  /\ flip_horizontal tree_3x2 = Ok flipped_3x2
  /\ is_leaf (root flipped_3x2) = false
  /\ ~ four_children (root flipped_3x2)
         (quadrants (region_of (root flipped_3x2))).
Proof.
  split; [vm_compute; reflexivity |].
  split; [vm_compute; reflexivity |].
  split; [reflexivity |].
  intros (nw & ne & sw & se & Hch & Hq).
  vm_compute in Hch. injection Hch as <- <- <- <-.
  vm_compute in Hq. discriminate Hq.
Qed.

Lemma built_children_quadrants_witness :
  (forall m, subnode m (root tree_3x2) -> is_leaf m = false ->
             four_children m (quadrants (region_of m)))
  /\ (forall other operation alpha t',
        overlay tree_3x2 other operation alpha = Ok t' ->
        forall m, subnode m (root t') -> is_leaf m = false ->
                  four_children m (quadrants (region_of m)))
  /\ (exists t', flip_horizontal tree_3x2 = Ok t'
        /\ forall m, subnode m (root t') -> is_leaf m = false ->
                     four_children m (quadrants_flipped_h (region_of m)))
  /\ (exists t', flip_vertical tree_3x2 = Ok t'
        /\ forall m, subnode m (root t') -> is_leaf m = false ->
                     four_children m (quadrants_flipped_v (region_of m))).
Proof.
  apply (built_children_quadrants raster_3x2 0 tree_3x2).
  vm_compute. reflexivity.
Defined.

Lemma produced_children_tile_witness :
  exists nw ne sw se,
    children (root flipped_3x2) = Some [nw; ne; sw; se]
    /\ tiles (region_of (root flipped_3x2)) (map region_of [nw; ne; sw; se]).
Proof.
  apply (produced_children_tile flipped_3x2 (root flipped_3x2)).
  - apply (produced_flip_horizontal tree_3x2).
    + apply (produced_build raster_3x2 0). vm_compute. reflexivity.
    + vm_compute. reflexivity.
  - apply subnode_refl.
  - reflexivity.
Defined.

Lemma flip_twice_witness :
  (exists t', flip_horizontal tree_3x2 = Ok t' /\ flip_horizontal t' = Ok tree_3x2)
  /\ (exists t', flip_vertical tree_3x2 = Ok t' /\ flip_vertical t' = Ok tree_3x2).
Proof.
  apply (flip_twice raster_3x2 0 tree_3x2). vm_compute. reflexivity.
Defined.

(** ** Operation tags *)

Lemma _apply_overlay_operation_fallback (color1 color2 : list Z)
    (operation : string) (alpha : float) :
  existsb (String.eqb operation) valid_operations = false ->
  _apply_overlay_operation color1 color2 operation alpha
  = _apply_overlay_operation color1 color2 "blend" alpha.
Proof.
  unfold valid_operations. simpl. intros H.
  repeat (apply orb_false_elim in H; destruct H as [? H]).
  unfold _apply_overlay_operation.
  repeat match goal with E : String.eqb _ _ = false |- _ => rewrite E; clear E end.
  reflexivity.
Qed.

Lemma _overlay_recursive_fallback (operation : string) (alpha : float) :
  existsb (String.eqb operation) valid_operations = false ->
  forall node1 node2,
    _overlay_recursive node1 node2 operation alpha
    = _overlay_recursive node1 node2 "blend" alpha.
Proof.
  intros Hop node1 node2.
  remember (size node1 + size node2)%nat as k eqn:Hk.
  revert node1 node2 Hk.
  induction k as [k IH] using lt_wf_ind.
  intros node1 node2 ->.
  rewrite (_overlay_recursive_eq node1 node2 operation),
          (_overlay_recursive_eq node1 node2 "blend").
  destruct (is_leaf node1 && is_leaf node2) eqn:Hl.
  - rewrite _apply_overlay_operation_fallback by assumption. reflexivity.
  - cbv zeta.
    repeat match goal with
           | |- bind (child_pair ?a ?b ?i) _ = bind (child_pair ?a ?b ?i) _ =>
               let E := fresh "E" in
               destruct (child_pair a b i) as [[? ?]|?] eqn:E;
               [cbn [bind] | reflexivity];
               rewrite (IH _ (size_child_pair _ _ _ _ _ Hl E) _ _ eq_refl)
           | |- bind (_overlay_recursive ?a ?b ?o ?al) _
                = bind (_overlay_recursive ?a ?b ?o ?al) _ =>
               destruct (_overlay_recursive a b o al);
               [cbn [bind] | reflexivity]
           end.
    reflexivity.
Qed.

(** C6 (amended). For an operation tag outside blend, add, multiply and
    screen, the [/overlay] endpoint rejects the request with an HTTP error
    before any overlay is computed; the overlay computation itself does not
    reject the tag: [_apply_overlay_operation] and [overlay] return exactly
    what they return for blend. *)
Theorem unrecognized_operation (operation : string) :
  existsb (String.eqb operation) valid_operations = false ->
  (forall color1 color2 alpha,
      _apply_overlay_operation color1 color2 operation alpha
      = _apply_overlay_operation color1 color2 "blend" alpha)
  /\ (forall A B alpha,
        overlay A B operation alpha = overlay A B "blend" alpha)
  /\ (forall (np_std : NumpyStd) file1_is_image file2_is_image
             image1_array image2_array alpha threshold,
        overlay_images file1_is_image file2_is_image image1_array
                       image2_array operation alpha threshold
        = Raise (HTTPException 500)).
Proof.
  intros Hop. split; [| split].
  - intros. apply _apply_overlay_operation_fallback. assumption.
  - intros. unfold overlay.
    rewrite _overlay_recursive_fallback by assumption. reflexivity.
  - intros. unfold overlay_images. rewrite Hop. simpl.
    destruct (negb file1_is_image || negb file2_is_image); reflexivity.
Qed.

Lemma unrecognized_operation_witness :
  (forall color1 color2 alpha,
      _apply_overlay_operation color1 color2 "average" alpha
      = _apply_overlay_operation color1 color2 "blend" alpha)
  /\ (forall A B alpha,
        overlay A B "average" alpha = overlay A B "blend" alpha)
  /\ (forall (np_std : NumpyStd) file1_is_image file2_is_image
             image1_array image2_array alpha threshold,
        overlay_images file1_is_image file2_is_image image1_array
                       image2_array "average" alpha threshold
        = Raise (HTTPException 500)).
Proof.
  apply (unrecognized_operation "average"). reflexivity.
Defined.

(** C6, counterexample.  The tag "average" is none of the four operations,
    yet the overlay of two built trees under it returns a tree, the one
    blend returns, and the colours (10, 20, 30) and (50, 60, 70) combine to
    the blend (30, 40, 50). *)
Lemma unrecognized_operation_not_rejected :
  existsb (String.eqb "average") valid_operations = false
  /\ overlay tree_red tree_2x2 "average" 0.5%float = Ok overlay_red_2x2
  /\ overlay tree_red tree_2x2 "blend" 0.5%float = Ok overlay_red_2x2
  /\ _apply_overlay_operation [10; 20; 30] [50; 60; 70] "average" 0.5%float
     = Ok [30; 40; 50].
Proof. repeat split. Qed.

(** ** Tree snapshot *)

Lemma to_dict_pixel_value (node : QuadTreeNode) :
  dict_get (to_dict node) "pixel_value"
  = Some (pixel_value_json (pixel_value node)).
Proof.
  destruct node as [x0 y0 w h lf pv [[|c l]|]]; reflexivity.
Qed.

Lemma to_dict_children (node : QuadTreeNode) :
  dict_get (to_dict node) "children"
  = match children node with
    | Some (c :: l) =>
        Some (VList (map (fun child => VDict (to_dict child)) (c :: l)))
    | _ => None
    end.
Proof.
  destruct node as [x0 y0 w h lf pv [[|c l]|]]; reflexivity.
Qed.

(** C8 (amended). In the snapshot of a tree the core produces, a leaf's
    dictionary never contains the key children and maps pixel_value to the
    leaf's colour (the list stored in its field [pixel_value]); an internal
    node's dictionary maps children to the snapshots of its four children
    (the nodes of its field [children], in their order) and still contains
    the key pixel_value, mapped to None (null in JSON). *)
Theorem to_dict_fields {np_std : NumpyStd} (t : QuadTree) (m : QuadTreeNode) :
  produced t -> subnode m (root t) ->
  (is_leaf m = true ->
     dict_get (to_dict m) "children" = None
     /\ exists pv,
          pixel_value m = Some pv
          /\ dict_get (to_dict m) "pixel_value" = Some (VList (map VInt pv)))
  /\ (is_leaf m = false ->
        dict_get (to_dict m) "pixel_value" = Some VNone
        /\ exists nw ne sw se,
             children m = Some [nw; ne; sw; se]
             /\ dict_get (to_dict m) "children"
                = Some (VList [VDict (to_dict nw); VDict (to_dict ne);
                               VDict (to_dict sw); VDict (to_dict se)])).
Proof.
  intros Hp Hsub. apply produced_shaped in Hp. destruct Hp as [Hs _].
  pose proof (shaped_subnode _ _ _ Hsub Hs) as Hm.
  rewrite to_dict_pixel_value, to_dict_children.
  destruct Hm; simpl; split; intros Hl; try discriminate.
  - split; [reflexivity | eauto].
  - split; [reflexivity | eauto 10].
Qed.

Lemma to_dict_fields_witness :
  (is_leaf (root tree_2x2) = true ->
     dict_get (to_dict (root tree_2x2)) "children" = None
     /\ exists pv,
          pixel_value (root tree_2x2) = Some pv
          /\ dict_get (to_dict (root tree_2x2)) "pixel_value"
             = Some (VList (map VInt pv)))
  /\ (is_leaf (root tree_2x2) = false ->
        dict_get (to_dict (root tree_2x2)) "pixel_value" = Some VNone
        /\ exists nw ne sw se,
             children (root tree_2x2) = Some [nw; ne; sw; se]
             /\ dict_get (to_dict (root tree_2x2)) "children"
                = Some (VList [VDict (to_dict nw); VDict (to_dict ne);
                               VDict (to_dict sw); VDict (to_dict se)])).
Proof.
  apply (to_dict_fields tree_2x2 (root tree_2x2)).
  - apply (produced_build raster_2x2 0). vm_compute. reflexivity.
  - apply subnode_refl.
Defined.

(** C8, counterexample.  The root of the tree of the four-colour raster is
    an internal node, and its dictionary contains the key pixel_value. *)
Lemma to_dict_internal_has_pixel_value :
  is_leaf (root tree_2x2) = false
  /\ dict_get (to_dict (root tree_2x2)) "pixel_value" = Some VNone.
Proof. split; reflexivity. Qed.

(** ** Rendering *)

Lemma QuadTreeNode_nested_ind (P : QuadTreeNode -> Prop) :
  (forall x y w h lf pv, P (mkNode x y w h lf pv None)) ->
  (forall x y w h lf pv l, Forall P l -> P (mkNode x y w h lf pv (Some l))) ->
  forall node, P node.
Proof.
  intros Hnone Hsome.
  fix IH 1. intros [x0 y0 w h lf pv [l|]]; [| apply Hnone].
  apply Hsome. induction l as [|c l IHl]; constructor; [apply IH | exact IHl].
Qed.

Lemma render_leaves_app (l1 l2 : list QuadTreeNode) (image : result ndarray) :
  render_leaves (l1 ++ l2) image = render_leaves l2 (render_leaves l1 image).
Proof.
  unfold render_leaves. apply fold_left_app.
Qed.

Lemma fold_left_Raise {A : Type} (f : A -> ndarray -> result ndarray)
    (l : list A) (e : exn) :
  fold_left (fun acc a => image' <- acc ;; f a image') l (Raise e) = Raise e.
Proof.
  induction l as [|a l IH]; [reflexivity | exact IH].
Qed.

Lemma _render_node_leaves (node : QuadTreeNode) :
  forall image : result ndarray,
    (image' <- image ;; _render_node node image')
    = render_leaves (leaves node) image.
Proof.
  induction node as [x0 y0 w h lf pv|x0 y0 w h lf pv l IH]
    using QuadTreeNode_nested_ind; intros image.
  - destruct lf; simpl.
    + reflexivity.
    + destruct image; reflexivity.
  - destruct lf; simpl.
    + reflexivity.
    + revert image. induction IH as [|c l Hc _ IHl]; intros image.
      * destruct image; reflexivity.
      * simpl. rewrite render_leaves_app, <- Hc, <- IHl.
        destruct image as [im|e]; simpl; [| reflexivity].
        destruct (_render_node c im); simpl; [reflexivity |].
        apply fold_left_Raise.
Qed.

(** Reading a slice written through [in_slice], for a region that starts at
    a non-negative coordinate. *)
Lemma in_slice_inside (n start len i : Z) :
  0 <= start -> 0 <= len -> 0 <= i < n ->
  in_slice n start (start + len) i = true <-> start <= i < start + len.
Proof.
  intros Hs Hl Hi. unfold in_slice, slice_bound.
  destruct (start <? 0) eqn:E1; [apply Z.ltb_lt in E1; lia |].
  destruct (start + len <? 0) eqn:E2; [apply Z.ltb_lt in E2; lia |].
  rewrite andb_true_iff, Z.leb_le, Z.ltb_lt. lia.
Qed.

Lemma zrange_length (lo hi : Z) :
  List.length (zrange lo hi) = Z.to_nat (hi - lo).
Proof.
  unfold zrange. rewrite length_map, length_seq. reflexivity.
Qed.

Lemma zrange_In (lo hi k : Z) :
  In k (zrange lo hi) <-> lo <= k < hi.
Proof.
  unfold zrange. rewrite in_map_iff. split.
  - intros (i & <- & Hi). apply in_seq in Hi. lia.
  - intros Hk. exists (Z.to_nat (k - lo)). split; [lia |].
    apply in_seq. lia.
Qed.

Lemma map_nth_seq (value : list Z) (f : Z -> Z) :
  (forall v, In v value -> f v = v) ->
  map (fun i => f (nth i value 0)) (seq 0 (List.length value)) = value.
Proof.
  induction value as [|v value IH]; intros Hf; [reflexivity |].
  simpl. rewrite Hf by (left; reflexivity). f_equal.
  rewrite <- seq_shift, map_map. simpl.
  apply IH. intros u Hu. apply Hf. right. exact Hu.
Qed.

Lemma map_nth_zrange (value : list Z) (f : Z -> Z) :
  (forall v, In v value -> f v = v) ->
  map (fun k => f (nth (Z.to_nat k) value 0))
      (zrange 0 (Z.of_nat (List.length value)))
  = value.
Proof.
  intros Hf. unfold zrange. rewrite map_map, Z.sub_0_r, Nat2Z.id.
  rewrite <- (map_nth_seq value f Hf) at 2.
  apply map_ext. intros i. rewrite Z.add_0_l, Nat2Z.id. reflexivity.
Qed.

Lemma uint8_byte (v : Z) : byte v -> uint8 v = v.
Proof.
  unfold byte, uint8. intros. apply Z.mod_small. lia.
Qed.

Lemma colour_fits_frame (a b : ndarray) (pv : list Z) :
  same_frame a b -> colour_fits a pv -> colour_fits b pv.
Proof.
  destruct a, b; simpl; try tauto. intros (-> & -> & ->). tauto.
Qed.

Lemma same_frame_shape (a b : ndarray) : same_frame a b -> shape b = shape a.
Proof.
  destruct a, b; simpl; try tauto.
  - intros (-> & ->). reflexivity.
  - intros (-> & -> & ->). reflexivity.
Qed.

(** One leaf write: the pixels of the leaf's region take the leaf's colour,
    every other pixel keeps its value. *)
Lemma render_leaf_pixels (leaf : QuadTreeNode) (canvas : ndarray) (pv : list Z) :
  pixel_value leaf = Some pv ->
  colour_fits canvas pv ->
  0 <= x leaf -> 0 <= y leaf -> 0 <= width leaf -> 0 <= height leaf ->
  exists out,
    render_leaf leaf canvas = Ok out
    /\ same_frame canvas out
    /\ forall r c, 0 <= r < rows canvas -> 0 <= c < cols canvas ->
         (inside (region_of leaf) r c -> pixel_list out r c = Ok pv)
         /\ (~ inside (region_of leaf) r c ->
             pixel_list out r c = pixel_list canvas r c).
Proof.
  intros Hpv Hfit Hx Hy Hw Hh.
  destruct canvas as [H W px|H W C px]; simpl in Hfit |- *.
  - destruct Hfit as (v & -> & Hv).
    unfold render_leaf. rewrite Hpv. eexists. split; [reflexivity |].
    split; [simpl; auto |].
    intros r c Hr Hc. unfold fill_gray, pixel_list, axis_index.
    assert (Er : (0 <=? r) && (r <? H) = true)
      by (rewrite andb_true_iff, Z.leb_le, Z.ltb_lt; lia).
    assert (Ec : (0 <=? c) && (c <? W) = true)
      by (rewrite andb_true_iff, Z.leb_le, Z.ltb_lt; lia).
    rewrite Er, Ec. cbn [bind].
    pose proof (in_slice_inside H (y leaf) (height leaf) r Hy Hh Hr) as Sr.
    pose proof (in_slice_inside W (x leaf) (width leaf) c Hx Hw Hc) as Sc.
    unfold inside, region_of; simpl.
    destruct (in_slice H (y leaf) (y leaf + height leaf) r);
      destruct (in_slice W (x leaf) (x leaf + width leaf) c); simpl;
      split; intros Hi; try reflexivity;
      try (rewrite uint8_byte by assumption; reflexivity);
      exfalso; intuition (try discriminate; lia).
  - destruct Hfit as (Hlen & HC & Hbytes).
    unfold render_leaf, fill_color. rewrite Hpv.
    assert (Hne : pixel_or_black (Some pv) = pv).
    { destruct pv; [simpl in Hlen; lia | reflexivity]. }
    rewrite Hne.
    assert (E : (Z.of_nat (List.length pv) =? C) = true) by (apply Z.eqb_eq; exact Hlen).
    rewrite E. simpl orb. cbv iota.
    eexists. split; [reflexivity |]. split; [simpl; auto |].
    intros r c Hr Hc. unfold pixel_list, axis_index. simpl in Hr, Hc.
    assert (Er : (0 <=? r) && (r <? H) = true)
      by (rewrite andb_true_iff, Z.leb_le, Z.ltb_lt; lia).
    assert (Ec : (0 <=? c) && (c <? W) = true)
      by (rewrite andb_true_iff, Z.leb_le, Z.ltb_lt; lia).
    rewrite Er, Ec. cbn [bind]. unfold channels.
    pose proof (in_slice_inside H (y leaf) (height leaf) r Hy Hh Hr) as Sr.
    pose proof (in_slice_inside W (x leaf) (width leaf) c Hx Hw Hc) as Sc.
    unfold inside, region_of; simpl.
    destruct (in_slice H (y leaf) (y leaf + height leaf) r);
      destruct (in_slice W (x leaf) (x leaf + width leaf) c); simpl;
      split; intros Hi; try reflexivity;
      try (exfalso; intuition (try discriminate; lia)).
    f_equal. subst C.
    destruct pv as [|v [|v' pv']].
    + reflexivity.
    + simpl. rewrite uint8_byte; [reflexivity |].
      inversion Hbytes; assumption.
    + apply (map_nth_zrange (v :: v' :: pv') uint8).
      intros u Hu. apply uint8_byte.
      rewrite Forall_forall in Hbytes. apply Hbytes. exact Hu.
Qed.

Lemma ForallOrdPairs_app {A : Type} (R : A -> A -> Prop) (l1 l2 : list A) :
  ForallOrdPairs R l1 -> ForallOrdPairs R l2 ->
  (forall a b, In a l1 -> In b l2 -> R a b) ->
  ForallOrdPairs R (l1 ++ l2).
Proof.
  intros H1 H2 Hx. induction H1 as [|a l1 Ha H1 IH]; [exact H2 |].
  simpl. constructor.
  - apply Forall_app. split; [exact Ha |].
    apply Forall_forall. intros b Hb. apply Hx; [left; reflexivity | exact Hb].
  - apply IH. intros a' b Ha' Hb. apply Hx; [right; exact Ha' | exact Hb].
Qed.

Lemma leaves_internal (x0 y0 w h : Z) (pv : option (list Z))
    (nw ne sw se : QuadTreeNode) :
  leaves (mkNode x0 y0 w h false pv (Some [nw; ne; sw; se]))
  = leaves nw ++ leaves ne ++ leaves sw ++ leaves se.
Proof.
  simpl. rewrite app_nil_r. reflexivity.
Qed.

Lemma leaves_inside (node leaf : QuadTreeNode) :
  shaped tiles node -> In leaf (leaves node) ->
  forall r c, inside (region_of leaf) r c -> inside (region_of node) r c.
Proof.
  intros Hs. revert leaf.
  induction Hs as [x0 y0 w h pv
                  |x0 y0 w h nw ne sw se Hr Hnw IHnw Hne IHne Hsw IHsw Hse IHse];
    intros leaf Hin r c Hi.
  - simpl in Hin. destruct Hin as [<-|[]]. exact Hi.
  - rewrite leaves_internal in Hin.
    apply tiles_four_inv in Hr. destruct Hr as [_ Hcov].
    apply Hcov. unfold region_of at 1; simpl.
    repeat (apply in_app_or in Hin; destruct Hin as [Hin|Hin]); eauto 6.
Qed.

Lemma leaves_disjoint (node : QuadTreeNode) :
  shaped tiles node -> ForallOrdPairs disjoint (map region_of (leaves node)).
Proof.
  induction 1 as [x0 y0 w h pv
                 |x0 y0 w h nw ne sw se Hr Hnw IHnw Hne IHne Hsw IHsw Hse IHse].
  - simpl. repeat constructor.
  - rewrite leaves_internal, !map_app.
    apply tiles_four_inv in Hr.
    destruct Hr as ((Hab & Hac & Had & Hbc & Hbd & Hcd) & _).
    assert (Hcross : forall n1 n2, shaped tiles n1 -> shaped tiles n2 ->
              disjoint (region_of n1) (region_of n2) ->
              forall a b, In a (map region_of (leaves n1)) ->
                          In b (map region_of (leaves n2)) -> disjoint a b).
    { intros n1 n2 S1 S2 Hd a b Ha Hb r c [Hia Hib].
      apply in_map_iff in Ha, Hb.
      destruct Ha as (la & <- & Hla), Hb as (lb & <- & Hlb).
      apply (Hd r c). split; eapply leaves_inside; eauto. }
    apply ForallOrdPairs_app; [exact IHnw | |].
    + apply ForallOrdPairs_app; [exact IHne | |].
      * apply ForallOrdPairs_app; [exact IHsw | exact IHse |].
        intros a b Ha Hb. exact (Hcross sw se Hsw Hse Hcd a b Ha Hb).
      * intros a b Ha Hb. apply in_app_or in Hb. destruct Hb as [Hb|Hb].
        -- exact (Hcross ne sw Hne Hsw Hbc a b Ha Hb).
        -- exact (Hcross ne se Hne Hse Hbd a b Ha Hb).
    + intros a b Ha Hb.
      apply in_app_or in Hb. destruct Hb as [Hb|Hb];
        [| apply in_app_or in Hb; destruct Hb as [Hb|Hb]].
      * exact (Hcross nw ne Hnw Hne Hab a b Ha Hb).
      * exact (Hcross nw sw Hnw Hsw Hac a b Ha Hb).
      * exact (Hcross nw se Hnw Hse Had a b Ha Hb).
Qed.

Lemma same_frame_rows_cols (a b : ndarray) :
  same_frame a b -> rows b = rows a /\ cols b = cols a.
Proof.
  destruct a, b; simpl; try tauto.
  - intros (-> & ->). auto.
  - intros (-> & -> & ->). auto.
Qed.

Lemma same_frame_trans (a b c : ndarray) :
  same_frame a b -> same_frame b c -> same_frame a c.
Proof.
  destruct a, b, c; simpl; try tauto.
  - intros (-> & ->). tauto.
  - intros (-> & -> & ->). tauto.
Qed.

Lemma leaf_ok_frame (a b : ndarray) (leaf : QuadTreeNode) :
  same_frame a b -> leaf_ok a leaf -> leaf_ok b leaf.
Proof.
  intros Hf ((pv & Hpv & Hfit) & Hpos). split; [| exact Hpos].
  exists pv. split; [exact Hpv |]. eapply colour_fits_frame; eauto.
Qed.

(** Writing leaves with pairwise disjoint regions: every pixel of a leaf's
    region ends with that leaf's colour, every pixel outside all of them
    keeps its value. *)
Lemma render_leaves_disjoint (ls : list QuadTreeNode) :
  forall canvas,
    Forall (leaf_ok canvas) ls ->
    ForallOrdPairs disjoint (map region_of ls) ->
    exists out,
      render_leaves ls (Ok canvas) = Ok out
      /\ same_frame canvas out
      /\ forall r c, 0 <= r < rows canvas -> 0 <= c < cols canvas ->
           (forall leaf pv, In leaf ls -> pixel_value leaf = Some pv ->
                            inside (region_of leaf) r c ->
                            pixel_list out r c = Ok pv)
           /\ ((forall leaf, In leaf ls -> ~ inside (region_of leaf) r c) ->
               pixel_list out r c = pixel_list canvas r c).
Proof.
  induction ls as [|l ls IH]; intros canvas Hok Hdis.
  - exists canvas. split; [reflexivity |]. split.
    + destruct canvas; simpl; auto.
    + intros r c _ _. split; [intros leaf pv [] | reflexivity].
  - inversion Hok as [|? ? Hl Hls]; subst.
    simpl in Hdis. inversion Hdis as [|? ? Hlall Hdis']; subst.
    destruct Hl as ((pv & Hpv & Hfit) & Hx & Hy & Hw & Hh).
    destruct (render_leaf_pixels l canvas pv Hpv Hfit Hx Hy Hw Hh)
      as (c1 & Hc1 & Hf1 & Hp1).
    destruct (IH c1) as (out & Hout & Hf2 & Hp2); [| exact Hdis' |].
    { eapply Forall_impl; [| exact Hls]. intros a. apply leaf_ok_frame. exact Hf1. }
    exists out. split; [simpl; rewrite Hc1; exact Hout |].
    split; [eapply same_frame_trans; eauto |].
    intros r c Hr Hc.
    destruct (same_frame_rows_cols _ _ Hf1) as [Er Ec].
    assert (Hr' : 0 <= r < rows c1) by (rewrite Er; exact Hr).
    assert (Hc' : 0 <= c < cols c1) by (rewrite Ec; exact Hc).
    destruct (Hp1 r c Hr Hc) as [Hin1 Hout1].
    destruct (Hp2 r c Hr' Hc') as [Hin2 Hout2].
    split.
    + intros leaf pv' [<-|Hin] Hpv' Hi.
      * rewrite Hpv in Hpv'. injection Hpv' as <-.
        rewrite Hout2; [apply Hin1; exact Hi |].
        intros leaf' Hin' Hi'.
        rewrite Forall_forall in Hlall.
        apply (Hlall (region_of leaf') (in_map region_of _ _ Hin') r c).
        split; assumption.
      * eapply Hin2; eauto.
    + intros Hnone. rewrite Hout2.
      * apply Hout1. apply Hnone. left. reflexivity.
      * intros leaf Hin. apply Hnone. right. exact Hin.
Qed.

(** ** Colours of built trees *)

Lemma byte_raster_dims (image : ndarray) :
  byte_raster image -> 0 <= rows image /\ 0 <= cols image.
Proof.
  destruct image; simpl; tauto.
Qed.

Lemma axis_index_range (n i r : Z) :
  axis_index n i = Ok r -> 0 <= r < n.
Proof.
  unfold axis_index.
  destruct ((0 <=? i) && (i <? n)) eqn:E1.
  - intros [= <-]. apply andb_true_iff in E1. lia.
  - destruct ((- n <=? i) && (i <? 0)) eqn:E2; [| discriminate].
    intros [= <-]. apply andb_true_iff in E2. lia.
Qed.

Lemma pixel_list_fits (image : ndarray) (y x : Z) (pv : list Z) :
  byte_raster image -> pixel_list image y x = Ok pv -> colour_fits image pv.
Proof.
  destruct image as [H W px|H W C px]; simpl; intros Hb Hp.
  - destruct Hb as (_ & _ & Hb).
    inv_bind Hp. inv_bind Hp. injection Hp as <-.
    apply axis_index_range in Hv, Hv0. eauto.
  - destruct Hb as (_ & _ & HC & Hb).
    inv_bind Hp. inv_bind Hp. injection Hp as <-.
    apply axis_index_range in Hv, Hv0. unfold channels.
    rewrite length_map, zrange_length. repeat split; try lia.
    apply Forall_forall. intros u Hu. apply in_map_iff in Hu.
    destruct Hu as (k & <- & Hk). apply zrange_In in Hk. auto.
Qed.

Lemma slice_bound_range (n v : Z) : 0 <= n -> 0 <= slice_bound n v <= n.
Proof.
  intros Hn. unfold slice_bound. destruct (v <? 0) eqn:E.
  - apply Z.ltb_lt in E. lia.
  - apply Z.ltb_ge in E. lia.
Qed.

Lemma slice_indices_range (n start stop i : Z) :
  0 <= n -> In i (slice_indices n start stop) -> 0 <= i < n.
Proof.
  intros Hn Hi. unfold slice_indices in Hi. apply zrange_In in Hi.
  pose proof (slice_bound_range n start Hn).
  pose proof (slice_bound_range n stop Hn). lia.
Qed.

Lemma zsum_bounds (l : list Z) (b : Z) :
  Forall (fun v => 0 <= v <= b) l ->
  0 <= zsum l <= b * Z.of_nat (List.length l).
Proof.
  induction 1 as [|v l Hv _ IH]; simpl; [lia |].
  rewrite Zpos_P_of_succ_nat. lia.
Qed.

Lemma region_sum_bounds (f : Z -> Z -> Z) (rs cs : list Z) :
  (forall r c, In r rs -> In c cs -> byte (f r c)) ->
  0 <= region_sum f rs cs <= 255 * region_count rs cs.
Proof.
  intros Hf. unfold region_sum, region_count.
  assert (Hrow : Forall (fun v => 0 <= v <= 255 * Z.of_nat (List.length cs))
                        (map (fun r => zsum (map (f r) cs)) rs)).
  { apply Forall_forall. intros v Hv. apply in_map_iff in Hv.
    destruct Hv as (r & <- & Hr).
    rewrite <- (length_map (f r) cs). apply zsum_bounds.
    apply Forall_forall. intros u Hu. apply in_map_iff in Hu.
    destruct Hu as (c & <- & Hc). apply Hf; assumption. }
  apply zsum_bounds in Hrow. rewrite length_map in Hrow. lia.
Qed.

Lemma int_mean_byte (total count v : Z) :
  0 <= count -> 0 <= total <= 255 * count ->
  int_mean total count = Ok v -> byte v.
Proof.
  unfold int_mean, byte. intros Hc Ht.
  destruct (count =? 0) eqn:E; [discriminate |].
  apply Z.eqb_neq in E. intros [= <-].
  rewrite Z.quot_div_nonneg by lia. split.
  - apply Z.div_pos; lia.
  - apply Z.div_le_upper_bound; lia.
Qed.

Lemma mapM_Ok {A B : Type} (f : A -> result B) (l : list A) (bs : list B) :
  mapM f l = Ok bs -> Forall2 (fun a b => f a = Ok b) l bs.
Proof.
  revert bs. induction l as [|a l IH]; simpl; intros bs H.
  - injection H as <-. constructor.
  - inv_bind H. inv_bind H. injection H as <-. constructor; auto.
Qed.

Lemma Forall2_In_right {A B : Type} (R : A -> B -> Prop) (l : list A)
    (bs : list B) (b : B) :
  Forall2 R l bs -> In b bs -> exists a, In a l /\ R a b.
Proof.
  induction 1 as [|a b' l bs Hab _ IH]; intros Hb; [destruct Hb |].
  destruct Hb as [<-|Hb].
  - exists a. split; [left; reflexivity | exact Hab].
  - destruct (IH Hb) as (a' & Ha' & Hr). exists a'. split; [right |]; assumption.
Qed.

Lemma region_count_nonneg (rs cs : list Z) : 0 <= region_count rs cs.
Proof.
  unfold region_count. lia.
Qed.

Section BuildColours.

Context {np_std : NumpyStd}.

Lemma _get_average_color_fits (image : ndarray) (x y width height : Z)
    (pv : list Z) :
  byte_raster image ->
  _get_average_color image x y width height = Ok pv -> colour_fits image pv.
Proof.
  destruct image as [H W px|H W C px]; simpl; intros Hb Hp.
  - destruct Hb as (HH & HW & Hb).
    inv_bind Hp. injection Hp as <-. exists v. split; [reflexivity |].
    eapply int_mean_byte; [apply region_count_nonneg | | exact Hv].
    apply region_sum_bounds. intros r c Hr Hc.
    apply slice_indices_range in Hr, Hc; auto.
  - destruct Hb as (HH & HW & HC & Hb).
    apply mapM_Ok in Hp.
    pose proof (Forall2_length Hp) as Hlen. rewrite zrange_length in Hlen.
    repeat split; try lia.
    apply Forall_forall. intros u Hu.
    destruct (Forall2_In_right _ _ _ _ Hp Hu) as (k & Hk & Hku). cbv beta in Hku.
    apply zrange_In in Hk.
    eapply int_mean_byte; [apply region_count_nonneg | | exact Hku].
    apply region_sum_bounds. intros r c Hr Hc.
    apply slice_indices_range in Hr, Hc; auto.
Qed.

Lemma _build_tree_colours (threshold : Z) (image : ndarray)
    (x y width height : Z) (node : QuadTreeNode) :
  byte_raster image ->
  _build_tree threshold image x y width height = Ok node ->
  Forall (fun leaf => exists pv, pixel_value leaf = Some pv
                                 /\ colour_fits image pv)
         (leaves node).
Proof.
  intros Hbytes.
  remember (Z.to_nat width) as k eqn:Hk.
  revert x y width height node Hk.
  induction k as [k IH] using lt_wf_ind.
  intros x0 y0 w h node Hk Hb.
  rewrite _build_tree_eq in Hb.
  destruct ((w <=? 1) || (h <=? 1)) eqn:Hsmall.
  - inv_bind Hb. injection Hb as <-. simpl. constructor; [| constructor].
    exists v. split; [reflexivity |]. eapply pixel_list_fits; eauto.
  - destruct (_is_homogeneous threshold image x0 y0 w h).
    + inv_bind Hb. injection Hb as <-. simpl. constructor; [| constructor].
      exists v. split; [reflexivity |]. eapply _get_average_color_fits; eauto.
    + cbv zeta in Hb.
      apply orb_false_elim in Hsmall. destruct Hsmall as [Hw Hh].
      apply Z.leb_gt in Hw, Hh.
      inv_bind Hb. inv_bind Hb. inv_bind Hb. inv_bind Hb.
      injection Hb as <-.
      assert (Hlo : (Z.to_nat (w / 2) < k)%nat) by (subst k; apply Z2Nat.inj_lt; zdiv).
      assert (Hhi : (Z.to_nat (w - w / 2) < k)%nat) by (subst k; apply Z2Nat.inj_lt; zdiv).
      rewrite leaves_internal. repeat (apply Forall_app; split).
      * exact (IH _ Hlo _ _ _ _ _ eq_refl Hv).
      * exact (IH _ Hhi _ _ _ _ _ eq_refl Hv0).
      * exact (IH _ Hlo _ _ _ _ _ eq_refl Hv1).
      * exact (IH _ Hhi _ _ _ _ _ eq_refl Hv2).
Qed.

End BuildColours.

Lemma floor_leaves_positive (node : QuadTreeNode) :
  shaped floor_rule node ->
  0 <= x node -> 0 <= y node -> 0 < width node -> 0 < height node ->
  Forall (fun leaf => 0 <= x leaf /\ 0 <= y leaf
                      /\ 0 < width leaf /\ 0 < height leaf)
         (leaves node).
Proof.
  induction 1 as [x0 y0 w h pv
                 |x0 y0 w h nw ne sw se Hr Hnw IHnw Hne IHne Hsw IHsw Hse IHse];
    simpl x; simpl y; simpl width; simpl height; intros Hx Hy Hw Hh.
  - simpl. constructor; [simpl; lia | constructor].
  - rewrite leaves_internal.
    destruct Hr as (Hw1 & Hh1 & Hq). simpl in Hw1, Hh1.
    unfold quadrants, region_of in Hq. simpl in Hq.
    injection Hq; intros.
    repeat (apply Forall_app; split);
      [apply IHnw | apply IHne | apply IHsw | apply IHse]; zdiv.
Qed.

Lemma zeros_shape (dims : list Z) (canvas : ndarray) :
  zeros dims = Ok canvas ->
  shape canvas = dims
  /\ forall r c, 0 <= r < rows canvas -> 0 <= c < cols canvas ->
       exists black, pixel_list canvas r c = Ok black
                     /\ Forall (fun v => v = 0) black.
Proof.
  unfold zeros.
  destruct dims as [|h [|w [|c [|? ?]]]]; try discriminate.
  - destruct ((h <? 0) || (w <? 0)); [discriminate |].
    intros [= <-]. split; [reflexivity |]. simpl. intros r k Hr Hk.
    unfold axis_index.
    assert (Er : (0 <=? r) && (r <? h) = true)
      by (rewrite andb_true_iff, Z.leb_le, Z.ltb_lt; lia).
    assert (Ek : (0 <=? k) && (k <? w) = true)
      by (rewrite andb_true_iff, Z.leb_le, Z.ltb_lt; lia).
    rewrite Er, Ek. simpl. eexists. split; [reflexivity |]. repeat constructor.
  - destruct ((h <? 0) || (w <? 0) || (c <? 0)); [discriminate |].
    intros [= <-]. split; [reflexivity |]. simpl. intros r k Hr Hk.
    unfold axis_index.
    assert (Er : (0 <=? r) && (r <? h) = true)
      by (rewrite andb_true_iff, Z.leb_le, Z.ltb_lt; lia).
    assert (Ek : (0 <=? k) && (k <? w) = true)
      by (rewrite andb_true_iff, Z.leb_le, Z.ltb_lt; lia).
    rewrite Er, Ek. simpl. eexists. split; [reflexivity |].
    unfold channels. apply Forall_forall. intros v Hv.
    apply in_map_iff in Hv. destruct Hv as (? & <- & _). reflexivity.
Qed.

Lemma zeros_byte_raster (image : ndarray) :
  byte_raster image ->
  exists canvas, zeros (shape image) = Ok canvas /\ same_frame image canvas.
Proof.
  destruct image as [H W px|H W C px]; simpl.
  - intros (HH & HW & _).
    assert (E : (H <? 0) || (W <? 0) = false)
      by (rewrite orb_false_iff, !Z.ltb_ge; lia).
    rewrite E. eexists. split; [reflexivity |]. simpl. auto.
  - intros (HH & HW & HC & _).
    assert (E : (H <? 0) || (W <? 0) || (C <? 0) = false)
      by (rewrite !orb_false_iff, !Z.ltb_ge; lia).
    rewrite E. eexists. split; [reflexivity |]. simpl. auto.
Qed.

Lemma to_image_leaves (t : QuadTree) :
  to_image t
  = (canvas <- zeros (original_shape t) ;;
     render_leaves (leaves (root t)) (Ok canvas)).
Proof.
  unfold to_image. destruct (zeros (original_shape t)) as [canvas|e]; simpl.
  - apply (_render_node_leaves (root t) (Ok canvas)).
  - reflexivity.
Qed.

Section RenderBuilt.

Context {np_std : NumpyStd}.

Lemma QuadTree_init_positive (image : ndarray) (thr : Z) (t : QuadTree) :
  QuadTree_init image thr = Ok t -> 0 < rows image /\ 0 < cols image.
Proof.
  intros H. apply QuadTree_init_Ok in H. destruct H as (Hb & _).
  rewrite _build_tree_eq in Hb.
  destruct ((cols image <=? 1) || (rows image <=? 1)) eqn:Hsmall.
  - inv_bind Hb. clear Hb.
    destruct image as [H W px|H W C px]; simpl in *;
      inv_bind Hv; inv_bind Hv; apply axis_index_range in Hv0, Hv1; lia.
  - apply orb_false_elim in Hsmall. destruct Hsmall as [Hw Hh].
    apply Z.leb_gt in Hw, Hh. lia.
Qed.

Lemma to_image_built (image : ndarray) (thr : Z) (t : QuadTree) :
  byte_raster image ->
  QuadTree_init image thr = Ok t ->
  exists out,
    to_image t = Ok out
    /\ shape out = shape image
    /\ forall leaf pv r c,
         In leaf (leaves (root t)) -> pixel_value leaf = Some pv ->
         inside (region_of leaf) r c -> pixel_list out r c = Ok pv.
Proof.
  intros Hbytes Hinit.
  destruct (QuadTree_init_positive _ _ _ Hinit) as [Hrows Hcols].
  destruct (QuadTree_init_shaped _ _ _ Hinit) as (Hs & Hreg & _).
  destruct (QuadTree_init_Ok _ _ _ Hinit) as (Hb & Hshape & _).
  destruct (zeros_byte_raster image Hbytes) as (canvas & Hz & Hframe).
  assert (Htiles : shaped tiles (root t))
    by (eapply shaped_mono; [exact floor_rule_tiles | exact Hs]).
  assert (Hpos : Forall (fun leaf => 0 <= x leaf /\ 0 <= y leaf
                                     /\ 0 < width leaf /\ 0 < height leaf)
                        (leaves (root t))).
  { apply floor_leaves_positive; [exact Hs | | | |];
      injection Hreg; intros; lia. }
  pose proof (_build_tree_colours _ _ _ _ _ _ _ Hbytes Hb) as Hcol.
  assert (Hok : Forall (leaf_ok canvas) (leaves (root t))).
  { rewrite Forall_forall in Hpos, Hcol |- *. intros leaf Hin.
    destruct (Hcol leaf Hin) as (pv & Hpv & Hfit).
    specialize (Hpos leaf Hin). split; [| lia].
    exists pv. split; [exact Hpv |]. eapply colour_fits_frame; eauto. }
  destruct (render_leaves_disjoint _ canvas Hok (leaves_disjoint _ Htiles))
    as (out & Hout & Hframe' & Hpix).
  exists out. split; [| split].
  - rewrite to_image_leaves, Hshape, Hz. exact Hout.
  - apply same_frame_shape. eapply same_frame_trans; eauto.
  - intros leaf pv r c Hin Hpv Hi.
    pose proof (leaves_inside _ _ Htiles Hin r c Hi) as Hroot.
    rewrite Hreg in Hroot. unfold inside in Hroot. simpl in Hroot.
    destruct (same_frame_rows_cols _ _ Hframe) as [Er Ec].
    destruct (Hpix r c) as [Hin' _]; [lia | lia |].
    eapply Hin'; eauto.
Qed.

End RenderBuilt.

(** C3. [to_image] allocates a zero-filled raster of the source shape and
    writes the leaves of the tree into it one after the other, internal
    nodes writing nothing; a leaf write sets the pixels with row in
    [y, y+height) and column in [x, x+width) to the leaf's colour, broadcast
    over the channels, and leaves every other pixel as it was.  For a tree
    built from a raster of bytes, every pixel inside a leaf's region equals
    that leaf's stored colour in the rendered raster. *)
Theorem to_image_paints_leaves :
  (forall t : QuadTree,
      to_image t
      = (canvas <- zeros (original_shape t) ;;
         render_leaves (leaves (root t)) (Ok canvas)))
  /\ (forall dims canvas,
        zeros dims = Ok canvas ->
        shape canvas = dims
        /\ forall r c, 0 <= r < rows canvas -> 0 <= c < cols canvas ->
             exists black, pixel_list canvas r c = Ok black
                           /\ Forall (fun v => v = 0) black)
  /\ (forall leaf canvas pv,
        pixel_value leaf = Some pv -> colour_fits canvas pv ->
        0 <= x leaf -> 0 <= y leaf -> 0 <= width leaf -> 0 <= height leaf ->
        exists out,
          render_leaf leaf canvas = Ok out
          /\ same_frame canvas out
          /\ forall r c, 0 <= r < rows canvas -> 0 <= c < cols canvas ->
               (inside (region_of leaf) r c -> pixel_list out r c = Ok pv)
               /\ (~ inside (region_of leaf) r c ->
                   pixel_list out r c = pixel_list canvas r c))
  /\ (forall (np_std : NumpyStd) image thr t,
        byte_raster image ->
        QuadTree_init image thr = Ok t ->
        exists out,
          to_image t = Ok out
          /\ shape out = shape image
          /\ forall leaf pv r c,
               In leaf (leaves (root t)) -> pixel_value leaf = Some pv ->
               inside (region_of leaf) r c -> pixel_list out r c = Ok pv).
Proof.
  split; [exact to_image_leaves |].
  split; [exact zeros_shape |].
  split; [exact render_leaf_pixels |].
  intros np_std. exact to_image_built.
Qed.

Lemma to_image_paints_leaves_witness :
  exists out,
    to_image tree_3x2 = Ok out
    /\ shape out = shape raster_3x2
    /\ forall leaf pv r c,
         In leaf (leaves (root tree_3x2)) -> pixel_value leaf = Some pv ->
         inside (region_of leaf) r c -> pixel_list out r c = Ok pv.
Proof.
  apply (proj2 (proj2 (proj2 to_image_paints_leaves)) exact_std raster_3x2 0 tree_3x2).
  - unfold raster_3x2, byte_raster, byte. repeat split; lia.
  - vm_compute. reflexivity.
Defined.

(** ** Forced leaves *)

(** C9. When [_build_tree] reaches a region with width <= 1 or height <= 1,
    the leaf it returns carries the colour of the single pixel at the
    region's corner (x, y), whatever the other pixels of the region are; and
    rendering that leaf paints every pixel of the region with that colour. *)
Theorem forced_leaf_corner_pixel {np_std : NumpyStd} (thr : Z)
    (image canvas : ndarray) (x y width height : Z) (pv : list Z) :
  width <= 1 \/ height <= 1 ->
  pixel_list image y x = Ok pv ->
  _build_tree thr image x y width height
  = Ok (mkNode x y width height true (Some pv) None)
  /\ (forall image',
        pixel_list image' y x = Ok pv ->
        _build_tree thr image' x y width height
        = Ok (mkNode x y width height true (Some pv) None))
  /\ (byte_raster image -> same_frame image canvas ->
      0 <= x -> 0 <= y -> 0 <= width -> 0 <= height ->
      exists out,
        _render_node (mkNode x y width height true (Some pv) None) canvas
        = Ok out
        /\ forall r c, 0 <= r < rows canvas -> 0 <= c < cols canvas ->
             inside (mkRegion x y width height) r c ->
             pixel_list out r c = Ok pv).
Proof.
  intros Hstrip Hpix.
  assert (Hsmall : (width <=? 1) || (height <=? 1) = true).
  { apply orb_true_iff. rewrite !Z.leb_le. exact Hstrip. }
  assert (Hany : forall image', pixel_list image' y x = Ok pv ->
            _build_tree thr image' x y width height
            = Ok (mkNode x y width height true (Some pv) None)).
  { intros image' Hp. rewrite _build_tree_eq, Hsmall, Hp. reflexivity. }
  split; [apply Hany; exact Hpix |]. split; [exact Hany |].
  intros Hbytes Hframe Hx Hy Hw Hh.
  pose proof (pixel_list_fits _ _ _ _ Hbytes Hpix) as Hfit.
  destruct (render_leaf_pixels (mkNode x y width height true (Some pv) None)
                               canvas pv eq_refl
                               (colour_fits_frame _ _ _ Hframe Hfit)
                               Hx Hy Hw Hh)
    as (out & Hout & _ & Hp).
  exists out. split; [exact Hout |].
  intros r c Hr Hc Hi. apply (Hp r c Hr Hc). exact Hi.
Qed.

Lemma forced_leaf_corner_pixel_witness :
  _build_tree 0 raster_strip 0 0 4 1
  = Ok (mkNode 0 0 4 1 true (Some [10; 10; 10]) None)
  /\ (forall image',
        pixel_list image' 0 0 = Ok [10; 10; 10] ->
        _build_tree 0 image' 0 0 4 1
        = Ok (mkNode 0 0 4 1 true (Some [10; 10; 10]) None))
  /\ (byte_raster raster_strip ->
      same_frame raster_strip (Gray 1 4 (fun _ _ => 0)) ->
      0 <= 0 -> 0 <= 0 -> 0 <= 4 -> 0 <= 1 ->
      exists out,
        _render_node (mkNode 0 0 4 1 true (Some [10; 10; 10]) None)
                     (Gray 1 4 (fun _ _ => 0))
        = Ok out
        /\ forall r c, 0 <= r < rows (Gray 1 4 (fun _ _ => 0)) ->
                       0 <= c < cols (Gray 1 4 (fun _ _ => 0)) ->
             inside (mkRegion 0 0 4 1) r c ->
             pixel_list out r c = Ok [10; 10; 10]).
Proof.
  apply (forced_leaf_corner_pixel 0 raster_strip (Gray 1 4 (fun _ _ => 0))
                                  0 0 4 1 [10; 10; 10]).
  - right. lia.
  - reflexivity.
Defined.

(** The strip above is one leaf of colour 10, and its rendering is 10 in
    each of the four pixels, 60, 110 and 160 being lost. *)
Example strip_rendering :
  exists t out,
    QuadTree_init raster_strip 0 = Ok t
    /\ to_image t = Ok out
    /\ map (pixel_list out 0) [0; 1; 2; 3]
       = [Ok [10; 10; 10]; Ok [10; 10; 10]; Ok [10; 10; 10]; Ok [10; 10; 10]]
    /\ map (pixel_list raster_strip 0) [0; 1; 2; 3]
       = [Ok [10; 10; 10]; Ok [60; 60; 60]; Ok [110; 110; 110];
          Ok [160; 160; 160]].
Proof.
  do 2 eexists. split; [reflexivity |]. split; [reflexivity |].
  split; reflexivity.
Qed.

(** ** Binary64 arithmetic

    Bounds on the results of the float operations of the blend formula,
    from the specification [SpecFloat] that the primitive floats obey
    ([FloatAxioms]): rounding to nearest never exceeds a representable
    upper bound of the exact value. *)

Lemma digits2_pos_bounds (m : positive) :
  2 ^ (Zpos (digits2_pos m) - 1) <= Zpos m < 2 ^ Zpos (digits2_pos m).
Proof.
  induction m as [m IH|m IH|]; simpl digits2_pos.
  - rewrite Pos2Z.inj_succ.
    replace (Z.succ (Zpos (digits2_pos m)) - 1) with (Z.succ (Zpos (digits2_pos m) - 1)) by lia.
    rewrite !Z.pow_succ_r by lia. lia.
  - rewrite Pos2Z.inj_succ.
    replace (Z.succ (Zpos (digits2_pos m)) - 1) with (Z.succ (Zpos (digits2_pos m) - 1)) by lia.
    rewrite !Z.pow_succ_r by lia. lia.
  - simpl. lia.
Qed.

Lemma shr_1_shifted (m0 k : Z) (mrs : shr_record) :
  0 <= m0 -> shifted m0 k mrs -> shifted m0 (k + 1) (shr_1 mrs).
Proof.
  intros Hm0 (Hk & Hm & Hrs).
  assert (Hp : 0 < 2 ^ k) by (apply Z.pow_pos_nonneg; lia).
  assert (Hq : m0 / 2 ^ (k + 1) = m0 / 2 ^ k / 2).
  { rewrite Z.pow_add_r, Z.pow_1_r by lia. rewrite Z.div_div by lia. reflexivity. }
  assert (Hpk : 2 ^ (k + 1) = 2 ^ k * 2) by (rewrite Z.pow_add_r by lia; reflexivity).
  assert (Hge : 0 <= m0 / 2 ^ k) by (apply Z.div_pos; lia).
  assert (Hle : m0 / 2 ^ k * 2 ^ k <= m0) by (rewrite Z.mul_comm; apply Z.mul_div_le; lia).
  destruct mrs as [m r s]. simpl in Hm, Hrs.
  unfold shifted. rewrite Hq, Hpk, <- Hm in *.
  split; [lia |].
  assert (Hhalf : m / 2 * 2 <= m) by (Z.div_mod_to_equations; lia).
  assert (Hstick : r = true \/ s = true -> m / 2 * (2 ^ k * 2) < m0).
  { intros H. specialize (Hrs H). nia. }
  assert (Hodd : Z.odd m = true -> m / 2 * (2 ^ k * 2) < m0).
  { intros H. rewrite Zodd_mod in H. apply Z.eqb_eq in H.
    assert (m / 2 * 2 < m) by (Z.div_mod_to_equations; lia). nia. }
  destruct m as [|[p|p|]|p]; [| | | | lia];
    simpl shr_1; simpl shr_m; simpl shr_r; simpl shr_s.
  - split; [reflexivity |]. intros [H|H]; [discriminate |].
    apply orb_true_iff in H. apply Hstick in H. exact H.
  - split; [rewrite Pos2Z.inj_xI; Z.div_mod_to_equations; lia |].
    intros _. apply Hodd. reflexivity.
  - split; [rewrite Pos2Z.inj_xO; Z.div_mod_to_equations; lia |].
    intros [H|H]; [discriminate |].
    apply orb_true_iff in H. apply Hstick in H. exact H.
  - split; [reflexivity |]. intros _. apply Hodd. reflexivity.
Qed.

Lemma iter_pos_shifted (m0 : Z) (p : positive) :
  0 <= m0 ->
  forall k mrs, shifted m0 k mrs ->
                shifted m0 (k + Zpos p) (iter_pos shr_1 p mrs).
Proof.
  intros Hm0. induction p as [p IH|p IH|]; intros k mrs H; simpl iter_pos.
  - apply shr_1_shifted in H; [| exact Hm0].
    apply IH in H. apply IH in H.
    replace (k + Zpos p~1) with (k + 1 + Zpos p + Zpos p) by lia. exact H.
  - apply IH in H. apply IH in H.
    replace (k + Zpos p~0) with (k + Zpos p + Zpos p) by lia. exact H.
  - apply shr_1_shifted; assumption.
Qed.

Lemma fexp_eq (x : Z) : fexp prec emax x = Z.max (x - 53) (-1074).
Proof. reflexivity. Qed.

Lemma round_nearest_even_bounds (m : Z) (r s : bool) :
  let m' := round_nearest_even m (loc_of_shr_record (Build_shr_record m r s)) in
  m <= m' <= m + 1 /\ (m' = m + 1 -> r = true).
Proof.
  destruct r, s; simpl; try (destruct (Z.even m)); split; auto; lia.
Qed.

Lemma shr_fexp_exact_small (m e : Z) :
  0 <= m -> -1074 <= e -> m < 2 ^ 53 ->
  shr_fexp prec emax m e loc_Exact = (Build_shr_record m false false, e).
Proof.
  intros Hm He Hlt. unfold shr_fexp. rewrite fexp_eq. simpl shr_record_of_loc.
  assert (Hd : Zdigits2 m <= 53).
  { destruct m as [|p|p]; simpl; [lia | | lia].
    destruct (digits2_pos_bounds p) as [Hlo _].
    destruct (Z_le_gt_dec (Zpos (digits2_pos p)) 53) as [|Hgt]; [assumption |].
    exfalso. assert (2 ^ 53 <= 2 ^ (Zpos (digits2_pos p) - 1)) by (apply Z.pow_le_mono_r; lia).
    lia. }
  destruct (Z.max (Zdigits2 m + e - 53) (-1074) - e) eqn:E; try reflexivity. lia.
Qed.

Lemma shr_fexp_exact_carry (e : Z) :
  -1074 <= e ->
  shr_fexp prec emax (2 ^ 53) e loc_Exact
  = (Build_shr_record (2 ^ 52) false false, e + 1).
Proof.
  intros He. unfold shr_fexp. rewrite fexp_eq. 
  change (Zdigits2 (2 ^ 53)) with 54.
  replace (Z.max (54 + e - 53) (-1074) - e) with 1 by lia.
  reflexivity.
Qed.

Lemma pow2_pos (a : Z) : 0 <= a -> 0 < 2 ^ a.
Proof. intros. apply Z.pow_pos_nonneg; lia. Qed.

Lemma pow2_add (a b : Z) : 0 <= a -> 0 <= b -> 2 ^ (a + b) = 2 ^ a * 2 ^ b.
Proof. intros. apply Z.pow_add_r; assumption. Qed.

Lemma round_down_le (m m' N A B : Z) :
  0 < A -> m' * N <= m -> m * A <= B -> m' * (N * A) <= B.
Proof.
  intros HA H1 H2.
  apply Z.le_trans with (m * A); [| exact H2].
  rewrite Z.mul_assoc. apply Z.mul_le_mono_nonneg_r; lia.
Qed.

Lemma round_up_le (m m' j Q N A : Z) :
  0 < N -> 0 < A ->
  m' * N < m -> m * A <= j * (Q * (N * A)) ->
  (m' + 1) * (N * A) <= j * (Q * (N * A)).
Proof.
  intros HN HA H1 H2.
  assert (H3 : m * A <= j * Q * N * A).
  { eapply Z.le_trans; [exact H2 |]. apply Z.eq_le_incl. ring. }
  apply Z.mul_le_mono_pos_r in H3; [| exact HA].
  assert (H4 : m' * N < j * Q * N) by lia.
  apply Z.mul_lt_mono_pos_r in H4; [| exact HN].
  replace (j * (Q * (N * A))) with (j * Q * (N * A)) by ring.
  apply Z.mul_le_mono_nonneg_r; [| lia].
  apply Z.lt_le_incl, Z.mul_pos_pos; assumption.
Qed.

Lemma round_up_absurd (m m' j N A Q P : Z) :
  0 < N -> 0 < A -> 0 < Q ->
  m' * N <= m -> 2 * 4503599627370496 <= 2 * m' ->
  2 <= P -> j < 4503599627370496 * 2 ->
  m * A <= j * Q -> N * A = P * Q -> False.
Proof.
  intros HN HA HQ H1 H2 HP Hj H3 H4.
  assert (m' * (N * A) <= j * Q).
  { apply round_down_le with m; assumption. }
  rewrite H4 in H.
  assert (4503599627370496 * (2 * Q) <= m' * (P * Q)).
  { apply Z.mul_le_mono_nonneg; try lia.
    apply Z.mul_le_mono_nonneg_r; lia. }
  assert (j * Q < 4503599627370496 * 2 * Q).
  { apply Z.mul_lt_mono_pos_r; assumption. }
  lia.
Qed.

Lemma pow_bound_absurd (mm P A B j : Z) :
  0 < mm -> 0 < A -> 0 < B ->
  mm * A <= j * B -> j < P -> P * B <= A -> False.
Proof.
  intros Hm HA HB H1 H2 H3.
  assert (A <= mm * A) by (rewrite <- (Z.mul_1_l A) at 1; apply Z.mul_le_mono_nonneg_r; lia).
  assert (j * B < P * B) by (apply Z.mul_lt_mono_pos_r; assumption).
  lia.
Qed.

Lemma binary_round_aux_le (m : positive) (e j q : Z) :
  - scale <= e -> -1074 <= q <= 0 -> 0 < j < 2 ^ 53 ->
  V (Zpos m) e <= V j q ->
  match binary_round_aux prec emax false (Zpos m) e loc_Exact with
  | S754_zero _ => True
  | S754_finite false m' e' => -1074 <= e' /\ V (Zpos m') e' <= V j q
  | _ => False
  end.
Proof.
  intros He Hq Hj Hle. unfold scale in He.
  pose proof (digits2_pos_bounds m) as Hd.
  set (d := Zpos (digits2_pos m)) in *.
  assert (Hd1 : 1 <= d) by (unfold d; lia).
  assert (HB : V j q < 2 ^ 53 * 2 ^ (q + scale)).
  { unfold V. apply Z.mul_lt_mono_pos_r; [apply pow2_pos; unfold scale; lia | lia]. }
  unfold binary_round_aux.
  destruct (shr_fexp prec emax (Zpos m) e loc_Exact) as [mrs' e'] eqn:E1.
  assert (H1 : e' = Z.max e (Z.max (d + e - 53) (-1074))
               /\ shifted (Zpos m) (e' - e) mrs').
  { unfold shr_fexp in E1. rewrite fexp_eq in E1.
    simpl shr_record_of_loc in E1. simpl Zdigits2 in E1. fold d in E1.
    assert (H0 : shifted (Zpos m) 0 (Build_shr_record (Zpos m) false false)).
    { unfold shifted. cbn [shr_m shr_r shr_s]. split; [lia |].
      split; [rewrite Z.pow_0_r, Z.div_1_r; reflexivity |].
      intros [H|H]; discriminate. }
    unfold shr in E1. destruct (Z.max (d + e - 53) (-1074) - e) as [|p|p] eqn:En.
    - injection E1 as <- <-. split; [lia |].
      replace (e - e) with 0 by lia. exact H0.
    - injection E1 as <- <-. split; [lia |].
      replace (e + Zpos p - e) with (0 + Zpos p) by lia.
      apply iter_pos_shifted; [lia | exact H0].
    - injection E1 as <- <-. split; [lia |].
      replace (e - e) with 0 by lia. exact H0. }
  destruct H1 as [He' (Hn & Hm' & Hinex)].
  set (n := e' - e) in *.
  assert (Pn : 0 < 2 ^ n) by (apply pow2_pos; lia).
  assert (Pe : 0 < 2 ^ (e + scale)) by (apply pow2_pos; unfold scale; lia).
  assert (Pq : 0 < 2 ^ (q + scale)) by (apply pow2_pos; unfold scale; lia).
  assert (Ee' : 2 ^ (e' + scale) = 2 ^ n * 2 ^ (e + scale)).
  { rewrite <- pow2_add by (unfold scale; lia). f_equal. unfold n. lia. }
  destruct mrs' as [m' r s]. simpl in Hm', Hinex. simpl shr_m. 
  assert (Hm'lo : 0 <= m') by (rewrite Hm'; apply Z.div_pos; lia).
  assert (Hm'le : m' * 2 ^ n <= Zpos m)
    by (rewrite Hm', Z.mul_comm; apply Z.mul_div_le; lia).
  assert (Hm'hi : m' < 2 ^ 53).
  { rewrite Hm'. apply Z.div_lt_upper_bound; [lia |].
    destruct (Z_le_gt_dec d n) as [Hdn|Hdn].
    - assert (2 ^ d <= 2 ^ n) by (apply Z.pow_le_mono_r; lia).
      assert (2 ^ n * 1 <= 2 ^ n * 2 ^ 53)
        by (apply Z.mul_le_mono_nonneg_l; lia).
      lia.
    - assert (2 ^ d = 2 ^ n * 2 ^ (d - n)).
      { rewrite <- pow2_add by lia. f_equal. lia. }
      assert (2 ^ (d - n) <= 2 ^ 53) by (apply Z.pow_le_mono_r; lia).
      assert (2 ^ n * 2 ^ (d - n) <= 2 ^ n * 2 ^ 53)
        by (apply Z.mul_le_mono_nonneg_l; lia).
      lia. }
  pose proof (round_nearest_even_bounds m' r s) as Hrne. cbv zeta in Hrne.
  set (m'' := round_nearest_even m' (loc_of_shr_record (Build_shr_record m' r s))) in *.
  destruct Hrne as [Hm''b Hm''r].
  assert (Hval : V m'' e' <= V j q).
  { unfold V in *. rewrite Ee'.
    destruct (Z.eq_dec m'' m') as [->|Hne];
      [apply round_down_le with (Zpos m); assumption |].
    assert (Hm''1 : m'' = m' + 1) by lia.
    specialize (Hm''r Hm''1). specialize (Hinex (or_introl Hm''r)).
    rewrite <- Hm' in Hinex. rewrite Hm''1.
    destruct (Z_le_gt_dec e' q) as [Hq'|Hq'].
    - assert (Eq : 2 ^ (q + scale) = 2 ^ (q - e') * (2 ^ n * 2 ^ (e + scale))).
      { rewrite <- Ee', <- pow2_add by (unfold scale; lia). f_equal. lia. }
      assert (0 < 2 ^ (q - e')) by (apply pow2_pos; lia).
      rewrite Eq in Hle |- *.
      apply round_up_le with (Zpos m); assumption.
    - exfalso.
      assert (n <> 0).
      { intros Hn0. rewrite Hn0, Z.pow_0_r in Hinex.
        rewrite Hn0, Z.pow_0_r, Z.div_1_r in Hm'. lia. }
      assert (En : n = d - 53) by lia.
      assert (2 ^ (d - 1) = 2 ^ 52 * 2 ^ n).
      { rewrite <- pow2_add by lia. f_equal. lia. }
      assert (2 ^ 52 <= m').
      { rewrite Hm'. apply Z.div_le_lower_bound; lia. }
      assert (Eq : 2 ^ (e' + scale) = 2 ^ (e' - q) * 2 ^ (q + scale)).
      { rewrite <- pow2_add by (unfold scale; lia). f_equal. lia. }
      assert (2 ^ 1 <= 2 ^ (e' - q)) by (apply Z.pow_le_mono_r; lia).
      rewrite Ee' in Eq.
      apply (round_up_absurd (Zpos m) m' j (2 ^ n) (2 ^ (e + scale))
                             (2 ^ (q + scale)) (2 ^ (e' - q)));
        try assumption; lia. }
  assert (Hfin : forall mm ee, 0 < mm -> V mm ee <= V j q -> - 1074 <= ee ->
                  (ee <=? emax - prec) = true).
  { intros mm ee Hmm Hv Hee. apply Z.leb_le. change (emax - prec) with 971.
    destruct (Z_le_gt_dec ee 971); [assumption | exfalso].
    unfold V in Hv.
    assert (2 ^ (53 + (q + scale)) <= 2 ^ (ee + scale))
      by (apply Z.pow_le_mono_r; unfold scale; lia).
    rewrite pow2_add in H by (unfold scale; lia).
    assert (0 < 2 ^ (ee + scale)) by (apply pow2_pos; unfold scale; lia).
    apply (pow_bound_absurd mm (2 ^ 53) (2 ^ (ee + scale)) (2 ^ (q + scale)) j);
      try assumption; lia. }
  destruct (Z.eq_dec m'' (2 ^ 53)) as [Ecarry|Hnc].
  - rewrite Ecarry, shr_fexp_exact_carry by lia. simpl shr_m.
    change (2 ^ 52) with (Zpos 4503599627370496).
    assert (Hv2 : V (Zpos 4503599627370496) (e' + 1) <= V j q).
    { rewrite Ecarry in Hval. unfold V in *.
      replace (e' + 1 + scale) with (1 + (e' + scale)) by lia.
      rewrite pow2_add by (unfold scale; lia).
      change (2 ^ 53) with (4503599627370496 * 2 ^ 1) in Hval. lia. }
    rewrite (Hfin (Zpos 4503599627370496) (e' + 1)) by (assumption || lia).
    split; [lia | exact Hv2].
  - rewrite shr_fexp_exact_small by lia. simpl shr_m.
    destruct m'' as [|p|p] eqn:Em''; [exact I | | lia].
    rewrite (Hfin (Zpos p) e') by (assumption || lia).
    split; [lia | exact Hval].
Qed.

Lemma V_pos (m e : Z) : 0 < m -> - scale <= e -> 0 < V m e.
Proof.
  intros Hm He. unfold V. apply Z.mul_pos_pos; [lia |]. apply pow2_pos. lia.
Qed.

Lemma V_mono (j j' q : Z) : - scale <= q -> j <= j' -> V j q <= V j' q.
Proof.
  intros Hq Hj. unfold V. apply Z.mul_le_mono_nonneg_r; [| lia].
  apply Z.lt_le_incl, pow2_pos. lia.
Qed.

Lemma below_weaken (f : spec_float) (j j' q : Z) :
  - scale <= q -> j <= j' -> below f j q -> below f j' q.
Proof.
  intros Hq Hj. destruct f as [s|s| |[|] m e]; simpl; auto.
  intros [He Hv]. split; [exact He |].
  pose proof (V_mono j j' q Hq Hj). lia.
Qed.

Lemma Pos_iter_xO (m d : positive) :
  Zpos (Pos.iter xO m d) = Zpos m * 2 ^ Zpos d.
Proof.
  induction d as [|d IH] using Pos.peano_ind.
  - simpl. lia.
  - rewrite Pos.iter_succ, Pos2Z.inj_xO, IH, Pos2Z.inj_succ, Z.pow_succ_r by lia.
    ring.
Qed.

Lemma shl_align_value (m : positive) (e e' : Z) :
  - scale <= e -> - scale <= e' ->
  let '(m', e'') := shl_align m e e' in
  V (Zpos m') e'' = V (Zpos m) e /\ e'' = Z.min e e'.
Proof.
  intros He He'. unfold shl_align.
  destruct (e' - e) as [|d|d] eqn:E.
  - split; [reflexivity | lia].
  - split; [reflexivity | lia].
  - split; [| lia]. unfold V. rewrite Pos_iter_xO.
    replace (e + scale) with (Zpos d + (e' + scale)) by lia.
    rewrite (pow2_add (Zpos d) (e' + scale)) by lia. ring.
Qed.

Lemma binary_round_le (m : positive) (e j q : Z) :
  -1074 <= e -> -1074 <= q <= 0 -> 0 < j < 2 ^ 53 ->
  V (Zpos m) e <= V j q ->
  below (binary_round prec emax false m e) j q.
Proof.
  intros He Hq Hj Hle. unfold binary_round.
  pose proof (shl_align_value m e (fexp prec emax (Zpos (digits2_pos m) + e))) as Hal.
  rewrite fexp_eq in *.
  destruct (shl_align m e (Z.max (Z.pos (digits2_pos m) + e - 53) (-1074)))
    as [mz ez].
  destruct Hal as [Hv Hez]; [unfold scale; lia | unfold scale; lia |].
  pose proof (binary_round_aux_le mz ez j q) as H.
  unfold below.
  destruct (binary_round_aux prec emax false (Zpos mz) ez loc_Exact)
    as [s|s| |[|] m' e']; try exact I;
    apply H; try assumption; try (unfold scale; lia); rewrite Hv; exact Hle.
Qed.

Lemma SFmul_below (x y : spec_float) (jx qx jy qy : Z) :
  below x jx qx -> below y jy qy ->
  0 <= jx -> 0 <= jy -> jx * jy < 2 ^ 53 ->
  -1074 <= qx <= 0 -> -1074 <= qy <= 0 -> -1074 <= qx + qy ->
  below (SF64mul x y) (jx * jy) (qx + qy).
Proof.
  intros Hx Hy Hjx Hjy Hj Hqx Hqy Hq. unfold SF64mul, SFmul.
  destruct x as [sx|sx| |[|] mx ex]; simpl in Hx; try tauto;
    destruct y as [sy|sy| |[|] my ey]; simpl in Hy; try tauto;
    try exact I.
  destruct Hx as [Hex Hvx], Hy as [Hey Hvy]. simpl xorb.
  assert (Px : 0 < V (Zpos mx) ex) by (apply V_pos; unfold scale; lia).
  assert (Py : 0 < V (Zpos my) ey) by (apply V_pos; unfold scale; lia).
  assert (Hprod : V (Zpos (mx * my)) (ex + ey) <= V (jx * jy) (qx + qy)).
  { assert (Hs : 0 < 2 ^ scale) by (apply pow2_pos; unfold scale; lia).
    assert (E1 : V (Zpos mx) ex * V (Zpos my) ey
                 = V (Zpos (mx * my)) (ex + ey) * 2 ^ scale).
    { unfold V. rewrite Pos2Z.inj_mul.
      replace (ex + ey + scale) with ((ex + scale) + (ey + scale) - scale)
        by lia.
      assert (2 ^ (ex + scale) * 2 ^ (ey + scale)
              = 2 ^ (ex + scale + (ey + scale) - scale) * 2 ^ scale).
      { rewrite <- !pow2_add by (unfold scale; lia). f_equal. lia. }
      transitivity (Zpos mx * Zpos my
                    * (2 ^ (ex + scale) * 2 ^ (ey + scale))); [ring |].
      rewrite H. ring. }
    assert (E2 : V jx qx * V jy qy = V (jx * jy) (qx + qy) * 2 ^ scale).
    { unfold V.
      replace (qx + qy + scale) with ((qx + scale) + (qy + scale) - scale)
        by lia.
      assert (2 ^ (qx + scale) * 2 ^ (qy + scale)
              = 2 ^ (qx + scale + (qy + scale) - scale) * 2 ^ scale).
      { rewrite <- !pow2_add by (unfold scale; lia). f_equal. lia. }
      transitivity (jx * jy * (2 ^ (qx + scale) * 2 ^ (qy + scale))); [ring |].
      rewrite H. ring. }
    assert (Hm : V (Zpos mx) ex * V (Zpos my) ey <= V jx qx * V jy qy).
    { apply Z.mul_le_mono_nonneg; lia. }
    rewrite E1, E2 in Hm.
    apply Z.mul_le_mono_pos_r in Hm; assumption. }
  assert (Hjpos : 0 < jx * jy).
  { destruct (Z.eq_dec (jx * jy) 0) as [E|E];
      [| assert (0 <= jx * jy) by (apply Z.mul_nonneg_nonneg; lia); lia].
    exfalso. pose proof (V_pos (Zpos (mx * my)) (ex + ey)).
    unfold V in Hprod at 2. rewrite E in Hprod. unfold scale in *. lia. }
  pose proof (binary_round_aux_le (mx * my) (ex + ey) (jx * jy) (qx + qy)) as H.
  unfold below.
  destruct (binary_round_aux prec emax false (Zpos (mx * my)) (ex + ey) loc_Exact)
    as [s|s| |[|] m' e']; try exact I; apply H;
    try assumption; unfold scale; lia.
Qed.

Lemma V_add (a b e : Z) : V (a + b) e = V a e + V b e.
Proof. unfold V. ring. Qed.

Lemma V_sub (a b e : Z) : V (a - b) e = V a e - V b e.
Proof. unfold V. ring. Qed.

Lemma shl_align_fst (m : positive) (e ez : Z) :
  - scale <= ez -> ez <= e ->
  V (Zpos (fst (shl_align m e ez))) ez = V (Zpos m) e.
Proof.
  intros Hz Hle. pose proof (shl_align_value m e ez) as H.
  destruct (shl_align m e ez) as [m' e'']. simpl.
  destruct H as [Hv He]; [lia | lia |].
  replace ez with e'' at 1 by lia. exact Hv.
Qed.

Lemma SFadd_below (x y : spec_float) (jx jy q : Z) :
  below x jx q -> below y jy q ->
  0 <= jx -> 0 <= jy -> jx + jy < 2 ^ 53 -> -1074 <= q <= 0 ->
  below (SF64add x y) (jx + jy) q.
Proof.
  intros Hx Hy Hjx Hjy Hj Hq. unfold SF64add, SFadd.
  destruct x as [sx|sx| |[|] mx ex]; cbn [below] in Hx; try tauto;
    destruct y as [sy|sy| |[|] my ey]; cbn [below] in Hy; try tauto.
  - destruct sx, sy; exact I.
  - apply (below_weaken _ jy); [unfold scale; lia | lia | exact Hy].
  - apply (below_weaken _ jx); [unfold scale; lia | lia | exact Hx].
  - destruct Hx as [Hex Hvx], Hy as [Hey Hvy].
    cbv zeta. cbn [cond_Zopp].
    set (ez := Z.min ex ey).
    pose proof (shl_align_fst mx ex ez) as Ax.
    pose proof (shl_align_fst my ey ez) as Ay.
    set (a := fst (shl_align mx ex ez)) in *.
    set (b := fst (shl_align my ey ez)) in *.
    rewrite <- Pos2Z.inj_add. cbn [binary_normalize].
    assert (Hsum : V (Zpos (a + b)) ez <= V (jx + jy) q).
    { rewrite Pos2Z.inj_add, !V_add, Ax, Ay by (unfold scale, ez; lia). lia. }
    apply binary_round_le; try assumption; [unfold ez; lia |].
    split; [| lia].
    destruct (Z_le_gt_dec (jx + jy) 0) as [Hle|]; [exfalso | lia].
    pose proof (V_pos (Zpos (a + b)) ez).
    pose proof (V_mono (jx + jy) 0 q).
    unfold V in H0 at 2. unfold scale, ez in *. lia.
Qed.

Lemma V_one : V 4503599627370496 (-52) = V 256 (-8) /\ V 1 0 = V 256 (-8).
Proof. split; reflexivity. Qed.

Lemma SFsub_one_below (y : spec_float) (i : Z) :
  unit_float y i -> 0 <= i ->
  below (SF64sub SFone y) (256 - i) (-8).
Proof.
  intros Hy Hi. unfold SF64sub, SFsub, SFone.
  destruct y as [sy|sy| |[|] my ey]; cbn [unit_float] in Hy; try tauto.
  - subst i. cbn [below]. split; [lia |]. rewrite (proj1 V_one). reflexivity.
  - destruct Hy as (Hey & Hlo & Hhi).
    cbv zeta. cbn [cond_Zopp].
    set (ez := Z.min (-52) ey).
    pose proof (shl_align_fst 4503599627370496 (-52) ez) as Ax.
    pose proof (shl_align_fst my ey ez) as Ay.
    set (a := fst (shl_align 4503599627370496 (-52) ez)) in *.
    set (b := fst (shl_align my ey ez)) in *.
    assert (Hd : V (Zpos a - Zpos b) ez <= V (256 - i) (-8)).
    { rewrite !V_sub, Ax, Ay by (unfold scale, ez; lia).
      rewrite (proj1 V_one). rewrite (proj2 V_one) in Hhi. lia. }
    assert (Hnn : 0 <= V (Zpos a - Zpos b) ez).
    { rewrite V_sub, Ax, Ay by (unfold scale, ez; lia).
      rewrite (proj1 V_one). rewrite (proj2 V_one) in Hhi. lia. }
    destruct (Zpos a - Zpos b) as [|d|d] eqn:Ed; cbn [binary_normalize].
    + exact I.
    + apply binary_round_le; try assumption; [unfold ez; lia | lia |].
      split; [| change (2 ^ 53) with 9007199254740992; lia].
      destruct (Z_le_gt_dec (256 - i) 0) as [Hle|]; [exfalso | lia].
      pose proof (V_pos (Zpos d) ez).
      pose proof (V_mono (256 - i) 0 (-8)).
      unfold V in H0 at 2. unfold scale, ez in *. lia.
    + exfalso. unfold V in Hnn.
      assert (0 < 2 ^ (ez + scale)) by (apply pow2_pos; unfold scale, ez; lia).
      assert (Zneg d * 2 ^ (ez + scale) < 0) by (apply Z.mul_neg_pos; lia).
      lia.
Qed.

(** [0 <= alpha <= 1] as float comparisons. *)
Lemma unit_interval_float (alpha : float) :
  (0 <=? alpha)%float = true -> (alpha <=? 1)%float = true ->
  exists i, 0 <= i <= 256
            /\ unit_float (Prim2SF alpha) i
            /\ below (Prim2SF alpha) (i + 1) (-8).
Proof.
  rewrite !FloatAxioms.leb_spec. intros H0 H1.
  change (Prim2SF 0) with (S754_zero false) in H0.
  change (Prim2SF 1) with SFone in H1.
  pose proof (Prim2SF_valid alpha) as Hvalid.
  destruct (Prim2SF alpha) as [s|s| |s m e].
  - exists 0. cbn. split; [lia | auto].
  - destruct s; discriminate.
  - discriminate.
  - destruct s; [discriminate |].
    cbn [valid_binary] in Hvalid. unfold bounded, canonical_mantissa in Hvalid.
    apply andb_true_iff in Hvalid. destruct Hvalid as [Hcan _].
    apply Z.eqb_eq in Hcan. rewrite fexp_eq in Hcan.
    pose proof (digits2_pos_bounds m) as Hd.
    set (d := Zpos (digits2_pos m)) in *.
    assert (Hm : Zpos m < 2 ^ 53).
    { assert (2 ^ d <= 2 ^ 53) by (apply Z.pow_le_mono_r; lia). lia. }
    assert (He : -1074 <= e) by lia.
    assert (Hle1 : V (Zpos m) e <= V 1 0).
    { unfold SFleb, SFcompare, SFone in H1.
      destruct (e ?= -52) eqn:Ecmp; [| | discriminate].
      - apply Z.compare_eq in Ecmp. subst e.
        rewrite (proj2 V_one), <- (proj1 V_one).
        apply V_mono; [unfold scale; lia |].
        assert (Hc : (m ?= 4503599627370496)%positive <> Gt).
        { unfold Pos.compare. intros Hgt. rewrite Hgt in H1. discriminate. }
        apply Pos.compare_le_iff in Hc.
        apply Pos2Z.pos_le_pos in Hc. exact Hc.
      - rewrite Z.compare_lt_iff in Ecmp. unfold V.
        assert (Hp1 : 2 ^ (e + scale) <= 2 ^ (-53 + scale)).
        { apply Z.pow_le_mono_r; unfold scale; lia. }
        assert (Hp2 : 0 < 2 ^ (e + scale)) by (apply pow2_pos; unfold scale; lia).
        assert (Hp3 : 1 * 2 ^ (0 + scale) = 2 ^ 53 * 2 ^ (-53 + scale))
          by reflexivity.
        rewrite Hp3.
        apply Z.le_trans with (2 ^ 53 * 2 ^ (e + scale)).
        + apply Z.mul_le_mono_nonneg_r; lia.
        + apply Z.mul_le_mono_nonneg_l; [lia | exact Hp1]. }
    set (G := 2 ^ (-8 + scale)).
    assert (HG : 0 < G) by (apply pow2_pos; unfold scale; lia).
    exists (V (Zpos m) e / G).
    assert (Hpos : 0 < V (Zpos m) e) by (apply V_pos; unfold scale; lia).
    assert (Hdiv : V (Zpos m) e / G * G <= V (Zpos m) e < (V (Zpos m) e / G + 1) * G).
    { split.
      - rewrite Z.mul_comm. apply Z.mul_div_le. lia.
      - rewrite Z.mul_comm. apply Z.mul_succ_div_gt. lia. }
    assert (H256 : V 1 0 = 256 * G) by reflexivity.
    split; [| split].
    + split; [apply Z.div_pos; lia |].
      apply Z.div_le_upper_bound; lia.
    + cbn [unit_float]. split; [exact He |]. split; [| exact Hle1].
      unfold V at 1. fold G. lia.
    + cbn [below]. split; [exact He |].
      unfold V at 2. fold G. lia.
Qed.

(** ** Colour combination *)

Lemma below_truncates (f : spec_float) :
  below f 65535 (-8) ->
  match f with
  | S754_zero _ => True
  | S754_finite s m e => s = false /\ 0 <= Z.shiftl (Zpos m) e <= 255
  | _ => False
  end.
Proof.
  destruct f as [s|s| |[|] m e]; cbn [below]; try tauto.
  intros [He Hv]. split; [reflexivity |].
  assert (Hlt : V (Zpos m) e < V 256 0).
  { eapply Z.le_lt_trans; [exact Hv |]. reflexivity. }
  unfold V in Hlt.
  assert (Ps : 0 < 2 ^ scale) by (apply pow2_pos; unfold scale; lia).
  replace (0 + scale) with scale in Hlt by lia.
  destruct (Z_le_gt_dec 0 e) as [Hpos|Hneg].
  - rewrite Z.shiftl_mul_pow2 by lia.
    rewrite pow2_add in Hlt by (unfold scale; lia).
    assert (0 < 2 ^ e) by (apply pow2_pos; lia).
    split; [lia |].
    assert (Zpos m * 2 ^ e < 256) by nia. lia.
  - replace e with (- (- e)) at 1 2 by lia.
    rewrite Z.shiftl_opp_r, Z.shiftr_div_pow2 by lia.
    assert (Pe : 0 < 2 ^ (- e)) by (apply pow2_pos; lia).
    assert (Es : 2 ^ scale = 2 ^ (- e) * 2 ^ (e + scale)).
    { rewrite <- pow2_add by (unfold scale; lia). f_equal. lia. }
    assert (0 < 2 ^ (e + scale)) by (apply pow2_pos; unfold scale; lia).
    split; [apply Z.div_pos; lia |].
    assert (Zpos m / 2 ^ (- e) < 256); [| lia].
    apply Z.div_lt_upper_bound; [lia |]. rewrite Es in Hlt. nia.
Qed.

(** The conversion of a non-negative integer below 2^63 is the primitive
    conversion of the machine integer. *)
Lemma float_of_Z_of_uint63 (z : Z) :
  0 <= z < 2 ^ 63 ->
  Prim2SF (float_of_Z z) = binary_normalize prec emax z 0 false
  /\ float_of_Z z = of_uint63 (Uint63.of_Z z).
Proof.
  intros Hz.
  assert (Hto : Uint63.to_Z (Uint63.of_Z z) = z).
  { rewrite Uint63.of_Z_spec. apply Z.mod_small. exact Hz. }
  pose proof (of_uint63_spec (Uint63.of_Z z)) as Hspec. rewrite Hto in Hspec.
  pose proof (Prim2SF_valid (of_uint63 (Uint63.of_Z z))) as Hvalid.
  rewrite Hspec in Hvalid.
  assert (H1 : Prim2SF (float_of_Z z) = binary_normalize prec emax z 0 false).
  { unfold float_of_Z. apply Prim2SF_SF2Prim. exact Hvalid. }
  split; [exact H1 |]. apply Prim2SF_inj. rewrite H1, Hspec. reflexivity.
Qed.

Lemma float_of_byte (c : Z) :
  byte c -> below (Prim2SF (float_of_Z c)) c 0.
Proof.
  intros Hc. unfold byte in Hc.
  assert (P63 : 2 ^ 63 = 9223372036854775808) by reflexivity.
  destruct (float_of_Z_of_uint63 c) as [E _]; [lia |]. rewrite E.
  destruct c as [|p|p]; cbn [binary_normalize]; [exact I | | lia].
  apply binary_round_le; lia.
Qed.

Lemma blend_channel_range (alpha : float) (c1 c2 : Z) :
  byte c1 -> byte c2 ->
  (0 <=? alpha)%float = true -> (alpha <=? 1)%float = true ->
  exists v, int_of_float (blend_channel alpha c1 c2) = Ok v /\ byte v.
Proof.
  intros H1 H2 Ha0 Ha1.
  destruct (unit_interval_float alpha Ha0 Ha1) as (i & Hi & Hunit & Hup).
  pose proof (float_of_byte c1 H1) as B1.
  pose proof (float_of_byte c2 H2) as B2.
  pose proof (SFsub_one_below _ i Hunit (proj1 Hi)) as Hbeta.
  unfold byte in H1, H2.
  assert (P53 : 2 ^ 53 = 9007199254740992) by reflexivity.
  pose proof (SFmul_below _ _ c1 0 (256 - i) (-8) B1 Hbeta) as Hp.
  pose proof (SFmul_below _ _ c2 0 (i + 1) (-8) B2 Hup) as Hq.
  assert (Hp' : below (SF64mul (Prim2SF (float_of_Z c1)) (SF64sub SFone (Prim2SF alpha)))
                      (c1 * (256 - i)) (-8)).
  { apply Hp; try lia; rewrite P53; nia. }
  assert (Hq' : below (SF64mul (Prim2SF (float_of_Z c2)) (Prim2SF alpha))
                      (c2 * (i + 1)) (-8)).
  { apply Hq; try lia; rewrite P53; nia. }
  pose proof (SFadd_below _ _ _ _ (-8) Hp' Hq') as Hs.
  assert (Hs' : below (SF64add (SF64mul (Prim2SF (float_of_Z c1)) (SF64sub SFone (Prim2SF alpha)))
                               (SF64mul (Prim2SF (float_of_Z c2)) (Prim2SF alpha)))
                      65535 (-8)).
  { eapply below_weaken; [| | apply Hs]; try (unfold scale; lia); try nia;
      rewrite P53; nia. }
  apply below_truncates in Hs'.
  unfold int_of_float, blend_channel.
  rewrite FloatAxioms.add_spec, !FloatAxioms.mul_spec, FloatAxioms.sub_spec.
  change (Prim2SF 1) with SFone.
  destruct (SF64add _ _) as [s|s| |s m e]; try tauto.
  - exists 0. split; [reflexivity | unfold byte; lia].
  - destruct Hs' as [-> Hb]. eexists. split; [reflexivity | exact Hb].
Qed.

Lemma binary_normalize_exact (k : Z) :
  0 < k < 2 ^ 53 ->
  exists m e,
    binary_normalize prec emax k 0 false = S754_finite false m e
    /\ -1074 <= e /\ V (Zpos m) e = V k 0.
Proof.
  intros Hk. destruct k as [|p|p]; try lia. cbn [binary_normalize].
  unfold binary_round.
  pose proof (shl_align_value p 0 (fexp prec emax (Zpos (digits2_pos p) + 0))) as Hal.
  rewrite fexp_eq in *.
  pose proof (digits2_pos_bounds p) as Hd.
  set (d := Zpos (digits2_pos p)) in *.
  assert (Hd1 : 1 <= d <= 53).
  { split; [unfold d; lia |].
    destruct (Z_le_gt_dec d 53); [assumption | exfalso].
    assert (2 ^ 53 <= 2 ^ (d - 1)) by (apply Z.pow_le_mono_r; lia). lia. }
  destruct (shl_align p 0 (Z.max (d + 0 - 53) (-1074))) as [mz ez].
  destruct Hal as [Hv Hez]; [unfold scale; lia | unfold scale; lia |].
  assert (Eez : ez = d - 53) by lia.
  assert (Hmz : Zpos mz < 2 ^ 53).
  { unfold V in Hv.
    assert (E1 : 2 ^ (0 + scale) = 2 ^ (53 - d) * 2 ^ (ez + scale)).
    { rewrite <- pow2_add by (unfold scale; lia). f_equal. lia. }
    rewrite E1 in Hv.
    assert (P : 0 < 2 ^ (ez + scale)) by (apply pow2_pos; unfold scale; lia).
    rewrite Z.mul_assoc in Hv. apply Z.mul_reg_r in Hv; [| lia].
    rewrite Hv.
    assert (E2 : 2 ^ 53 = 2 ^ d * 2 ^ (53 - d)).
    { rewrite <- pow2_add by lia. f_equal. lia. }
    rewrite E2. apply Z.mul_lt_mono_pos_r; [apply pow2_pos; lia | lia]. }
  unfold binary_round_aux.
  rewrite shr_fexp_exact_small by lia. cbn [shr_m loc_of_shr_record round_nearest_even].
  rewrite shr_fexp_exact_small by lia. cbn [shr_m].
  assert (Hfin : (ez <=? emax - prec) = true)
    by (apply Z.leb_le; change (emax - prec) with 971; lia).
  rewrite Hfin. exists mz, ez. split; [reflexivity |]. split; [lia | exact Hv].
Qed.

Lemma valid_canonical (s : bool) (m : positive) (e : Z) :
  valid_binary (S754_finite s m e) = true -> canonical m e.
Proof.
  cbn [valid_binary]. unfold bounded, canonical_mantissa.
  intros H. apply andb_true_iff in H. destruct H as [H _].
  apply Z.eqb_eq in H. rewrite fexp_eq in H. exact H.
Qed.

Lemma canonical_lt (mx my : positive) (ex ey : Z) :
  canonical mx ex -> canonical my ey -> ex < ey ->
  V (Zpos mx) ex < V (Zpos my) ey.
Proof.
  unfold canonical. intros Hx Hy Hlt.
  pose proof (digits2_pos_bounds mx) as Dx.
  pose proof (digits2_pos_bounds my) as Dy.
  set (dx := Zpos (digits2_pos mx)) in *.
  set (dy := Zpos (digits2_pos my)) in *.
  assert (Edy : dy = 53) by lia.
  assert (Hdx : dx <= 53) by lia.
  rewrite Edy in Dy. change (2 ^ (53 - 1)) with 4503599627370496 in Dy.
  assert (Hmx : Zpos mx < 2 ^ 53).
  { assert (2 ^ dx <= 2 ^ 53) by (apply Z.pow_le_mono_r; lia). lia. }
  change (2 ^ 53) with (4503599627370496 * 2) in Hmx.
  unfold V.
  assert (Px : 0 < 2 ^ (ex + scale)) by (apply pow2_pos; unfold scale; lia).
  assert (E : 2 ^ (ey + scale) = 2 ^ (ey - ex) * 2 ^ (ex + scale)).
  { rewrite <- pow2_add by (unfold scale; lia). f_equal. lia. }
  assert (P2 : 2 ^ 1 <= 2 ^ (ey - ex)) by (apply Z.pow_le_mono_r; lia).
  change (2 ^ 1) with 2 in P2.
  rewrite E, Z.mul_assoc.
  apply Z.mul_lt_mono_pos_r; [exact Px |].
  apply Z.lt_le_trans with (4503599627370496 * 2); [exact Hmx |].
  apply Z.mul_le_mono_nonneg; lia.
Qed.

Lemma SFcompare_V (mx my : positive) (ex ey : Z) :
  canonical mx ex -> canonical my ey ->
  SFcompare (S754_finite false mx ex) (S754_finite false my ey)
  = Some (V (Zpos mx) ex ?= V (Zpos my) ey).
Proof.
  intros Hx Hy. cbn [SFcompare].
  assert (-1074 <= ex /\ -1074 <= ey) as [Lx Ly] by (unfold canonical in *; lia).
  destruct (Z.compare_spec ex ey) as [E|E|E].
  - subst ey. unfold V.
    rewrite <- Zmult_compare_compat_r
      by (apply Z.lt_gt, pow2_pos; unfold scale; lia).
    reflexivity.
  - pose proof (canonical_lt _ _ _ _ Hx Hy E) as H.
    apply Z.compare_lt_iff in H. rewrite H. reflexivity.
  - pose proof (canonical_lt _ _ _ _ Hy Hx E) as H.
    apply Z.compare_gt_iff in H. rewrite H. reflexivity.
Qed.

Lemma shiftl_between (m : positive) (e k : Z) :
  -1074 <= e -> 0 <= k ->
  V k 0 <= V (Zpos m) e < V (k + 1) 0 ->
  Z.shiftl (Zpos m) e = k.
Proof.
  intros He Hk [Hlo Hhi]. unfold V in *.
  replace (0 + scale) with scale in * by lia.
  assert (Ps : 0 < 2 ^ scale) by (apply pow2_pos; unfold scale; lia).
  destruct (Z_le_gt_dec 0 e) as [Hpos|Hneg].
  - rewrite Z.shiftl_mul_pow2 by lia.
    rewrite pow2_add in Hlo, Hhi by (unfold scale; lia).
    rewrite Z.mul_assoc in Hlo, Hhi.
    apply Z.mul_le_mono_pos_r in Hlo; [| exact Ps].
    apply Z.mul_lt_mono_pos_r in Hhi; [| exact Ps]. lia.
  - replace e with (- (- e)) at 1 by lia.
    rewrite Z.shiftl_opp_r, Z.shiftr_div_pow2 by lia.
    assert (Pe : 0 < 2 ^ (- e)) by (apply pow2_pos; lia).
    assert (Es : 2 ^ scale = 2 ^ (- e) * 2 ^ (e + scale)).
    { rewrite <- pow2_add by (unfold scale; lia). f_equal. lia. }
    assert (P : 0 < 2 ^ (e + scale)) by (apply pow2_pos; unfold scale; lia).
    rewrite Es, !Z.mul_assoc in Hlo, Hhi.
    apply Z.mul_le_mono_pos_r in Hlo; [| exact P].
    apply Z.mul_lt_mono_pos_r in Hhi; [| exact P].
    symmetry. apply Z.div_unique with (Zpos m - 2 ^ (- e) * k); lia.
Qed.

(** A float between the conversions of [k] and [k + 1] truncates to [k]. *)
Lemma int_of_float_between (f : float) (k : Z) :
  0 <= k < 2 ^ 53 - 1 ->
  (float_of_Z k <=? f)%float = true ->
  (f <? float_of_Z (k + 1))%float = true ->
  int_of_float f = Ok k.
Proof.
  intros Hk Hle Hlt.
  assert (H63 : 2 ^ 53 < 2 ^ 63) by reflexivity.
  destruct (float_of_Z_of_uint63 k) as [Ek _]; [lia |].
  destruct (float_of_Z_of_uint63 (k + 1)) as [Ek1 _]; [lia |].
  rewrite FloatAxioms.leb_spec, Ek in Hle.
  rewrite FloatAxioms.ltb_spec, Ek1 in Hlt.
  pose proof (Prim2SF_valid (float_of_Z k)) as Vk. rewrite Ek in Vk.
  pose proof (Prim2SF_valid (float_of_Z (k + 1))) as Vk1. rewrite Ek1 in Vk1.
  pose proof (Prim2SF_valid f) as Vf.
  destruct (binary_normalize_exact (k + 1)) as (m1 & e1 & E1 & He1 & Hv1); [lia |].
  rewrite E1 in Hlt, Vk1. apply valid_canonical in Vk1.
  unfold int_of_float, SFleb, SFltb in *.
  destruct (Z.eq_dec k 0) as [->|Hk0].
  - cbn [binary_normalize] in Hle.
    destruct (Prim2SF f) as [s|s| |s m e]; try (destruct s; discriminate).
    + reflexivity.
    + discriminate.
    + destruct s; [discriminate |].
      apply valid_canonical in Vf.
      rewrite SFcompare_V in Hlt by assumption.
      destruct (Z.compare_spec (V (Zpos m) e) (V (Zpos m1) e1)); try discriminate.
      f_equal. apply shiftl_between; [unfold canonical in Vf; lia | lia |].
      split; [| lia].
      apply Z.lt_le_incl. change (V 0 0) with 0.
      apply V_pos; [lia | unfold canonical in Vf; unfold scale; lia].
  - destruct (binary_normalize_exact k) as (m0 & e0 & E0 & He0 & Hv0); [lia |].
    rewrite E0 in Hle, Vk. apply valid_canonical in Vk.
    destruct (Prim2SF f) as [s|s| |s m e]; try (destruct s; discriminate).
    + discriminate.
    + destruct s; [discriminate |].
      apply valid_canonical in Vf.
      rewrite SFcompare_V in Hlt, Hle by assumption.
      destruct (Z.compare_spec (V (Zpos m) e) (V (Zpos m1) e1)); try discriminate.
      destruct (Z.compare_spec (V (Zpos m0) e0) (V (Zpos m) e)); try discriminate;
        (f_equal; apply shiftl_between;
         [unfold canonical in Vf; lia | lia | lia]).
Qed.

Lemma exact_channels_checked :
  forallb (fun c1 => forallb (exact_channels_check c1) (zrange 0 256))
          (zrange 0 256) = true.
Proof. vm_compute. reflexivity. Qed.

Lemma wrap64_small (z : Z) : - 2 ^ 63 <= z < 2 ^ 63 -> wrap64 z = z.
Proof.
  intros Hz. unfold wrap64. rewrite Z.mod_small; lia.
Qed.

Lemma byte_product (a b : Z) : byte a -> byte b -> 0 <= a * b <= 65025.
Proof.
  unfold byte. intros Ha Hb. split; [apply Z.mul_nonneg_nonneg; lia |].
  change 65025 with (255 * 255). apply Z.mul_le_mono_nonneg; lia.
Qed.

Lemma fast_float_eq (z : Z) : 0 <= z < 2 ^ 63 -> float_of_Z z = fast_float z.
Proof.
  intros Hz. apply float_of_Z_of_uint63. exact Hz.
Qed.

Lemma float_between_truncates (f : float) (k : Z) :
  float_between f k = true -> int_of_float f = Ok k /\ byte k.
Proof.
  unfold float_between. intros H.
  apply andb_true_iff in H. destruct H as [H Hhi].
  apply andb_true_iff in H. destruct H as [H Hlo].
  apply andb_true_iff in H. destruct H as [Hle Hlt].
  apply Z.leb_le in Hlo, Hhi.
  assert (P53 : 2 ^ 53 = 9007199254740992) by reflexivity.
  assert (P63 : 2 ^ 63 = 9223372036854775808) by reflexivity.
  rewrite <- fast_float_eq in Hle, Hlt by lia.
  split; [| unfold byte; lia].
  apply int_of_float_between; [lia | assumption | assumption].
Qed.

Lemma exact_channels (c1 c2 : Z) :
  byte c1 -> byte c2 -> exact_channels_check c1 c2 = true.
Proof.
  intros H1 H2. pose proof exact_channels_checked as H.
  rewrite forallb_forall in H.
  specialize (H c1 ltac:(apply zrange_In; unfold byte in H1; lia)).
  rewrite forallb_forall in H.
  apply H. apply zrange_In. unfold byte in H2. lia.
Qed.

Lemma int_of_float_truncate (f : float) (v : Z) :
  int_of_float f = Ok v -> truncate_float f = v.
Proof.
  unfold int_of_float, truncate_float.
  destruct (Prim2SF f); intros [= <-]; reflexivity.
Qed.

(** One channel of each operation, on bytes and for [alpha] in [0, 1]. *)
Lemma add_channel_formula (alpha : float) (c1 c2 : Z) :
  byte c1 -> byte c2 ->
  add_channel c1 c2 = channel_formula "add" alpha c1 c2
  /\ byte (add_channel c1 c2).
Proof.
  unfold byte, add_channel, channel_formula. intros H1 H2. cbn [String.eqb].
  assert (P63 : 2 ^ 63 = 9223372036854775808) by reflexivity.
  rewrite wrap64_small by lia. split; [reflexivity | lia].
Qed.

Lemma multiply_channel_formula (alpha : float) (c1 c2 : Z) :
  byte c1 -> byte c2 ->
  int_of_float (multiply_channel c1 c2)
  = Ok (channel_formula "multiply" alpha c1 c2)
  /\ byte (channel_formula "multiply" alpha c1 c2).
Proof.
  intros H1 H2. pose proof (exact_channels c1 c2 H1 H2) as H.
  unfold exact_channels_check in H. apply andb_true_iff in H.
  destruct H as [H _]. apply float_between_truncates in H.
  assert (P63 : 2 ^ 63 = 9223372036854775808) by reflexivity.
  unfold multiply_channel.
  rewrite wrap64_small by (pose proof (byte_product _ _ H1 H2); lia).
  rewrite !fast_float_eq by (pose proof (byte_product _ _ H1 H2); lia). exact H.
Qed.

Lemma screen_channel_formula (alpha : float) (c1 c2 : Z) :
  byte c1 -> byte c2 ->
  int_of_float (screen_channel c1 c2)
  = Ok (channel_formula "screen" alpha c1 c2)
  /\ byte (channel_formula "screen" alpha c1 c2).
Proof.
  intros H1 H2. pose proof (exact_channels c1 c2 H1 H2) as H.
  unfold exact_channels_check in H. apply andb_true_iff in H.
  destruct H as [_ H]. apply float_between_truncates in H.
  unfold byte in H1, H2.
  assert (P63 : 2 ^ 63 = 9223372036854775808) by reflexivity.
  unfold screen_channel.
  rewrite (wrap64_small (255 - c1)), (wrap64_small (255 - c2)) by lia.
  assert (B1 : byte (255 - c1)) by (unfold byte; lia).
  assert (B2 : byte (255 - c2)) by (unfold byte; lia).
  rewrite wrap64_small by (pose proof (byte_product _ _ B1 B2); lia).
  rewrite !fast_float_eq by (pose proof (byte_product _ _ B1 B2); lia). exact H.
Qed.

Lemma mapM_map {A B : Type} (f : A -> result B) (g : A -> B) (l : list A) :
  (forall a, In a l -> f a = Ok (g a)) -> mapM f l = Ok (map g l).
Proof.
  induction l as [|a l IH]; intros H; [reflexivity |].
  simpl. rewrite H by (left; reflexivity). simpl.
  rewrite IH by (intros; apply H; right; assumption). reflexivity.
Qed.

Lemma broadcast_same_length (c1 c2 : list Z) :
  List.length c1 = List.length c2 -> broadcast c1 c2 = Ok (combine c1 c2).
Proof.
  intros H. unfold broadcast. rewrite H, Nat.eqb_refl. reflexivity.
Qed.

Lemma in_combine_bytes (color1 color2 : list Z) (c1 c2 : Z) :
  Forall byte color1 -> Forall byte color2 ->
  In (c1, c2) (combine color1 color2) -> byte c1 /\ byte c2.
Proof.
  intros F1 F2 Hin. rewrite Forall_forall in F1, F2.
  split; [apply F1; eapply in_combine_l | apply F2; eapply in_combine_r]; eauto.
Qed.

(** [_apply_overlay_operation] computes its result entry by entry. *)
Lemma _apply_overlay_operation_entries (color1 color2 : list Z)
    (operation : string) (alpha : float) :
  _apply_overlay_operation color1 color2 operation alpha
  = (entries <- broadcast color1 color2 ;;
     mapM (channel_result operation alpha) entries).
Proof.
  unfold _apply_overlay_operation, channel_result.
  destruct (broadcast color1 color2) as [entries|e]; [| reflexivity].
  cbn [bind].
  repeat match goal with
         | |- context [String.eqb operation ?tag] =>
             destruct (String.eqb operation tag)
         end; reflexivity.
Qed.

(** On bytes and for alpha in [0, 1], an entry of the result is the value
    of the operation's formula, and a byte. *)
Lemma channel_result_formula (operation : string) (alpha : float) (c1 c2 : Z) :
  byte c1 -> byte c2 ->
  (0 <=? alpha)%float = true -> (alpha <=? 1)%float = true ->
  channel_result operation alpha (c1, c2)
  = Ok (channel_formula operation alpha c1 c2)
  /\ byte (channel_formula operation alpha c1 c2).
Proof.
  intros H1 H2 Ha0 Ha1.
  assert (Hblend : int_of_float (blend_channel alpha c1 c2)
                   = Ok (truncate_float (blend_channel alpha c1 c2))
                   /\ byte (truncate_float (blend_channel alpha c1 c2))).
  { destruct (blend_channel_range alpha c1 c2 H1 H2 Ha0 Ha1) as (v & Hv & Hb).
    rewrite (int_of_float_truncate _ _ Hv). auto. }
  pose proof (add_channel_formula alpha c1 c2 H1 H2) as Hadd.
  pose proof (multiply_channel_formula alpha c1 c2 H1 H2) as Hmul.
  pose proof (screen_channel_formula alpha c1 c2 H1 H2) as Hscr.
  unfold channel_result.
  destruct (String.eqb operation "blend") eqn:Eb.
  { apply String.eqb_eq in Eb. subst operation. exact Hblend. }
  unfold channel_formula in *.
  destruct (String.eqb operation "add") eqn:Ea.
  { apply String.eqb_eq in Ea. subst operation.
    cbn [String.eqb Ascii.eqb Bool.eqb] in Hadd.
    destruct Hadd as [E Hb]. rewrite <- E. auto. }
  destruct (String.eqb operation "multiply") eqn:Em.
  { apply String.eqb_eq in Em. subst operation. exact Hmul. }
  destruct (String.eqb operation "screen") eqn:Es.
  { apply String.eqb_eq in Es. subst operation. exact Hscr. }
  exact Hblend.
Qed.

(** Colours of the same length, made of bytes, combine without raising. *)
Lemma _apply_overlay_operation_returns (operation : string) (alpha : float)
    (color1 color2 : list Z) :
  Forall byte color1 -> Forall byte color2 ->
  List.length color1 = List.length color2 ->
  (0 <=? alpha)%float = true -> (alpha <=? 1)%float = true ->
  exists color,
    _apply_overlay_operation color1 color2 operation alpha = Ok color.
Proof.
  intros F1 F2 Hlen Ha0 Ha1.
  rewrite _apply_overlay_operation_entries, broadcast_same_length by assumption.
  cbn [bind]. eexists.
  apply (mapM_map _ (fun p => channel_formula operation alpha (fst p) (snd p))).
  intros [c1 c2] Hin. destruct (in_combine_bytes _ _ _ _ F1 F2 Hin).
  apply channel_result_formula; assumption.
Qed.

(** C5 (amended). For channel values c1, c2 in [0, 255] and alpha in
    [0, 1], [_apply_overlay_operation] returns, channel by channel, the
    value of [channel_formula]: min(c1 + c2, 255) for add, the exact
    quotients (c1 * c2) / 255 and 255 - ((255 - c1) * (255 - c2)) / 255
    truncated toward zero for multiply and screen, and for blend (and any
    other tag) the binary64 evaluation of c1 * (1 - alpha) + c2 * alpha
    truncated toward zero.  Every channel of the result lies in [0, 255]. *)
Theorem _apply_overlay_operation_formula (operation : string) (alpha : float)
    (color1 color2 : list Z) :
  Forall byte color1 -> Forall byte color2 ->
  List.length color1 = List.length color2 ->
  (0 <=? alpha)%float = true -> (alpha <=? 1)%float = true ->
  _apply_overlay_operation color1 color2 operation alpha
  = Ok (map (fun '(c1, c2) => channel_formula operation alpha c1 c2)
            (combine color1 color2))
  /\ Forall byte (map (fun '(c1, c2) => channel_formula operation alpha c1 c2)
                      (combine color1 color2)).
Proof.
  intros F1 F2 Hlen Ha0 Ha1.
  assert (Hentry : forall c1 c2, In (c1, c2) (combine color1 color2) ->
            channel_result operation alpha (c1, c2)
            = Ok (channel_formula operation alpha c1 c2)
            /\ byte (channel_formula operation alpha c1 c2)).
  { intros c1 c2 Hin. destruct (in_combine_bytes _ _ _ _ F1 F2 Hin).
    apply channel_result_formula; assumption. }
  split.
  - rewrite _apply_overlay_operation_entries, broadcast_same_length
      by assumption.
    cbn [bind]. apply mapM_map. intros [c1 c2] Hin.
    apply Hentry. exact Hin.
  - apply Forall_forall. intros v Hv. apply in_map_iff in Hv.
    destruct Hv as ([c1 c2] & <- & Hin). apply Hentry. exact Hin.
Qed.

Lemma _apply_overlay_operation_formula_witness :
  _apply_overlay_operation [200; 100; 50] [128; 255; 3] "multiply" 0.5%float
  = Ok [100; 100; 0]
  /\ Forall byte [100; 100; 0].
Proof.
  apply (_apply_overlay_operation_formula "multiply" 0.5%float
           [200; 100; 50] [128; 255; 3]);
    try reflexivity; repeat constructor; unfold byte; lia.
Defined.

(** C5, counterexample.  The blend of a colour with itself is not always
    that colour: the exact value of 3 * (1 - alpha) + 3 * alpha is 3 for
    every alpha, the binary64 evaluation at the float nearest to 0.3 is just
    below 3 and truncates to 2. *)
Lemma blend_below_exact_value :
  (0 <=? alpha_03)%float = true /\ (alpha_03 <=? 1)%float = true
  /\ _apply_overlay_operation [3; 3; 3] [3; 3; 3] "blend" alpha_03
     = Ok [2; 2; 2]
  /\ truncate_Q (exact_blend (Q_of_float alpha_03) 3 3) = 3.
Proof.
  repeat split; vm_compute; reflexivity.
Qed.

(** ** The overlay recursion on built trees *)

Lemma expand_if_leaf_children (node : QuadTreeNode) :
  shaped floor_rule node -> 1 < width node -> 1 < height node ->
  exists nw ne sw se,
    children (expand_if_leaf node) = Some [nw; ne; sw; se]
    /\ is_leaf (expand_if_leaf node) = false
    /\ map region_of [nw; ne; sw; se] = quadrants (region_of node)
    /\ shaped floor_rule nw /\ shaped floor_rule ne
    /\ shaped floor_rule sw /\ shaped floor_rule se.
Proof.
  intros Hs Hw Hh.
  destruct Hs as [x0 y0 w h pv|x0 y0 w h nw ne sw se (_ & _ & Hr)];
    simpl in Hw, Hh.
  - unfold expand_if_leaf, _expand_leaf_node. simpl.
    assert (E : (w <=? 1) || (h <=? 1) = false).
    { apply orb_false_intro; apply Z.leb_gt; assumption. }
    rewrite E. simpl. do 4 eexists. split; [reflexivity |].
    split; [reflexivity |]. split; [reflexivity |].
    repeat split; constructor.
  - unfold expand_if_leaf. simpl. exists nw, ne, sw, se. auto 10.
Qed.

Lemma aligned_internal (a b : QuadTreeNode) :
  aligned a b -> is_leaf a && is_leaf b = false ->
  1 < width a /\ 1 < height a /\ 1 < width b /\ 1 < height b.
Proof.
  intros (Sa & Sb & Hr) Hl.
  assert (Hw : width a = width b) by (apply (f_equal rw) in Hr; exact Hr).
  assert (Hh : height a = height b) by (apply (f_equal rh) in Hr; exact Hr).
  apply andb_false_iff in Hl. destruct Hl as [Hl|Hl].
  - destruct (shaped_internal_inv _ _ Sa Hl) as (? & ? & ? & ? & _ & (H1 & H2 & _) & _).
    simpl in H1, H2. lia.
  - destruct (shaped_internal_inv _ _ Sb Hl) as (? & ? & ? & ? & _ & (H1 & H2 & _) & _).
    simpl in H1, H2. lia.
Qed.

Lemma aligned_child_pair (a b : QuadTreeNode) (i : nat) :
  aligned a b -> is_leaf a && is_leaf b = false -> (i < 4)%nat ->
  exists c d,
    child_pair (expand_if_leaf a) (expand_if_leaf b) i = Ok (c, d)
    /\ aligned c d.
Proof.
  intros Hal Hl Hi.
  destruct (aligned_internal a b Hal Hl) as (Wa & Ha & Wb & Hb).
  destruct Hal as (Sa & Sb & Hr).
  destruct (expand_if_leaf_children a Sa Wa Ha)
    as (a0 & a1 & a2 & a3 & Ca & _ & Ra & Sa0 & Sa1 & Sa2 & Sa3).
  destruct (expand_if_leaf_children b Sb Wb Hb)
    as (b0 & b1 & b2 & b3 & Cb & _ & Rb & Sb0 & Sb1 & Sb2 & Sb3).
  rewrite <- Hr, <- Ra in Rb. cbn [map] in Rb.
  injection Rb as R0 R1 R2 R3.
  unfold child_pair, children_or_empty. rewrite Ca, Cb.
  destruct i as [|[|[|[|i]]]]; [| | | | lia]; simpl;
    do 2 eexists; (split; [reflexivity |]); repeat split;
    solve [assumption | unfold region_of; congruence].
Qed.

Lemma visits_aligned (node1 node2 a b : QuadTreeNode) :
  aligned node1 node2 -> visits node1 node2 a b -> aligned a b.
Proof.
  intros Hal Hv. induction Hv as [|a b i c d Hv IH Hl Hi Hc]; [assumption |].
  destruct (aligned_child_pair a b i IH Hl Hi) as (c' & d' & Hc' & Hal').
  rewrite Hc in Hc'. injection Hc' as <- <-. exact Hal'.
Qed.

(** A pair reached from a child pair is reached from the parents. *)
Lemma visits_from_child (node1 node2 c d a b : QuadTreeNode) (i : nat) :
  is_leaf node1 && is_leaf node2 = false -> (i < 4)%nat ->
  child_pair (expand_if_leaf node1) (expand_if_leaf node2) i = Ok (c, d) ->
  visits c d a b -> visits node1 node2 a b.
Proof.
  intros Hl Hi Hc Hv. induction Hv as [|a b j c' d' Hv IH Hl' Hj Hc'].
  - eapply visits_child; [apply visits_here | eassumption ..].
  - eapply visits_child; eassumption.
Qed.

Lemma _apply_overlay_operation_Raise (color1 color2 : list Z)
    (operation : string) (alpha : float) (e : exn) :
  _apply_overlay_operation color1 color2 operation alpha = Raise e ->
  e = ValueError \/ e = OverflowError.
Proof.
  assert (Hint : forall f e, int_of_float f = Raise e ->
                             e = ValueError \/ e = OverflowError).
  { intros f e0. unfold int_of_float.
    destruct (Prim2SF f); intros [= <-]; auto. }
  assert (HmapM : forall (g : Z * Z -> result Z) l,
            (forall p e0, g p = Raise e0 -> e0 = ValueError \/ e0 = OverflowError) ->
            mapM g l = Raise e -> e = ValueError \/ e = OverflowError).
  { intros g l Hg. revert e. induction l as [|p l IH]; intros e0; simpl; [discriminate |].
    destruct (g p) as [v|e1] eqn:E; simpl.
    - destruct (mapM g l) as [vs|e2]; simpl; [discriminate |].
      intros [= <-]. apply IH. reflexivity.
    - intros [= <-]. eapply Hg. exact E. }
  unfold _apply_overlay_operation.
  destruct (broadcast color1 color2) as [entries|e0] eqn:Eb; simpl.
  - repeat match goal with
           | |- context [if ?c then _ else _] => destruct c
           end; apply HmapM; intros [c1 c2] e0; try apply Hint; discriminate.
  - intros [= <-]. unfold broadcast in Eb.
    destruct (Nat.eqb _ _); [discriminate |].
    destruct color1 as [|? [|? ?]], color2 as [|? [|? ?]];
      try discriminate; injection Eb as <-; auto.
Qed.

(** The recursion on an aligned pair returns a node, unless the combination
    of the colours of two leaves it reaches raises. *)
Lemma _overlay_recursive_aligned (operation : string) (alpha : float)
    (node1 node2 : QuadTreeNode) :
  aligned node1 node2 ->
  (exists r, _overlay_recursive node1 node2 operation alpha = Ok r)
  \/ (exists e a b,
        _overlay_recursive node1 node2 operation alpha = Raise e
        /\ visits node1 node2 a b
        /\ is_leaf a && is_leaf b = true
        /\ _apply_overlay_operation (pixel_or_black (pixel_value a))
                                    (pixel_or_black (pixel_value b))
                                    operation alpha = Raise e).
Proof.
  remember (size node1 + size node2)%nat as k eqn:Hk.
  revert node1 node2 Hk.
  induction k as [k IH] using lt_wf_ind.
  intros node1 node2 Hk Hal.
  rewrite _overlay_recursive_eq.
  destruct (is_leaf node1 && is_leaf node2) eqn:Hl.
  - destruct (_apply_overlay_operation _ _ operation alpha) as [v|e] eqn:E.
    + left. simpl. eauto.
    + right. exists e, node1, node2. simpl.
      split; [reflexivity |]. split; [apply visits_here |]. auto.
  - cbv zeta.
    assert (Hstep : forall i, (i < 4)%nat ->
              exists c d,
                child_pair (expand_if_leaf node1) (expand_if_leaf node2) i = Ok (c, d)
                /\ ((exists r, _overlay_recursive c d operation alpha = Ok r)
                    \/ (exists e a b,
                          _overlay_recursive c d operation alpha = Raise e
                          /\ visits node1 node2 a b
                          /\ is_leaf a && is_leaf b = true
                          /\ _apply_overlay_operation
                               (pixel_or_black (pixel_value a))
                               (pixel_or_black (pixel_value b))
                               operation alpha = Raise e))).
    { intros i Hi.
      destruct (aligned_child_pair _ _ i Hal Hl Hi) as (c & d & Hc & Hcd).
      exists c, d. split; [exact Hc |].
      pose proof (size_child_pair _ _ _ _ _ Hl Hc) as Hlt. subst k.
      destruct (IH _ Hlt c d eq_refl Hcd) as [Hok|(e & a & b & He & Hv & Hab & Hr)];
        [left; exact Hok | right].
      exists e, a, b. repeat split; try assumption.
      eapply visits_from_child; eassumption. }
    destruct (Hstep 0%nat ltac:(lia)) as (c0 & d0 & E0 & [[r0 O0]|(e & a & b & He & Hr)]);
      rewrite E0; cbn [bind]; rewrite ?O0, ?He; cbn [bind];
      [| right; exists e, a, b; split; [reflexivity | exact Hr]].
    destruct (Hstep 1%nat ltac:(lia)) as (c1 & d1 & E1 & [[r1 O1]|(e & a & b & He & Hr)]);
      rewrite E1; cbn [bind]; rewrite ?O1, ?He; cbn [bind];
      [| right; exists e, a, b; split; [reflexivity | exact Hr]].
    destruct (Hstep 2%nat ltac:(lia)) as (c2 & d2 & E2 & [[r2 O2]|(e & a & b & He & Hr)]);
      rewrite E2; cbn [bind]; rewrite ?O2, ?He; cbn [bind];
      [| right; exists e, a, b; split; [reflexivity | exact Hr]].
    destruct (Hstep 3%nat ltac:(lia)) as (c3 & d3 & E3 & [[r3 O3]|(e & a & b & He & Hr)]);
      rewrite E3; cbn [bind]; rewrite ?O3, ?He; cbn [bind];
      [| right; exists e, a, b; split; [reflexivity | exact Hr]].
    left. eauto.
Qed.

(** Colours along the recursion. *)
Lemma expand_children_colours (k : nat) (node c : QuadTreeNode)
    (l : list QuadTreeNode) :
  shaped floor_rule node ->
  Forall (byte_colour k) (leaves node) ->
  children (expand_if_leaf node) = Some l -> In c l ->
  Forall (byte_colour k) (leaves c).
Proof.
  intros Hs Hg Hch Hin.
  destruct Hs as [x0 y0 w h pv|x0 y0 w h nw ne sw se _ Snw Sne Ssw Sse].
  - unfold expand_if_leaf, _expand_leaf_node in Hch. simpl in Hch.
    destruct ((w <=? 1) || (h <=? 1)); simpl in Hch; [discriminate |].
    injection Hch as <-. simpl in Hg.
    apply Forall_inv in Hg. destruct Hg as (c0 & pv0 & Hpv & Hlen & Hb).
    simpl in Hpv. injection Hpv as ->.
    simpl in Hin.
    destruct Hin as [<-|[<-|[<-|[<-|[]]]]]; simpl;
      (constructor; [| constructor]); exists c0, pv0; auto.
  - unfold expand_if_leaf in Hch. simpl in Hch. injection Hch as <-.
    rewrite leaves_internal in Hg.
    apply Forall_app in Hg. destruct Hg as [G0 Hg].
    apply Forall_app in Hg. destruct Hg as [G1 Hg].
    apply Forall_app in Hg. destruct Hg as [G2 G3].
    simpl in Hin. destruct Hin as [<-|[<-|[<-|[<-|[]]]]]; assumption.
Qed.

Lemma visits_colours (k1 k2 : nat) (node1 node2 a b : QuadTreeNode) :
  aligned node1 node2 ->
  Forall (byte_colour k1) (leaves node1) ->
  Forall (byte_colour k2) (leaves node2) ->
  visits node1 node2 a b ->
  Forall (byte_colour k1) (leaves a) /\ Forall (byte_colour k2) (leaves b).
Proof.
  intros Hal G1 G2 Hv.
  induction Hv as [|a b i c d Hv [IHa IHb] Hl Hi Hc]; [auto |].
  pose proof (visits_aligned _ _ _ _ Hal Hv) as (Sa & Sb & _).
  apply child_pair_Ok in Hc. destruct Hc as [Hc Hd].
  unfold children_or_empty in Hc, Hd.
  destruct (children (expand_if_leaf a)) as [la|] eqn:Ea;
    [| destruct i; discriminate].
  destruct (children (expand_if_leaf b)) as [lb|] eqn:Eb;
    [| destruct i; discriminate].
  apply getitem_Ok_In in Hc, Hd. split.
  - exact (expand_children_colours k1 a c la Sa IHa Ea Hc).
  - exact (expand_children_colours k2 b d lb Sb IHb Eb Hd).
Qed.

Section OverlayBuilt.

Context {np_std : NumpyStd}.

Lemma QuadTree_init_colours (image : ndarray) (thr : Z) (t : QuadTree) :
  byte_raster image -> QuadTree_init image thr = Ok t ->
  Forall (byte_colour (Z.to_nat (depth image))) (leaves (root t)).
Proof.
  intros Hb Ht. apply QuadTree_init_Ok in Ht. destruct Ht as (Ht & _).
  pose proof (_build_tree_colours _ _ _ _ _ _ _ Hb Ht) as Hc.
  eapply Forall_impl; [| exact Hc]. cbv beta.
  intros leaf (pv & Hpv & Hfit). unfold byte_colour.
  destruct image as [H W px|H W C px]; simpl in Hfit |- *.
  - destruct Hfit as (v & -> & Hv). exists v, [v; v]. auto 10.
  - destruct Hfit as (Hlen & HC & Hbytes).
    destruct pv as [|c pv]; [simpl in Hlen; lia |].
    exists c, pv. repeat split; try assumption. rewrite <- Hlen.
    rewrite Nat2Z.id. reflexivity.
Qed.

Section BuiltPair.

Variables (image1 image2 : ndarray) (thr1 thr2 : Z) (t1 t2 : QuadTree).
Hypothesis built1 : QuadTree_init image1 thr1 = Ok t1.
Hypothesis built2 : QuadTree_init image2 thr2 = Ok t2.
Hypothesis same_rows : rows image1 = rows image2.
Hypothesis same_cols : cols image1 = cols image2.

Lemma built_roots_aligned : aligned (root t1) (root t2).
Proof.
  pose proof (QuadTree_init_shaped _ _ _ built1) as (S1 & R1 & _).
  pose proof (QuadTree_init_shaped _ _ _ built2) as (S2 & R2 & _).
  repeat split; try assumption.
  rewrite R1, R2, same_rows, same_cols. reflexivity.
Qed.

(** If the overlay of the two trees raises, the combination of the colours
    of two leaves it reached raised. *)
Lemma overlay_raises_at_leaves (operation : string) (alpha : float) (e : exn) :
  overlay t1 t2 operation alpha = Raise e ->
  exists a b,
    visits (root t1) (root t2) a b
    /\ is_leaf a && is_leaf b = true
    /\ _apply_overlay_operation (pixel_or_black (pixel_value a))
                                (pixel_or_black (pixel_value b))
                                operation alpha = Raise e.
Proof.
  intros He. unfold overlay in He.
  destruct (_overlay_recursive_aligned operation alpha _ _ built_roots_aligned)
    as [[r Hr]|(e' & a & b & Hr & Hv & Hl & Hc)];
    rewrite Hr in He; simpl in He; [discriminate |].
  injection He as <-. eauto.
Qed.

(** On rasters of bytes with the same number of channels, and for alpha in
    [0, 1], the overlay of the two trees returns. *)
Lemma overlay_built_returns (operation : string) (alpha : float) :
  byte_raster image1 -> byte_raster image2 ->
  depth image1 = depth image2 ->
  (0 <=? alpha)%float = true -> (alpha <=? 1)%float = true ->
  exists t, overlay t1 t2 operation alpha = Ok t.
Proof.
  intros B1 B2 Hd Ha0 Ha1.
  destruct (overlay t1 t2 operation alpha) as [t|e] eqn:Ho; [eauto | exfalso].
  destruct (overlay_raises_at_leaves _ _ _ Ho) as (a & b & Hv & Hl & Hc).
  pose proof (QuadTree_init_colours _ _ _ B1 built1) as G1.
  pose proof (QuadTree_init_colours _ _ _ B2 built2) as G2.
  rewrite <- Hd in G2.
  destruct (visits_colours _ _ _ _ _ _ built_roots_aligned G1 G2 Hv) as [Ga Gb].
  apply andb_true_iff in Hl. destruct Hl as [La Lb].
  destruct a as [ax ay aw ah al apv ach], b as [bx by' bw bh bl bpv bch].
  simpl in La, Lb. subst al bl. simpl in Ga, Gb, Hc.
  apply Forall_inv in Ga, Gb.
  destruct Ga as (ca & pa & Epa & Lena & Bytes_a).
  destruct Gb as (cb & pb & Epb & Lenb & Bytes_b).
  simpl in Epa, Epb. subst apv bpv. simpl in Hc.
  destruct (_apply_overlay_operation_returns operation alpha (ca :: pa) (cb :: pb))
    as [color Hok]; try assumption; [congruence |].
  rewrite Hok in Hc. discriminate.
Qed.

End BuiltPair.

(** C10. For two trees built over rasters of the same height and width,
    every pair of nodes the overlay recursion reaches covers one region; a
    leaf too small to expand is never paired with an internal node; when the
    two nodes are not both leaves, the nodes the recursion continues with
    are internal and each of the four positions holds a child on both
    sides.  So the recursion never fails on a missing child: if [overlay]
    raises, the exception is the one raised by the combination of the
    colours of two leaves.  On rasters of bytes with the same number of
    channels and alpha in [0, 1], [overlay] returns a tree. *)
Theorem overlay_recursion_total (image1 image2 : ndarray) (thr1 thr2 : Z)
    (t1 t2 : QuadTree) (operation : string) (alpha : float) :
  QuadTree_init image1 thr1 = Ok t1 ->
  QuadTree_init image2 thr2 = Ok t2 ->
  rows image1 = rows image2 -> cols image1 = cols image2 ->
  (forall a b, visits (root t1) (root t2) a b ->
     region_of a = region_of b
     /\ ~ (is_leaf a = true /\ minimal a = true /\ is_leaf b = false)
     /\ ~ (is_leaf b = true /\ minimal b = true /\ is_leaf a = false)
     /\ (is_leaf a && is_leaf b = false ->
         is_leaf (expand_if_leaf a) = false
         /\ is_leaf (expand_if_leaf b) = false
         /\ forall i, (i < 4)%nat ->
              exists c d,
                child_pair (expand_if_leaf a) (expand_if_leaf b) i = Ok (c, d)))
  /\ (forall e, overlay t1 t2 operation alpha = Raise e ->
        (e = ValueError \/ e = OverflowError)
        /\ exists a b,
             visits (root t1) (root t2) a b
             /\ is_leaf a && is_leaf b = true
             /\ _apply_overlay_operation (pixel_or_black (pixel_value a))
                                         (pixel_or_black (pixel_value b))
                                         operation alpha = Raise e)
  /\ (byte_raster image1 -> byte_raster image2 ->
      depth image1 = depth image2 ->
      (0 <=? alpha)%float = true -> (alpha <=? 1)%float = true ->
      exists t, overlay t1 t2 operation alpha = Ok t).
Proof.
  intros H1 H2 Hrows Hcols.
  pose proof (built_roots_aligned _ _ _ _ _ _ H1 H2 Hrows Hcols) as Hal.
  split; [| split].
  - intros a b Hv. pose proof (visits_aligned _ _ _ _ Hal Hv) as Hab.
    assert (Hmin : is_leaf a && is_leaf b = false ->
                   minimal a = false /\ minimal b = false).
    { intros Hl. destruct (aligned_internal a b Hab Hl) as (? & ? & ? & ?).
      unfold minimal. split; apply orb_false_intro; apply Z.leb_gt; assumption. }
    split; [apply Hab |]. split; [| split].
    + intros (La & Ma & Lb). destruct Hmin as [Hm _]; [| congruence].
      rewrite La, Lb. reflexivity.
    + intros (Lb & Mb & La). destruct Hmin as [_ Hm]; [| congruence].
      rewrite La. reflexivity.
    + intros Hl. destruct (aligned_internal a b Hab Hl) as (Wa & Ha & Wb & Hb).
      pose proof Hab as (Sa & Sb & _).
      destruct (expand_if_leaf_children a Sa Wa Ha) as (? & ? & ? & ? & _ & La & _).
      destruct (expand_if_leaf_children b Sb Wb Hb) as (? & ? & ? & ? & _ & Lb & _).
      split; [exact La |]. split; [exact Lb |].
      intros i Hi.
      destruct (aligned_child_pair a b i Hab Hl Hi) as (c & d & Hc & _).
      eauto.
  - intros e He.
    destruct (overlay_raises_at_leaves _ _ _ _ _ _ H1 H2 Hrows Hcols _ _ _ He)
      as (a & b & Hv & Hl & Hc).
    split; [eapply _apply_overlay_operation_Raise; exact Hc | eauto].
  - apply (overlay_built_returns _ _ _ _ _ _ H1 H2 Hrows Hcols).
Qed.

End OverlayBuilt.

(** ** Summary fields of an overlay *)

(** C7 (amended). Every tree [overlay] returns has the threshold and the
    source shape of the first operand, and its stored compression ratio is
    (A.compression_ratio + B.compression_ratio) / 2: the inputs' figures are
    carried forward, nothing is computed from the merged tree.  For two
    trees built over rasters of bytes of the same height, width and number
    of channels (their root regions are then equal) and alpha in [0, 1],
    [overlay] does return such a tree. *)
Theorem overlay_summary_fields (A B : QuadTree) (operation : string)
    (alpha : float) :
  (forall T, overlay A B operation alpha = Ok T ->
     threshold T = threshold A
     /\ original_shape T = original_shape A
     /\ compression_ratio T
        = ((compression_ratio A + compression_ratio B) / float_of_Z 2)%float)
  /\ (forall (np_std : NumpyStd) image1 image2 thr1 thr2,
        QuadTree_init image1 thr1 = Ok A ->
        QuadTree_init image2 thr2 = Ok B ->
        rows image1 = rows image2 -> cols image1 = cols image2 ->
        byte_raster image1 -> byte_raster image2 ->
        depth image1 = depth image2 ->
        (0 <=? alpha)%float = true -> (alpha <=? 1)%float = true ->
        region_of (root A) = region_of (root B)
        /\ exists T,
             overlay A B operation alpha = Ok T
             /\ threshold T = threshold A
             /\ original_shape T = original_shape A
             /\ compression_ratio T
                = ((compression_ratio A + compression_ratio B)
                   / float_of_Z 2)%float).
Proof.
  assert (Hfields : forall T, overlay A B operation alpha = Ok T ->
            threshold T = threshold A
            /\ original_shape T = original_shape A
            /\ compression_ratio T
               = ((compression_ratio A + compression_ratio B)
                  / float_of_Z 2)%float).
  { unfold overlay. intros T H. inv_bind H. injection H as <-. auto. }
  split; [exact Hfields |].
  intros np_std image1 image2 thr1 thr2 H1 H2 Hrows Hcols B1 B2 Hd Ha0 Ha1.
  split.
  - apply (built_roots_aligned _ _ _ _ _ _ H1 H2 Hrows Hcols).
  - destruct (overlay_built_returns _ _ _ _ _ _ H1 H2 Hrows Hcols
                operation alpha B1 B2 Hd Ha0 Ha1) as [T HT].
    exists T. split; [exact HT | exact (Hfields T HT)].
Qed.

Lemma raster_red_bytes : byte_raster raster_red.
Proof.
  unfold raster_red, byte_raster, byte.
  split; [lia |]. split; [lia |]. split; [lia |].
  intros r c k _ _ _. destruct (k =? 0); lia.
Defined.

Lemma raster_2x2_bytes : byte_raster raster_2x2.
Proof.
  unfold raster_2x2, byte_raster, byte.
  split; [lia |]. split; [lia |]. split; [lia |].
  intros r c k Hr Hc Hk. lia.
Defined.

Lemma overlay_summary_fields_witness :
  threshold overlay_red_2x2 = threshold tree_red
  /\ original_shape overlay_red_2x2 = original_shape tree_red
  /\ compression_ratio overlay_red_2x2
     = ((compression_ratio tree_red + compression_ratio tree_2x2)
        / float_of_Z 2)%float.
Proof.
  apply (proj1 (overlay_summary_fields tree_red tree_2x2 "blend" 0.5%float)).
  vm_compute. reflexivity.
Defined.

(** C7, counterexample.  Equal root regions are not enough for [overlay]
    to return: the tree of a raster three pixels wide and its horizontal
    flip cover the same region, but the flip puts the wider quadrants on
    the left, the recursion pairs the leaf (0, 0, 1, 2) with the internal
    node (0, 0, 2, 2), and the leaf, too narrow to expand, has no child at
    position 0. *)
Lemma overlay_of_flipped_raises :
  QuadTree_init raster_3x4 0 = Ok tree_3x4
  /\ flip_horizontal tree_3x4 = Ok flipped_3x4
  /\ region_of (root tree_3x4) = region_of (root flipped_3x4)
  /\ overlay tree_3x4 flipped_3x4 "blend" 0.5%float = Raise IndexError.
Proof. repeat split; vm_compute; reflexivity. Qed.

(** The stored ratio is not the ratio of the merged tree: overlaying the
    one-leaf red tree (ratio 75) and the five-node tree (ratio -25), whose
    roots cover the same region, stores 25, while the merged tree has five
    nodes for four pixels, which would give -25. *)
Example overlay_ratio_not_recomputed :
  region_of (root tree_red) = region_of (root tree_2x2)
  /\ overlay tree_red tree_2x2 "blend" 0.5%float = Ok overlay_red_2x2
  /\ compression_ratio overlay_red_2x2 = 25%float
  /\ _calculate_compression_ratio (original_shape overlay_red_2x2)
                                  (root overlay_red_2x2)
     = Ok (-25)%float.
Proof. repeat split. Qed.

Lemma overlay_recursion_total_witness :
  (exists c d,
      child_pair (expand_if_leaf (root tree_red))
                 (expand_if_leaf (root tree_2x2)) 0 = Ok (c, d))
  /\ exists t, overlay tree_red tree_2x2 "blend" 0.5%float = Ok t.
Proof.
  assert (H1 : QuadTree_init raster_red 10 = Ok tree_red)
    by (vm_compute; reflexivity).
  assert (H2 : QuadTree_init raster_2x2 0 = Ok tree_2x2)
    by (vm_compute; reflexivity).
  destruct (overlay_recursion_total raster_red raster_2x2 10 0
              tree_red tree_2x2 "blend" 0.5%float
              H1 H2 eq_refl eq_refl) as (Hv & _ & Hok).
  split.
  - destruct (Hv _ _ (visits_here _ _)) as (_ & _ & _ & Hc).
    apply Hc; [reflexivity | lia].
  - apply Hok; try reflexivity.
    + exact raster_red_bytes.
    + exact raster_2x2_bytes.
Defined.

(** * Further properties *)

(** ** Construction returns on non-empty rasters *)

Lemma axis_index_in_range (n i : Z) : 0 <= i < n -> axis_index n i = Ok i.
Proof.
  intros Hi. unfold axis_index.
  assert (E : (0 <=? i) && (i <? n) = true)
    by (rewrite andb_true_iff, Z.leb_le, Z.ltb_lt; lia).
  rewrite E. reflexivity.
Qed.

Lemma axis_index_Raise (n i : Z) (e : exn) :
  axis_index n i = Raise e -> e = IndexError.
Proof.
  unfold axis_index.
  destruct ((0 <=? i) && (i <? n)); [discriminate |].
  destruct ((- n <=? i) && (i <? 0)); [discriminate |].
  intros [= <-]. reflexivity.
Qed.

Lemma pixel_list_in_range (image : ndarray) (y x : Z) :
  0 <= y < rows image -> 0 <= x < cols image ->
  exists pv, pixel_list image y x = Ok pv.
Proof.
  intros Hy Hx. destruct image as [H W px|H W C px]; simpl in *;
    rewrite !axis_index_in_range by assumption; simpl; eauto.
Qed.

Lemma slice_indices_in_range (n start len : Z) :
  0 <= start -> 0 <= len -> start + len <= n ->
  slice_indices n start (start + len) = zrange start (start + len).
Proof.
  intros Hs Hl Hn. unfold slice_indices, slice_bound.
  assert (E1 : (start <? 0) = false) by (apply Z.ltb_ge; lia).
  assert (E2 : (start + len <? 0) = false) by (apply Z.ltb_ge; lia).
  rewrite E1, E2. f_equal; lia.
Qed.

Lemma mapM_total {A B : Type} (f : A -> result B) (l : list A) :
  (forall a, In a l -> exists b, f a = Ok b) -> exists bs, mapM f l = Ok bs.
Proof.
  induction l as [|a l IH]; intros H; simpl; [eauto |].
  destruct (H a (or_introl eq_refl)) as [b ->].
  destruct IH as [bs ->]; [intros; apply H; right; assumption |].
  simpl. eauto.
Qed.

Lemma region_count_in_range (H W x y w h : Z) :
  0 <= x -> 0 < w -> x + w <= W -> 0 <= y -> 0 < h -> y + h <= H ->
  region_count (slice_indices H y (y + h)) (slice_indices W x (x + w)) = h * w.
Proof.
  intros. unfold region_count.
  rewrite !slice_indices_in_range, !zrange_length by lia.
  rewrite !Z2Nat.id by lia. f_equal; lia.
Qed.

Section BuildTotal.

Context {np_std : NumpyStd}.

Lemma _get_average_color_in_range (image : ndarray) (x y w h : Z) :
  0 <= x -> 0 < w -> x + w <= cols image ->
  0 <= y -> 0 < h -> y + h <= rows image ->
  exists pv, _get_average_color image x y w h = Ok pv.
Proof.
  intros Hx Hw Hxw Hy Hh Hyh.
  destruct image as [H W px|H W C px]; simpl in *.
  - unfold int_mean. rewrite region_count_in_range by assumption.
    assert (E : (h * w =? 0) = false) by (apply Z.eqb_neq; nia).
    rewrite E. simpl. eauto.
  - apply mapM_total. intros k _. unfold int_mean.
    rewrite region_count_in_range by assumption.
    assert (E : (h * w =? 0) = false) by (apply Z.eqb_neq; nia).
    rewrite E. eauto.
Qed.

Lemma _build_tree_in_range (thr : Z) (image : ndarray) (x y w h : Z) :
  0 <= x -> 0 < w -> x + w <= cols image ->
  0 <= y -> 0 < h -> y + h <= rows image ->
  exists node, _build_tree thr image x y w h = Ok node.
Proof.
  remember (Z.to_nat w) as k eqn:Hk.
  revert x y w h Hk.
  induction k as [k IH] using lt_wf_ind.
  intros x0 y0 w h Hk Hx Hw Hxw Hy Hh Hyh.
  rewrite _build_tree_eq.
  destruct ((w <=? 1) || (h <=? 1)) eqn:Hsmall.
  - destruct (pixel_list_in_range image y0 x0) as [pv ->]; [lia | lia |].
    simpl. eauto.
  - destruct (_is_homogeneous thr image x0 y0 w h).
    + destruct (_get_average_color_in_range image x0 y0 w h) as [pv ->];
        try assumption. simpl. eauto.
    + cbv zeta.
      apply orb_false_elim in Hsmall. destruct Hsmall as [Hw1 Hh1].
      apply Z.leb_gt in Hw1, Hh1.
      assert (Hlo : (Z.to_nat (w / 2) < k)%nat) by (subst k; apply Z2Nat.inj_lt; zdiv).
      assert (Hhi : (Z.to_nat (w - w / 2) < k)%nat) by (subst k; apply Z2Nat.inj_lt; zdiv).
      destruct (IH _ Hlo x0 y0 (w / 2) (h / 2) eq_refl) as [nw ->]; try zdiv.
      destruct (IH _ Hhi (x0 + w / 2) y0 (w - w / 2) (h / 2) eq_refl) as [ne ->];
        try zdiv.
      destruct (IH _ Hlo x0 (y0 + h / 2) (w / 2) (h - h / 2) eq_refl) as [sw ->];
        try zdiv.
      destruct (IH _ Hhi (x0 + w / 2) (y0 + h / 2) (w - w / 2) (h - h / 2) eq_refl)
        as [se ->]; try zdiv.
      simpl. eauto.
Qed.

Lemma QuadTree_init_in_range (image : ndarray) (thr : Z) :
  0 < rows image -> 0 < cols image ->
  exists t,
    QuadTree_init image thr = Ok t
    /\ threshold t = thr
    /\ original_shape t = shape image
    /\ region_of (root t) = mkRegion 0 0 (cols image) (rows image).
Proof.
  intros Hr Hc.
  destruct (_build_tree_in_range thr image 0 0 (cols image) (rows image))
    as [node Hnode]; try lia.
  unfold QuadTree_init, _calculate_compression_ratio.
  assert (Hw : getitem (shape image) 1 = Ok (cols image)) by (destruct image; reflexivity).
  assert (Hh : getitem (shape image) 0 = Ok (rows image)) by (destruct image; reflexivity).
  rewrite Hw, Hh. cbn [bind]. rewrite Hnode. cbn [bind].
  assert (E : (rows image * cols image =? 0) = false) by (apply Z.eqb_neq; nia).
  rewrite E. eexists. split; [reflexivity |]. simpl.
  repeat split.
  apply _build_tree_shaped in Hnode. apply Hnode.
Qed.

(** X1. [QuadTree(image, threshold)] returns a tree for every raster of
    bytes with at least one row and one column, whatever the threshold and
    the outcome of the homogeneity tests: no pixel access is out of range,
    no average is taken over an empty region and the ratio never divides
    by zero.  The tree stores the threshold and the shape of the raster,
    and its root covers the whole raster. *)
Theorem QuadTree_init_returns (image : ndarray) (thr : Z) :
  byte_raster image -> 0 < rows image -> 0 < cols image ->
  exists t,
    QuadTree_init image thr = Ok t
    /\ threshold t = thr
    /\ original_shape t = shape image
    /\ region_of (root t) = mkRegion 0 0 (cols image) (rows image).
Proof.
  intros _. apply QuadTree_init_in_range.
Qed.

(** X2. On a raster without rows or without columns the constructor raises
    [IndexError]: the region is a forced leaf and its corner pixel
    [image[0, 0]] does not exist. *)
Theorem QuadTree_init_empty (image : ndarray) (thr : Z) :
  0 <= rows image -> 0 <= cols image ->
  rows image = 0 \/ cols image = 0 ->
  QuadTree_init image thr = Raise IndexError.
Proof.
  intros Hr Hc Hempty.
  unfold QuadTree_init.
  assert (Hw : getitem (shape image) 1 = Ok (cols image)) by (destruct image; reflexivity).
  assert (Hh : getitem (shape image) 0 = Ok (rows image)) by (destruct image; reflexivity).
  rewrite Hw, Hh. cbn [bind]. rewrite _build_tree_eq.
  assert (Hsmall : (cols image <=? 1) || (rows image <=? 1) = true).
  { apply orb_true_iff. rewrite !Z.leb_le. lia. }
  rewrite Hsmall.
  assert (Hpix : pixel_list image 0 0 = Raise IndexError).
  { assert (E0 : axis_index 0 0 = Raise IndexError) by reflexivity.
    destruct image as [H W px|H W C px]; simpl in *;
      (destruct Hempty as [-> | ->]; rewrite E0; [reflexivity |];
       destruct (axis_index H 0) as [r|e] eqn:E; [reflexivity |];
       apply axis_index_Raise in E; subst e; reflexivity). }
  rewrite Hpix. reflexivity.
Qed.

End BuildTotal.

(** ** Node counts *)

Lemma _count_nodes_internal (x0 y0 w h : Z) (pv : option (list Z))
    (nw ne sw se : QuadTreeNode) :
  _count_nodes (mkNode x0 y0 w h false pv (Some [nw; ne; sw; se]))
  = 1 + (_count_nodes nw + _count_nodes ne + _count_nodes sw + _count_nodes se).
Proof.
  cbn [_count_nodes is_leaf children map]. unfold zsum.
  cbn [fold_right]. lia.
Qed.

Lemma shaped_counts (rule : region -> list region -> Prop) (node : QuadTreeNode) :
  shaped rule node ->
  exists k, 0 <= k
            /\ _count_nodes node = 4 * k + 1
            /\ Z.of_nat (List.length (leaves node)) = 3 * k + 1.
Proof.
  induction 1 as [x0 y0 w h pv
                 |x0 y0 w h nw ne sw se Hr Hnw IHnw Hne IHne Hsw IHsw Hse IHse].
  - exists 0. simpl. lia.
  - destruct IHnw as (k0 & P0 & C0 & L0), IHne as (k1 & P1 & C1 & L1),
             IHsw as (k2 & P2 & C2 & L2), IHse as (k3 & P3 & C3 & L3).
    exists (k0 + k1 + k2 + k3 + 1).
    rewrite _count_nodes_internal, leaves_internal, !length_app, !Nat2Z.inj_add.
    lia.
Qed.

Lemma quadrant_areas (w h : Z) :
  w * h = w / 2 * (h / 2) + (w - w / 2) * (h / 2)
          + w / 2 * (h - h / 2) + (w - w / 2) * (h - h / 2).
Proof. ring. Qed.

Lemma floor_leaves_area (node : QuadTreeNode) :
  shaped floor_rule node -> 0 < width node -> 0 < height node ->
  Z.of_nat (List.length (leaves node)) <= width node * height node.
Proof.
  induction 1 as [x0 y0 w h pv
                 |x0 y0 w h nw ne sw se Hr Hnw IHnw Hne IHne Hsw IHsw Hse IHse];
    simpl width; simpl height; intros Hw Hh.
  - simpl. nia.
  - rewrite leaves_internal, !length_app, !Nat2Z.inj_add.
    destruct Hr as (Hw1 & Hh1 & Hq). simpl in Hw1, Hh1.
    unfold quadrants, region_of in Hq. simpl in Hq.
    injection Hq; intros.
    assert (A0 : 0 < width nw /\ 0 < height nw) by (split; zdiv).
    assert (A1 : 0 < width ne /\ 0 < height ne) by (split; zdiv).
    assert (A2 : 0 < width sw /\ 0 < height sw) by (split; zdiv).
    assert (A3 : 0 < width se /\ 0 < height se) by (split; zdiv).
    specialize (IHnw (proj1 A0) (proj2 A0)).
    specialize (IHne (proj1 A1) (proj2 A1)).
    specialize (IHsw (proj1 A2) (proj2 A2)).
    specialize (IHse (proj1 A3) (proj2 A3)).
    rewrite (quadrant_areas w h).
    replace (width nw) with (w / 2) in IHnw by congruence.
    replace (height nw) with (h / 2) in IHnw by congruence.
    replace (width ne) with (w - w / 2) in IHne by congruence.
    replace (height ne) with (h / 2) in IHne by congruence.
    replace (width sw) with (w / 2) in IHsw by congruence.
    replace (height sw) with (h - h / 2) in IHsw by congruence.
    replace (width se) with (w - w / 2) in IHse by congruence.
    replace (height se) with (h - h / 2) in IHse by congruence.
    lia.
Qed.

Section Counts.

Context {np_std : NumpyStd}.

(** X3. A built tree has 4k + 1 nodes, 3k + 1 of them leaves, and no more
    leaves than the raster has pixels; so the node count is at most
    (4 * pixels - 1) / 3. *)
Theorem built_node_count (image : ndarray) (thr : Z) (t : QuadTree) :
  QuadTree_init image thr = Ok t ->
  exists k,
    0 <= k
    /\ _count_nodes (root t) = 4 * k + 1
    /\ Z.of_nat (List.length (leaves (root t))) = 3 * k + 1
    /\ 3 * k + 1 <= rows image * cols image
    /\ 3 * _count_nodes (root t) + 1 <= 4 * (rows image * cols image).
Proof.
  intros Hinit.
  destruct (QuadTree_init_positive _ _ _ Hinit) as [Hrows Hcols].
  destruct (QuadTree_init_shaped _ _ _ Hinit) as (Hs & Hreg & _).
  destruct (shaped_counts _ _ Hs) as (k & Hk & Hc & Hl).
  assert (Hw : width (root t) = cols image) by (apply (f_equal rw) in Hreg; exact Hreg).
  assert (Hh : height (root t) = rows image) by (apply (f_equal rh) in Hreg; exact Hreg).
  pose proof (floor_leaves_area _ Hs) as Ha. rewrite Hw, Hh in Ha.
  specialize (Ha Hcols Hrows).
  exists k. repeat split; lia.
Qed.

End Counts.

(** ** Flips: structure *)

Lemma flip_horizontal_count (rule : region -> list region -> Prop)
    (original_shape : list Z) (node node' : QuadTreeNode) :
  shaped rule node ->
  _flip_horizontal_recursive original_shape node = Ok node' ->
  _count_nodes node' = _count_nodes node.
Proof.
  intros Hs. revert node'.
  induction Hs as [x0 y0 w h pv
                  |x0 y0 w h nw ne sw se Hr Hnw IHnw Hne IHne Hsw IHsw Hse IHse];
    intros node' Hf.
  - simpl in Hf. inv_bind Hf. injection Hf as <-. reflexivity.
  - cbn -[getitem] in Hf.
    inv_bind Hf. inv_bind Hf. inv_bind Hf. inv_bind Hf. inv_bind Hf.
    injection Hf as <-.
    rewrite !_count_nodes_internal.
    rewrite (IHne _ Hv), (IHnw _ Hv0), (IHse _ Hv1), (IHsw _ Hv2). lia.
Qed.

Lemma flip_vertical_count (rule : region -> list region -> Prop)
    (original_shape : list Z) (node node' : QuadTreeNode) :
  shaped rule node ->
  _flip_vertical_recursive original_shape node = Ok node' ->
  _count_nodes node' = _count_nodes node.
Proof.
  intros Hs. revert node'.
  induction Hs as [x0 y0 w h pv
                  |x0 y0 w h nw ne sw se Hr Hnw IHnw Hne IHne Hsw IHsw Hse IHse];
    intros node' Hf.
  - simpl in Hf. inv_bind Hf. injection Hf as <-. reflexivity.
  - cbn -[getitem] in Hf.
    inv_bind Hf. inv_bind Hf. inv_bind Hf. inv_bind Hf. inv_bind Hf.
    injection Hf as <-.
    rewrite !_count_nodes_internal.
    rewrite (IHsw _ Hv), (IHse _ Hv0), (IHnw _ Hv1), (IHne _ Hv2). lia.
Qed.

Lemma _calculate_compression_ratio_count (dims : list Z) (a b : QuadTreeNode) :
  _count_nodes a = _count_nodes b ->
  _calculate_compression_ratio dims a = _calculate_compression_ratio dims b.
Proof.
  intros H. unfold _calculate_compression_ratio. rewrite H. reflexivity.
Qed.

Section FlipStats.

Context {np_std : NumpyStd}.

Lemma flip_horizontal_summary (t t' : QuadTree) :
  shaped tiles (root t) -> flip_horizontal t = Ok t' -> same_summary t t'.
Proof.
  intros Hs Hf. unfold flip_horizontal in Hf. inv_bind Hf. injection Hf as <-.
  assert (Hc : _count_nodes v = _count_nodes (root t))
    by (eapply flip_horizontal_count; eauto).
  unfold same_summary. simpl. repeat split; try assumption.
  apply _calculate_compression_ratio_count. exact Hc.
Qed.

Lemma flip_vertical_summary (t t' : QuadTree) :
  shaped tiles (root t) -> flip_vertical t = Ok t' -> same_summary t t'.
Proof.
  intros Hs Hf. unfold flip_vertical in Hf. inv_bind Hf. injection Hf as <-.
  assert (Hc : _count_nodes v = _count_nodes (root t))
    by (eapply flip_vertical_count; eauto).
  unfold same_summary. simpl. repeat split; try assumption.
  apply _calculate_compression_ratio_count. exact Hc.
Qed.

(** X6. Both flips return on every tree the core produces, and the tree
    they return has the threshold, the source shape, the stored ratio and the
    number of nodes of the original; [_calculate_compression_ratio] gives
    the same result on both. *)
Theorem flip_keeps_summary (t : QuadTree) :
  produced t ->
  exists th tv,
    flip_horizontal t = Ok th /\ flip_vertical t = Ok tv
    /\ same_summary t th /\ same_summary t tv.
Proof.
  intros Hp. apply produced_shaped in Hp.
  destruct Hp as (Hs & H & W & HH & HW).
  destruct (flip_horizontal_shaped tiles _ _ _ HW Hs) as (nh & Hnh & _).
  destruct (flip_vertical_shaped tiles _ _ _ HH Hs) as (nv & Hnv & _).
  assert (Eh : flip_horizontal t
               = Ok (mkTree (threshold t) (original_shape t) nh
                            (compression_ratio t)))
    by (unfold flip_horizontal; rewrite Hnh; reflexivity).
  assert (Ev : flip_vertical t
               = Ok (mkTree (threshold t) (original_shape t) nv
                            (compression_ratio t)))
    by (unfold flip_vertical; rewrite Hnv; reflexivity).
  do 2 eexists. split; [exact Eh |]. split; [exact Ev |]. split.
  - exact (flip_horizontal_summary _ _ Hs Eh).
  - exact (flip_vertical_summary _ _ Hs Ev).
Qed.

(** X7. The ratio stored in a flip of a built tree is the ratio
    [_calculate_compression_ratio] computes from the flipped tree itself. *)
Theorem flipped_ratio_is_exact (image : ndarray) (thr : Z) (t : QuadTree) :
  QuadTree_init image thr = Ok t ->
  exists th tv,
    flip_horizontal t = Ok th /\ flip_vertical t = Ok tv
    /\ _calculate_compression_ratio (original_shape th) (root th)
       = Ok (compression_ratio th)
    /\ _calculate_compression_ratio (original_shape tv) (root tv)
       = Ok (compression_ratio tv).
Proof.
  intros Hinit.
  destruct (QuadTree_init_Ok _ _ _ Hinit) as (_ & Hshape & _ & Hratio).
  destruct (QuadTree_init_shaped _ _ _ Hinit) as (Hs0 & _ & HH & HW).
  assert (Hs : shaped tiles (root t))
    by (eapply shaped_mono; [exact floor_rule_tiles | exact Hs0]).
  destruct (flip_horizontal_shaped tiles _ _ _ HW Hs) as (nh & Hnh & _).
  destruct (flip_vertical_shaped tiles _ _ _ HH Hs) as (nv & Hnv & _).
  assert (Eh : flip_horizontal t
               = Ok (mkTree (threshold t) (original_shape t) nh
                            (compression_ratio t)))
    by (unfold flip_horizontal; rewrite Hnh; reflexivity).
  assert (Ev : flip_vertical t
               = Ok (mkTree (threshold t) (original_shape t) nv
                            (compression_ratio t)))
    by (unfold flip_vertical; rewrite Hnv; reflexivity).
  do 2 eexists. split; [exact Eh |]. split; [exact Ev |].
  destruct (flip_horizontal_summary _ _ Hs Eh) as (_ & _ & Rh & _ & Ch).
  destruct (flip_vertical_summary _ _ Hs Ev) as (_ & _ & Rv & _ & Cv).
  rewrite Ch, Cv, Rh, Rv, Hshape. auto.
Qed.

End FlipStats.

Lemma flips_commute_shaped (rule : region -> list region -> Prop)
    (original_shape : list Z) (H W : Z) (node : QuadTreeNode) :
  getitem original_shape 0 = Ok H ->
  getitem original_shape 1 = Ok W ->
  shaped rule node ->
  exists a b c,
    _flip_horizontal_recursive original_shape node = Ok a
    /\ _flip_vertical_recursive original_shape a = Ok c
    /\ _flip_vertical_recursive original_shape node = Ok b
    /\ _flip_horizontal_recursive original_shape b = Ok c.
Proof.
  intros HH HW Hs.
  induction Hs as [x0 y0 w h pv
                  |x0 y0 w h nw ne sw se Hr Hnw IHnw Hne IHne Hsw IHsw Hse IHse].
  - simpl. rewrite HH, HW. simpl. do 3 eexists.
    split; [reflexivity |]. simpl. rewrite HH. simpl.
    split; [reflexivity |]. split; [reflexivity |].
    simpl. rewrite HW. reflexivity.
  - destruct IHnw as (a0 & b0 & c0 & A0 & AC0 & B0 & BC0).
    destruct IHne as (a1 & b1 & c1 & A1 & AC1 & B1 & BC1).
    destruct IHsw as (a2 & b2 & c2 & A2 & AC2 & B2 & BC2).
    destruct IHse as (a3 & b3 & c3 & A3 & AC3 & B3 & BC3).
    cbn -[getitem]. rewrite A0, A1, A2, A3, B0, B1, B2, B3, HH, HW.
    cbn -[getitem]. do 3 eexists.
    split; [reflexivity |].
    cbn -[getitem]. rewrite AC0, AC1, AC2, AC3, HH. cbn -[getitem].
    split; [reflexivity |]. split; [reflexivity |].
    cbn -[getitem]. rewrite BC0, BC1, BC2, BC3, HW. reflexivity.
Qed.

Section FlipsProduced.

Context {np_std : NumpyStd}.

(** X8. On every tree the core produces, the horizontal flip of the
    vertical flip and the vertical flip of the horizontal flip return the
    same tree. *)
Theorem flips_commute (t : QuadTree) :
  produced t ->
  exists a b c,
    flip_horizontal t = Ok a /\ flip_vertical a = Ok c
    /\ flip_vertical t = Ok b /\ flip_horizontal b = Ok c.
Proof.
  intros Hp. apply produced_shaped in Hp.
  destruct Hp as (Hs & H & W & HH & HW).
  destruct (flips_commute_shaped _ _ _ _ _ HH HW Hs)
    as (a & b & c & A & AC & B & BC).
  unfold flip_horizontal, flip_vertical. rewrite A, B. simpl.
  do 3 eexists. split; [reflexivity |]. simpl. rewrite AC. simpl.
  split; [reflexivity |]. split; [reflexivity |].
  simpl. rewrite BC. reflexivity.
Qed.

(** X9. On every tree the core produces (also a flipped one or the result
    of an overlay), each flip returns and flipping the result again gives
    the tree back. *)
Theorem flip_twice_produced (t : QuadTree) :
  produced t ->
  (exists t', flip_horizontal t = Ok t' /\ flip_horizontal t' = Ok t)
  /\ (exists t', flip_vertical t = Ok t' /\ flip_vertical t' = Ok t).
Proof.
  intros Hp. apply produced_shaped in Hp.
  destruct Hp as (Hs & H & W & HH & HW). split.
  - destruct (flip_horizontal_shaped tiles _ _ _ HW Hs) as (n' & Hn' & _ & _ & Hback).
    unfold flip_horizontal. rewrite Hn'. simpl. eexists. split; [reflexivity |].
    simpl. rewrite Hback. simpl. destruct t; reflexivity.
  - destruct (flip_vertical_shaped tiles _ _ _ HH Hs) as (n' & Hn' & _ & _ & Hback).
    unfold flip_vertical. rewrite Hn'. simpl. eexists. split; [reflexivity |].
    simpl. rewrite Hback. simpl. destruct t; reflexivity.
Qed.

End FlipsProduced.

(** ** Renderings of flipped trees *)

Lemma leaves_cover (node : QuadTreeNode) :
  shaped tiles node ->
  forall r c, inside (region_of node) r c ->
    exists leaf, In leaf (leaves node) /\ inside (region_of leaf) r c.
Proof.
  induction 1 as [x0 y0 w h pv
                 |x0 y0 w h nw ne sw se Hr Hnw IHnw Hne IHne Hsw IHsw Hse IHse];
    intros r c Hin.
  - eexists. split; [left; reflexivity | exact Hin].
  - destruct Hr as (_ & _ & Hcov). specialize (Hcov r c Hin).
    rewrite leaves_internal.
    cbn [map] in Hcov.
    repeat match goal with
           | H : Exists _ (_ :: _) |- _ => apply Exists_cons in H; destruct H as [H|H]
           | H : Exists _ [] |- _ => apply Exists_nil in H; destruct H
           end;
      [destruct (IHnw r c Hcov) as (leaf & Hl & Hi)
      |destruct (IHne r c Hcov) as (leaf & Hl & Hi)
      |destruct (IHsw r c Hcov) as (leaf & Hl & Hi)
      |destruct (IHse r c Hcov) as (leaf & Hl & Hi)];
      exists leaf; (split; [| exact Hi]); rewrite !in_app_iff; auto.
Qed.

Lemma to_image_covered (t : QuadTree) (canvas : ndarray) :
  zeros (original_shape t) = Ok canvas ->
  shaped tiles (root t) ->
  region_of (root t) = mkRegion 0 0 (cols canvas) (rows canvas) ->
  Forall (leaf_ok canvas) (leaves (root t)) ->
  exists out,
    to_image t = Ok out /\ same_frame canvas out /\ painted_by (root t) out.
Proof.
  intros Hz Hs Hreg Hok.
  destruct (render_leaves_disjoint _ canvas Hok (leaves_disjoint _ Hs))
    as (out & Hout & Hframe & Hpix).
  exists out. split; [| split].
  - rewrite to_image_leaves, Hz. exact Hout.
  - exact Hframe.
  - intros r c Hr Hc.
    destruct (same_frame_rows_cols _ _ Hframe) as [Er Ec].
    rewrite Er in Hr. rewrite Ec in Hc.
    assert (Hroot : inside (region_of (root t)) r c)
      by (rewrite Hreg; unfold inside; simpl; lia).
    destruct (leaves_cover _ Hs r c Hroot) as (leaf & Hin & Hi).
    rewrite Forall_forall in Hok.
    destruct (Hok leaf Hin) as ((pv & Hpv & _) & _).
    exists leaf, pv.
    split; [exact Hin |]. split; [exact Hi |]. split; [exact Hpv |].
    destruct (Hpix r c Hr Hc) as [Hin' _]. eapply Hin'; eauto.
Qed.

Lemma flip_horizontal_leaves (rule : region -> list region -> Prop)
    (original_shape : list Z) (W : Z) (node node' : QuadTreeNode) :
  getitem original_shape 1 = Ok W ->
  shaped rule node ->
  _flip_horizontal_recursive original_shape node = Ok node' ->
  forall leaf', In leaf' (leaves node') ->
    exists leaf, In leaf (leaves node) /\ leaf' = mirror_leaf_h W leaf.
Proof.
  intros HW Hs. revert node'.
  induction Hs as [x0 y0 w h pv
                  |x0 y0 w h nw ne sw se Hr Hnw IHnw Hne IHne Hsw IHsw Hse IHse];
    intros node' Hf leaf' Hin.
  - simpl in Hf. rewrite HW in Hf. simpl in Hf. injection Hf as <-.
    simpl in Hin. destruct Hin as [<-|[]].
    eexists. split; [left; reflexivity | reflexivity].
  - cbn -[getitem] in Hf.
    inv_bind Hf. inv_bind Hf. inv_bind Hf. inv_bind Hf. inv_bind Hf.
    injection Hf as <-.
    rewrite leaves_internal in Hin |- *. rewrite !in_app_iff in Hin.
    destruct Hin as [Hin|[Hin|[Hin|Hin]]];
      [destruct (IHne _ Hv _ Hin) as (leaf & Hl & ->)
      |destruct (IHnw _ Hv0 _ Hin) as (leaf & Hl & ->)
      |destruct (IHse _ Hv1 _ Hin) as (leaf & Hl & ->)
      |destruct (IHsw _ Hv2 _ Hin) as (leaf & Hl & ->)];
      exists leaf; (split; [| reflexivity]); rewrite !in_app_iff; auto.
Qed.

Lemma flip_vertical_leaves (rule : region -> list region -> Prop)
    (original_shape : list Z) (H : Z) (node node' : QuadTreeNode) :
  getitem original_shape 0 = Ok H ->
  shaped rule node ->
  _flip_vertical_recursive original_shape node = Ok node' ->
  forall leaf', In leaf' (leaves node') ->
    exists leaf, In leaf (leaves node) /\ leaf' = mirror_leaf_v H leaf.
Proof.
  intros HH Hs. revert node'.
  induction Hs as [x0 y0 w h pv
                  |x0 y0 w h nw ne sw se Hr Hnw IHnw Hne IHne Hsw IHsw Hse IHse];
    intros node' Hf leaf' Hin.
  - simpl in Hf. rewrite HH in Hf. simpl in Hf. injection Hf as <-.
    simpl in Hin. destruct Hin as [<-|[]].
    eexists. split; [left; reflexivity | reflexivity].
  - cbn -[getitem] in Hf.
    inv_bind Hf. inv_bind Hf. inv_bind Hf. inv_bind Hf. inv_bind Hf.
    injection Hf as <-.
    rewrite leaves_internal in Hin |- *. rewrite !in_app_iff in Hin.
    destruct Hin as [Hin|[Hin|[Hin|Hin]]];
      [destruct (IHsw _ Hv _ Hin) as (leaf & Hl & ->)
      |destruct (IHse _ Hv0 _ Hin) as (leaf & Hl & ->)
      |destruct (IHnw _ Hv1 _ Hin) as (leaf & Hl & ->)
      |destruct (IHne _ Hv2 _ Hin) as (leaf & Hl & ->)];
      exists leaf; (split; [| reflexivity]); rewrite !in_app_iff; auto.
Qed.

Section RenderFlipped.

Context {np_std : NumpyStd}.

(** The leaves of a tree built over a raster of bytes: a colour that fits,
    a region of positive size inside the raster. *)
Lemma built_leaves (image : ndarray) (thr : Z) (t : QuadTree)
    (leaf : QuadTreeNode) :
  byte_raster image ->
  QuadTree_init image thr = Ok t ->
  In leaf (leaves (root t)) ->
  (exists pv, pixel_value leaf = Some pv /\ colour_fits image pv)
  /\ 0 <= x leaf /\ 0 < width leaf /\ x leaf + width leaf <= cols image
  /\ 0 <= y leaf /\ 0 < height leaf /\ y leaf + height leaf <= rows image.
Proof.
  intros Hbytes Hinit Hin.
  destruct (QuadTree_init_positive _ _ _ Hinit) as [Hrows Hcols].
  destruct (QuadTree_init_shaped _ _ _ Hinit) as (Hs & Hreg & _).
  destruct (QuadTree_init_Ok _ _ _ Hinit) as (Hb & _).
  assert (Htiles : shaped tiles (root t))
    by (eapply shaped_mono; [exact floor_rule_tiles | exact Hs]).
  assert (Hpos : Forall (fun leaf => 0 <= x leaf /\ 0 <= y leaf
                                     /\ 0 < width leaf /\ 0 < height leaf)
                        (leaves (root t))).
  { apply floor_leaves_positive; [exact Hs | | | |];
      injection Hreg; intros; lia. }
  pose proof (_build_tree_colours _ _ _ _ _ _ _ Hbytes Hb) as Hcol.
  rewrite Forall_forall in Hpos, Hcol.
  specialize (Hpos leaf Hin). split; [exact (Hcol leaf Hin) |].
  pose proof (leaves_inside _ _ Htiles Hin (y leaf + height leaf - 1)
                            (x leaf + width leaf - 1)) as Hlast.
  rewrite Hreg in Hlast. unfold inside in Hlast. simpl in Hlast.
  lia.
Qed.

Lemma to_image_built_painted (image : ndarray) (thr : Z) (t : QuadTree) :
  byte_raster image ->
  QuadTree_init image thr = Ok t ->
  exists out,
    to_image t = Ok out /\ same_frame image out /\ painted_by (root t) out.
Proof.
  intros Hbytes Hinit.
  destruct (QuadTree_init_shaped _ _ _ Hinit) as (Hs & Hreg & _).
  destruct (QuadTree_init_Ok _ _ _ Hinit) as (_ & Hshape & _).
  destruct (zeros_byte_raster image Hbytes) as (canvas & Hz & Hframe).
  destruct (same_frame_rows_cols _ _ Hframe) as [Er Ec].
  destruct (to_image_covered t canvas) as (out & Hout & Hf & Hp).
  - rewrite Hshape. exact Hz.
  - eapply shaped_mono; [exact floor_rule_tiles | exact Hs].
  - rewrite Hreg, Er, Ec. reflexivity.
  - apply Forall_forall. intros leaf Hin.
    destruct (built_leaves _ _ _ _ Hbytes Hinit Hin) as ((pv & Hpv & Hfit) & Hpos).
    split; [| lia]. exists pv. split; [exact Hpv |].
    eapply colour_fits_frame; eauto.
  - exists out. split; [exact Hout |]. split; [| exact Hp].
    eapply same_frame_trans; eauto.
Qed.

(** X10. For a tree built over a raster of bytes, the rendering of its
    horizontal flip is the rendering of the tree mirrored left to right:
    the pixel at column c is the pixel at column W - 1 - c.  This is the
    array [ImageProcessor.process_image] and the endpoint [/flip] encode
    for the operation horizontal. *)
Theorem flip_horizontal_renders_mirror (image : ndarray) (thr : Z)
    (t : QuadTree) :
  byte_raster image ->
  QuadTree_init image thr = Ok t ->
  exists t' out out',
    flip_horizontal t = Ok t'
    /\ to_image t = Ok out
    /\ to_image t' = Ok out'
    /\ shape out' = shape out
    /\ (forall r c, 0 <= r < rows image -> 0 <= c < cols image ->
          pixel_list out' r c = pixel_list out r (cols image - 1 - c))
    /\ ImageProcessor_process_image image "flip_horizontal" thr = Ok out'
    /\ flip_image true image "horizontal" thr = Ok out'.
Proof.
  intros Hbytes Hinit.
  destruct (QuadTree_init_shaped _ _ _ Hinit) as (Hs & Hreg & HH & HW).
  destruct (QuadTree_init_Ok _ _ _ Hinit) as (_ & Hshape & _).
  destruct (to_image_built _ _ _ Hbytes Hinit) as (out & Hout & Hsh & Hpix).
  destruct (flip_horizontal_shaped floor_rule _ _ _ HW Hs)
    as (n' & Hn' & Hs' & Hreg' & _).
  destruct (zeros_byte_raster image Hbytes) as (canvas & Hz & Hframe).
  destruct (same_frame_rows_cols _ _ Hframe) as [Er Ec].
  set (t' := mkTree (threshold t) (original_shape t) n' (compression_ratio t)).
  assert (Hleaves : forall leaf', In leaf' (leaves n') ->
            exists leaf, In leaf (leaves (root t)) /\ leaf' = mirror_leaf_h (cols image) leaf).
  { exact (flip_horizontal_leaves _ _ _ _ _ HW Hs Hn'). }
  destruct (to_image_covered t' canvas) as (out' & Hout' & Hf' & Hp').
  - simpl. rewrite Hshape. exact Hz.
  - simpl. eapply shaped_mono; [| exact Hs'].
    intros R rs Hrule. apply (flip_h_of_tiles (cols image)).
    destruct rs as [|a [|b [|c [|d [|? ?]]]]]; simpl in Hrule |- *; try tauto.
    apply floor_rule_tiles. exact Hrule.
  - simpl. rewrite Hreg', Hreg, Er, Ec. unfold mirror_h. simpl. f_equal. lia.
  - simpl. apply Forall_forall. intros leaf' Hin'.
    destruct (Hleaves leaf' Hin') as (leaf & Hin & ->).
    destruct (built_leaves _ _ _ _ Hbytes Hinit Hin) as ((pv & Hpv & Hfit) & Hpos).
    split; [| simpl; lia]. exists pv. simpl. rewrite Hpv. split; [reflexivity |].
    eapply colour_fits_frame; eauto.
  - exists t', out, out'. split.
    { unfold flip_horizontal. rewrite Hn'. reflexivity. }
    split; [exact Hout |]. split; [exact Hout' |]. split.
    { rewrite Hsh, <- (same_frame_shape _ _ Hframe).
      apply same_frame_shape. exact Hf'. }
    assert (Hproc : ImageProcessor_process_image image "flip_horizontal" thr = Ok out').
    { unfold ImageProcessor_process_image. rewrite Hinit. cbn [bind].
      cbn [String.eqb Ascii.eqb Bool.eqb]. unfold flip_horizontal. rewrite Hn'.
      cbn [bind]. exact Hout'. }
    split; [| split; [exact Hproc |]];
      [| unfold flip_image; cbn -[ImageProcessor_process_image];
         rewrite Hproc; reflexivity].
    intros r c Hr Hc.
    destruct (same_frame_rows_cols _ _ Hf') as [Er' Ec'].
    destruct (Hp' r c) as (leaf' & pv' & Hin' & Hi' & Hpv' & Hpx'); [lia | lia |].
    simpl in Hin'.
    destruct (Hleaves leaf' Hin') as (leaf & Hin & ->).
    destruct (built_leaves _ _ _ _ Hbytes Hinit Hin) as ((pv & Hpv & Hfit) & Hpos).
    simpl in Hpv'. rewrite Hpv in Hpv'. simpl in Hpv'. injection Hpv' as <-.
    rewrite Hpx'. symmetry. apply (Hpix leaf pv); try assumption.
    unfold inside, region_of, mirror_leaf_h in Hi' |- *. simpl in Hi' |- *. lia.
Qed.

(** X11. For a tree built over a raster of bytes, the rendering of its
    vertical flip is the rendering of the tree mirrored top to bottom: the
    pixel at row r is the pixel at row H - 1 - r.  This is the array
    [ImageProcessor.process_image] and the endpoint [/flip] encode for the
    operation vertical. *)
Theorem flip_vertical_renders_mirror (image : ndarray) (thr : Z)
    (t : QuadTree) :
  byte_raster image ->
  QuadTree_init image thr = Ok t ->
  exists t' out out',
    flip_vertical t = Ok t'
    /\ to_image t = Ok out
    /\ to_image t' = Ok out'
    /\ shape out' = shape out
    /\ (forall r c, 0 <= r < rows image -> 0 <= c < cols image ->
          pixel_list out' r c = pixel_list out (rows image - 1 - r) c)
    /\ ImageProcessor_process_image image "flip_vertical" thr = Ok out'
    /\ flip_image true image "vertical" thr = Ok out'.
Proof.
  intros Hbytes Hinit.
  destruct (QuadTree_init_shaped _ _ _ Hinit) as (Hs & Hreg & HH & HW).
  destruct (QuadTree_init_Ok _ _ _ Hinit) as (_ & Hshape & _).
  destruct (to_image_built _ _ _ Hbytes Hinit) as (out & Hout & Hsh & Hpix).
  destruct (flip_vertical_shaped floor_rule _ _ _ HH Hs)
    as (n' & Hn' & Hs' & Hreg' & _).
  destruct (zeros_byte_raster image Hbytes) as (canvas & Hz & Hframe).
  destruct (same_frame_rows_cols _ _ Hframe) as [Er Ec].
  set (t' := mkTree (threshold t) (original_shape t) n' (compression_ratio t)).
  assert (Hleaves : forall leaf', In leaf' (leaves n') ->
            exists leaf, In leaf (leaves (root t)) /\ leaf' = mirror_leaf_v (rows image) leaf).
  { exact (flip_vertical_leaves _ _ _ _ _ HH Hs Hn'). }
  destruct (to_image_covered t' canvas) as (out' & Hout' & Hf' & Hp').
  - simpl. rewrite Hshape. exact Hz.
  - simpl. eapply shaped_mono; [| exact Hs'].
    intros R rs Hrule. apply (flip_v_of_tiles (rows image)).
    destruct rs as [|a [|b [|c [|d [|? ?]]]]]; simpl in Hrule |- *; try tauto.
    apply floor_rule_tiles. exact Hrule.
  - simpl. rewrite Hreg', Hreg, Er, Ec. unfold mirror_v. simpl. f_equal. lia.
  - simpl. apply Forall_forall. intros leaf' Hin'.
    destruct (Hleaves leaf' Hin') as (leaf & Hin & ->).
    destruct (built_leaves _ _ _ _ Hbytes Hinit Hin) as ((pv & Hpv & Hfit) & Hpos).
    split; [| simpl; lia]. exists pv. simpl. rewrite Hpv. split; [reflexivity |].
    eapply colour_fits_frame; eauto.
  - exists t', out, out'. split.
    { unfold flip_vertical. rewrite Hn'. reflexivity. }
    split; [exact Hout |]. split; [exact Hout' |]. split.
    { rewrite Hsh, <- (same_frame_shape _ _ Hframe).
      apply same_frame_shape. exact Hf'. }
    assert (Hproc : ImageProcessor_process_image image "flip_vertical" thr = Ok out').
    { unfold ImageProcessor_process_image. rewrite Hinit. cbn [bind].
      cbn [String.eqb Ascii.eqb Bool.eqb]. unfold flip_vertical. rewrite Hn'.
      cbn [bind]. exact Hout'. }
    split; [| split; [exact Hproc |]];
      [| unfold flip_image; cbn -[ImageProcessor_process_image];
         rewrite Hproc; reflexivity].
    intros r c Hr Hc.
    destruct (same_frame_rows_cols _ _ Hf') as [Er' Ec'].
    destruct (Hp' r c) as (leaf' & pv' & Hin' & Hi' & Hpv' & Hpx'); [lia | lia |].
    simpl in Hin'.
    destruct (Hleaves leaf' Hin') as (leaf & Hin & ->).
    destruct (built_leaves _ _ _ _ Hbytes Hinit Hin) as ((pv & Hpv & Hfit) & Hpos).
    simpl in Hpv'. rewrite Hpv in Hpv'. simpl in Hpv'. injection Hpv' as <-.
    rewrite Hpx'. symmetry. apply (Hpix leaf pv); try assumption.
    unfold inside, region_of, mirror_leaf_v in Hi' |- *. simpl in Hi' |- *. lia.
Qed.

End RenderFlipped.

(** ** Renderings of overlays *)

Lemma colour_fits_bytes (image : ndarray) (pv : list Z) :
  colour_fits image pv ->
  Forall byte pv /\ Z.of_nat (List.length pv) = depth image
  /\ pixel_or_black (Some pv) = pv.
Proof.
  destruct image as [H W px|H W C px]; simpl.
  - intros (v & -> & Hv). repeat split; auto.
  - intros (Hlen & HC & Hb). repeat split; auto.
    destruct pv; [simpl in Hlen; lia | reflexivity].
Qed.

(** Two colours that fit a raster combine into one that fits it. *)
Lemma _apply_overlay_operation_fits (image : ndarray) (operation : string)
    (alpha : float) (p1 p2 : list Z) :
  colour_fits image p1 -> colour_fits image p2 ->
  (0 <=? alpha)%float = true -> (alpha <=? 1)%float = true ->
  exists p,
    _apply_overlay_operation p1 p2 operation alpha = Ok p
    /\ colour_fits image p.
Proof.
  intros F1 F2 Ha0 Ha1.
  destruct (colour_fits_bytes _ _ F1) as (B1 & L1 & _).
  destruct (colour_fits_bytes _ _ F2) as (B2 & L2 & _).
  assert (Hlen : List.length p1 = List.length p2) by lia.
  assert (Hentry : forall c1 c2, In (c1, c2) (combine p1 p2) ->
            channel_result operation alpha (c1, c2)
            = Ok (channel_formula operation alpha c1 c2)
            /\ byte (channel_formula operation alpha c1 c2)).
  { intros c1 c2 Hin. destruct (in_combine_bytes _ _ _ _ B1 B2 Hin).
    apply channel_result_formula; assumption. }
  exists (map (fun p => channel_formula operation alpha (fst p) (snd p))
              (combine p1 p2)).
  split.
  - rewrite _apply_overlay_operation_entries, broadcast_same_length
      by assumption.
    cbn [bind]. apply mapM_map. intros [c1 c2] Hin. apply Hentry. exact Hin.
  - destruct image as [H W px|H W C px]; simpl in *.
    + destruct F1 as (v1 & -> & Hv1), F2 as (v2 & -> & Hv2). simpl.
      eexists. split; [reflexivity |].
      apply (Hentry v1 v2). left. reflexivity.
    + destruct F1 as (_ & HC & _).
      rewrite length_map, length_combine, <- Hlen, Nat.min_id.
      repeat split; try assumption.
      apply Forall_forall. intros v Hv. apply in_map_iff in Hv.
      destruct Hv as ([c1 c2] & <- & Hin). apply Hentry. exact Hin.
Qed.

Lemma leaves_of_leaf (node : QuadTreeNode) :
  is_leaf node = true -> leaves node = [node].
Proof.
  destruct node as [x0 y0 w h lf pv ch]. simpl. intros ->. reflexivity.
Qed.

Lemma colour_at_leaf (x0 y0 w h : Z) (pv p : list Z) (r c : Z) :
  colour_at (mkNode x0 y0 w h true (Some pv) None) r c p ->
  inside (mkRegion x0 y0 w h) r c /\ p = pv.
Proof.
  intros (leaf & Hin & Hi & Hpv). simpl in Hin. destruct Hin as [<-|[]].
  simpl in Hpv. injection Hpv as <-. auto.
Qed.

Lemma colour_at_child (x0 y0 w h : Z) (nw ne sw se child : QuadTreeNode)
    (r c : Z) (p : list Z) :
  In child [nw; ne; sw; se] ->
  colour_at child r c p ->
  colour_at (mkNode x0 y0 w h false None (Some [nw; ne; sw; se])) r c p.
Proof.
  intros Hc (leaf & Hin & Hi & Hpv). exists leaf.
  split; [| auto]. rewrite leaves_internal, !in_app_iff.
  simpl in Hc. destruct Hc as [<-|[<-|[<-|[<-|[]]]]]; auto.
Qed.

(** The children the recursion continues with cover the node with the
    node's own colours. *)
Lemma expand_child_colour_at (node child : QuadTreeNode)
    (l : list QuadTreeNode) (r c : Z) (p : list Z) :
  shaped floor_rule node ->
  children (expand_if_leaf node) = Some l -> In child l ->
  colour_at child r c p -> colour_at node r c p.
Proof.
  intros Hs Hch Hin Hcol.
  destruct Hs as [x0 y0 w h pv|x0 y0 w h nw ne sw se _ Snw Sne Ssw Sse].
  - unfold expand_if_leaf, _expand_leaf_node in Hch. simpl in Hch.
    destruct ((w <=? 1) || (h <=? 1)) eqn:Hsmall; simpl in Hch; [discriminate |].
    apply orb_false_elim in Hsmall. destruct Hsmall as [Hw Hh].
    apply Z.leb_gt in Hw, Hh.
    injection Hch as <-.
    exists (mkNode x0 y0 w h true (Some pv) None).
    split; [left; reflexivity |].
    simpl in Hin.
    destruct Hin as [<-|[<-|[<-|[<-|[]]]]];
      apply colour_at_leaf in Hcol; destruct Hcol as [Hi ->];
      (split; [| reflexivity]);
      unfold inside, region_of in Hi |- *; simpl in Hi |- *; zdiv.
  - unfold expand_if_leaf in Hch. simpl in Hch. injection Hch as <-.
    eapply colour_at_child; eauto.
Qed.

Lemma expand_children_fit (image : ndarray) (node child : QuadTreeNode)
    (l : list QuadTreeNode) :
  shaped floor_rule node -> colours_fit image node ->
  children (expand_if_leaf node) = Some l -> In child l ->
  colours_fit image child.
Proof.
  unfold colours_fit. intros Hs Hg Hch Hin.
  destruct Hs as [x0 y0 w h pv|x0 y0 w h nw ne sw se _ Snw Sne Ssw Sse].
  - unfold expand_if_leaf, _expand_leaf_node in Hch. simpl in Hch.
    destruct ((w <=? 1) || (h <=? 1)); simpl in Hch; [discriminate |].
    injection Hch as <-. simpl in Hg.
    apply Forall_inv in Hg. destruct Hg as (pv0 & Hpv & Hfit).
    simpl in Hpv. injection Hpv as ->.
    simpl in Hin.
    destruct Hin as [<-|[<-|[<-|[<-|[]]]]]; simpl;
      (constructor; [| constructor]); exists pv0; auto.
  - unfold expand_if_leaf in Hch. simpl in Hch. injection Hch as <-.
    rewrite leaves_internal in Hg.
    apply Forall_app in Hg. destruct Hg as [G0 Hg].
    apply Forall_app in Hg. destruct Hg as [G1 Hg].
    apply Forall_app in Hg. destruct Hg as [G2 G3].
    simpl in Hin. destruct Hin as [<-|[<-|[<-|[<-|[]]]]]; assumption.
Qed.

(** The tree the recursion returns on an aligned pair: at every pixel, its
    colour is the combination of the colours of the two operands. *)
Lemma _overlay_recursive_colours (image : ndarray) (operation : string)
    (alpha : float) :
  (0 <=? alpha)%float = true -> (alpha <=? 1)%float = true ->
  forall node1 node2 res,
    aligned node1 node2 ->
    colours_fit image node1 -> colours_fit image node2 ->
    _overlay_recursive node1 node2 operation alpha = Ok res ->
    colours_fit image res
    /\ forall r c p, colour_at res r c p ->
         exists p1 p2,
           colour_at node1 r c p1 /\ colour_at node2 r c p2
           /\ _apply_overlay_operation p1 p2 operation alpha = Ok p.
Proof.
  intros Ha0 Ha1 node1 node2.
  remember (size node1 + size node2)%nat as k eqn:Hk.
  revert node1 node2 Hk.
  induction k as [k IH] using lt_wf_ind.
  intros node1 node2 Hk res Hal F1 F2 Ho.
  rewrite _overlay_recursive_eq in Ho.
  destruct (is_leaf node1 && is_leaf node2) eqn:Hl.
  - apply andb_true_iff in Hl. destruct Hl as [L1 L2].
    destruct Hal as (S1 & S2 & Hreg).
    destruct (shaped_leaf_inv _ _ S1 L1) as (pv1 & E1).
    destruct (shaped_leaf_inv _ _ S2 L2) as (pv2 & E2).
    rewrite E1 in F1. rewrite E2 in F2. unfold colours_fit in F1, F2.
    simpl in F1, F2. apply Forall_inv in F1, F2.
    destruct F1 as (q1 & Hq1 & Fit1), F2 as (q2 & Hq2 & Fit2).
    simpl in Hq1, Hq2. injection Hq1 as <-. injection Hq2 as <-.
    destruct (colour_fits_bytes _ _ Fit1) as (_ & _ & B1).
    destruct (colour_fits_bytes _ _ Fit2) as (_ & _ & B2).
    destruct (_apply_overlay_operation_fits image operation alpha pv1 pv2
                Fit1 Fit2 Ha0 Ha1) as (p & Hp & Fitp).
    assert (P1 : pixel_value node1 = Some pv1) by (rewrite E1; reflexivity).
    assert (P2 : pixel_value node2 = Some pv2) by (rewrite E2; reflexivity).
    rewrite P1, P2, B1, B2, Hp in Ho. simpl in Ho. injection Ho as <-.
    split.
    + unfold colours_fit. simpl. constructor; [| constructor].
      exists p. split; [reflexivity | exact Fitp].
    + intros r c p' Hcol. apply colour_at_leaf in Hcol.
      destruct Hcol as [Hi ->].
      exists pv1, pv2. split; [| split; [| exact Hp]].
      * exists node1. rewrite (leaves_of_leaf _ L1).
        split; [left; reflexivity |]. split; [exact Hi | exact P1].
      * exists node2. rewrite (leaves_of_leaf _ L2).
        split; [left; reflexivity |]. split; [| exact P2].
        rewrite <- Hreg. exact Hi.
  - cbv zeta in Ho.
    destruct (aligned_internal _ _ Hal Hl) as (W1 & H1 & W2 & H2).
    pose proof Hal as (S1 & S2 & Hreg).
    destruct (expand_if_leaf_children node1 S1 W1 H1)
      as (a0 & a1 & a2 & a3 & Ca & _ & Ra & _).
    destruct (expand_if_leaf_children node2 S2 W2 H2)
      as (b0 & b1 & b2 & b3 & Cb & _ & Rb & _).
    assert (Hstep : forall i c d r,
              (i < 4)%nat ->
              child_pair (expand_if_leaf node1) (expand_if_leaf node2) i = Ok (c, d) ->
              _overlay_recursive c d operation alpha = Ok r ->
              In c [a0; a1; a2; a3] /\ In d [b0; b1; b2; b3]
              /\ colours_fit image r
              /\ forall y x p, colour_at r y x p ->
                   exists p1 p2,
                     colour_at node1 y x p1 /\ colour_at node2 y x p2
                     /\ _apply_overlay_operation p1 p2 operation alpha = Ok p).
    { intros i c d r Hi Hc Hr.
      destruct (aligned_child_pair _ _ i Hal Hl Hi) as (c' & d' & Hc' & Hcd).
      rewrite Hc in Hc'. injection Hc' as <- <-.
      pose proof (size_child_pair _ _ _ _ _ Hl Hc) as Hlt. subst k.
      apply child_pair_Ok in Hc. destruct Hc as [Gc Gd].
      unfold children_or_empty in Gc, Gd. rewrite Ca in Gc. rewrite Cb in Gd.
      apply getitem_Ok_In in Gc, Gd.
      pose proof (expand_children_fit image node1 c _ S1 F1 Ca Gc) as Fc.
      pose proof (expand_children_fit image node2 d _ S2 F2 Cb Gd) as Fd.
      destruct (IH _ Hlt c d eq_refl r Hcd Fc Fd Hr) as [Fr Hcol].
      split; [exact Gc |]. split; [exact Gd |]. split; [exact Fr |].
      intros y0 x0 p Hp. destruct (Hcol y0 x0 p Hp) as (p1 & p2 & C1 & C2 & Hcomb).
      exists p1, p2. split; [| split; [| exact Hcomb]].
      - eapply expand_child_colour_at; eauto.
      - eapply expand_child_colour_at; eauto. }
    inv_bind Ho. destruct v as [c0 d0]. inv_bind Ho.
    inv_bind Ho. destruct v0 as [c1 d1]. inv_bind Ho.
    inv_bind Ho. destruct v1 as [c2 d2]. inv_bind Ho.
    inv_bind Ho. destruct v2 as [c3 d3]. inv_bind Ho.
    injection Ho as <-.
    destruct (Hstep 0%nat _ _ _ ltac:(lia) Hv Hv0) as (_ & _ & G0 & K0).
    destruct (Hstep 1%nat _ _ _ ltac:(lia) Hv1 Hv2) as (_ & _ & G1 & K1).
    destruct (Hstep 2%nat _ _ _ ltac:(lia) Hv3 Hv4) as (_ & _ & G2 & K2).
    destruct (Hstep 3%nat _ _ _ ltac:(lia) Hv5 Hv6) as (_ & _ & G3 & K3).
    split.
    + unfold colours_fit in *. rewrite leaves_internal.
      repeat (apply Forall_app; split); assumption.
    + intros r c p (leaf & Hin & Hi & Hpv).
      rewrite leaves_internal, !in_app_iff in Hin.
      destruct Hin as [Hin|[Hin|[Hin|Hin]]];
        [apply K0 | apply K1 | apply K2 | apply K3]; exists leaf; auto.
Qed.

Section OverlayRendered.

Context {np_std : NumpyStd}.

(** The overlay of two built trees and the three renderings. *)
Lemma overlay_rendered (image1 image2 : ndarray) (thr1 thr2 : Z)
    (t1 t2 : QuadTree) (operation : string) (alpha : float) :
  byte_raster image1 -> byte_raster image2 ->
  same_frame image1 image2 ->
  QuadTree_init image1 thr1 = Ok t1 ->
  QuadTree_init image2 thr2 = Ok t2 ->
  (0 <=? alpha)%float = true -> (alpha <=? 1)%float = true ->
  exists t out1 out2 out,
    overlay t1 t2 operation alpha = Ok t
    /\ to_image t1 = Ok out1 /\ to_image t2 = Ok out2 /\ to_image t = Ok out
    /\ shape out = shape image1
    /\ (forall r c, 0 <= r < rows image1 -> 0 <= c < cols image1 ->
          exists p1 p2 p,
            pixel_list out1 r c = Ok p1 /\ pixel_list out2 r c = Ok p2
            /\ _apply_overlay_operation p1 p2 operation alpha = Ok p
            /\ pixel_list out r c = Ok p
            /\ colour_fits image1 p1 /\ colour_fits image1 p2)
    /\ (thr1 = thr2 ->
        ImageProcessor_overlay_images image1 image2 operation alpha thr1
        = Ok out
        /\ (existsb (String.eqb operation) valid_operations = true ->
            overlay_images true true image1 image2 operation alpha thr1
            = Ok out)).
Proof.
  intros B1 B2 Hframe I1 I2 Ha0 Ha1.
  destruct (same_frame_rows_cols _ _ Hframe) as [Er Ec].
  assert (Hd : depth image1 = depth image2).
  { destruct image1, image2; simpl in *; tauto. }
  destruct (overlay_built_returns _ _ _ _ _ _ I1 I2 (eq_sym Er) (eq_sym Ec)
              operation alpha B1 B2 Hd Ha0 Ha1) as [t Ht].
  pose proof (built_roots_aligned _ _ _ _ _ _ I1 I2 (eq_sym Er) (eq_sym Ec)) as Hal.
  destruct (QuadTree_init_Ok _ _ _ I1) as (Hb1 & Hshape1 & _).
  destruct (QuadTree_init_Ok _ _ _ I2) as (Hb2 & _).
  destruct (QuadTree_init_shaped _ _ _ I1) as (S1 & Hreg1 & _).
  destruct (QuadTree_init_positive _ _ _ I1) as [Hrows Hcols].
  pose proof (_build_tree_colours _ _ _ _ _ _ _ B1 Hb1) as F1.
  pose proof (_build_tree_colours _ _ _ _ _ _ _ B2 Hb2) as F2.
  assert (F2' : colours_fit image1 (root t2)).
  { eapply Forall_impl; [| exact F2]. cbv beta.
    intros leaf (pv & Hpv & Hfit). exists pv. split; [exact Hpv |].
    destruct image1, image2; simpl in *; try tauto.
    destruct Hframe as (_ & _ & ->). exact Hfit. }
  pose proof Ht as Ho. unfold overlay in Ho. inv_bind Ho. injection Ho as Et.
  destruct (_overlay_recursive_colours image1 operation alpha Ha0 Ha1
              _ _ _ Hal F1 F2' Hv) as [Fres Hcol].
  destruct (_overlay_recursive_shaped floor_rule
              ltac:(intros R Hw Hh; repeat split; assumption)
              _ _ _ _ _ S1 Hv) as [Sres Rres].
  destruct (to_image_built _ _ _ B1 I1) as (out1 & Hout1 & _ & Hpix1).
  destruct (to_image_built _ _ _ B2 I2) as (out2 & Hout2 & _ & Hpix2).
  destruct (zeros_byte_raster image1 B1) as (canvas & Hz & Hfc).
  destruct (same_frame_rows_cols _ _ Hfc) as [Er' Ec'].
  assert (Rt : root t = v) by (rewrite <- Et; reflexivity).
  assert (Ot : original_shape t = shape image1)
    by (rewrite <- Et; simpl; exact Hshape1).
  destruct (to_image_covered t canvas) as (out & Hout & Hfo & Hp).
  - rewrite Ot. exact Hz.
  - rewrite Rt. eapply shaped_mono; [exact floor_rule_tiles | exact Sres].
  - rewrite Rt, Rres, Hreg1, Er', Ec'. reflexivity.
  - rewrite Rt. apply Forall_forall. intros leaf Hin.
    assert (Hpos : Forall (fun leaf => 0 <= x leaf /\ 0 <= y leaf
                                       /\ 0 < width leaf /\ 0 < height leaf)
                          (leaves v)).
    { apply floor_leaves_positive; [exact Sres | | | |];
        rewrite Hreg1 in Rres; injection Rres; intros; lia. }
    rewrite Forall_forall in Hpos. specialize (Hpos leaf Hin).
    unfold colours_fit in Fres. rewrite Forall_forall in Fres.
    destruct (Fres leaf Hin) as (pv & Hpv & Hfit).
    split; [| lia]. exists pv. split; [exact Hpv |].
    eapply colour_fits_frame; eauto.
  - exists t, out1, out2, out.
    split; [exact Ht |]. split; [exact Hout1 |]. split; [exact Hout2 |].
    split; [exact Hout |]. split.
    { rewrite <- (same_frame_shape _ _ Hfc). apply same_frame_shape. exact Hfo. }
    split; [| intros <-;
              assert (Hproc : ImageProcessor_overlay_images
                                image1 image2 operation alpha thr1 = Ok out)
                by (unfold ImageProcessor_overlay_images;
                    rewrite I1, I2; cbn [bind]; rewrite Ht; cbn [bind];
                    exact Hout);
              split; [exact Hproc |];
              intros Hop; unfold overlay_images;
              rewrite Hop, Ha0, Ha1;
              cbn -[ImageProcessor_overlay_images];
              rewrite Hproc; reflexivity].
    intros r c Hr Hc.
    destruct (same_frame_rows_cols _ _ Hfo) as [Er'' Ec''].
    destruct (Hp r c) as (leaf & p & Hin & Hi & Hpv & Hpx); [lia | lia |].
    rewrite Rt in Hin.
    destruct (Hcol r c p) as (p1 & p2 & (l1 & In1 & Hi1 & Hp1)
                                        & (l2 & In2 & Hi2 & Hp2) & Hcomb).
    { exists leaf. auto. }
    exists p1, p2, p.
    split; [exact (Hpix1 l1 p1 r c In1 Hp1 Hi1) |].
    split; [exact (Hpix2 l2 p2 r c In2 Hp2 Hi2) |].
    split; [exact Hcomb |]. split; [exact Hpx |].
    unfold colours_fit in F2'. rewrite Forall_forall in F1, F2'.
    destruct (F1 l1 In1) as (q1 & Hq1 & Fit1).
    destruct (F2' l2 In2) as (q2 & Hq2 & Fit2).
    rewrite Hp1 in Hq1. rewrite Hp2 in Hq2.
    injection Hq1 as <-. injection Hq2 as <-. auto.
Qed.

(** X12. For two trees built over rasters of bytes of the same shape and
    alpha in [0, 1], the overlay returns, the three trees render, and every
    pixel of the rendering of the overlay is the combination (by
    [_apply_overlay_operation]) of the pixels at the same place in the
    renderings of the two operands.  With one threshold for both trees this
    rendering is what [ImageProcessor.overlay_images] returns, and what the
    endpoint [/overlay] returns for the four valid operations. *)
Theorem overlay_renders_pointwise (image1 image2 : ndarray) (thr1 thr2 : Z)
    (t1 t2 : QuadTree) (operation : string) (alpha : float) :
  byte_raster image1 -> byte_raster image2 ->
  same_frame image1 image2 ->
  QuadTree_init image1 thr1 = Ok t1 ->
  QuadTree_init image2 thr2 = Ok t2 ->
  (0 <=? alpha)%float = true -> (alpha <=? 1)%float = true ->
  exists t out1 out2 out,
    overlay t1 t2 operation alpha = Ok t
    /\ to_image t1 = Ok out1 /\ to_image t2 = Ok out2 /\ to_image t = Ok out
    /\ shape out = shape image1
    /\ (forall r c, 0 <= r < rows image1 -> 0 <= c < cols image1 ->
          exists p1 p2 p,
            pixel_list out1 r c = Ok p1 /\ pixel_list out2 r c = Ok p2
            /\ _apply_overlay_operation p1 p2 operation alpha = Ok p
            /\ pixel_list out r c = Ok p)
    /\ (thr1 = thr2 ->
        ImageProcessor_overlay_images image1 image2 operation alpha thr1
        = Ok out
        /\ (existsb (String.eqb operation) valid_operations = true ->
            overlay_images true true image1 image2 operation alpha thr1
            = Ok out)).
Proof.
  intros B1 B2 Hframe I1 I2 Ha0 Ha1.
  destruct (overlay_rendered image1 image2 thr1 thr2 t1 t2 operation alpha
              B1 B2 Hframe I1 I2 Ha0 Ha1)
    as (t & out1 & out2 & out & Ht & O1 & O2 & O & Hsh & Hpix & Hend).
  exists t, out1, out2, out. repeat (split; [assumption |]).
  split; [| exact Hend].
  intros r c Hr Hc.
  destruct (Hpix r c Hr Hc) as (p1 & p2 & p & E1 & E2 & Hc' & Ep & _).
  exists p1, p2, p. auto.
Qed.

End OverlayRendered.

(** ** Order of the operands *)

Lemma combine_swap (c1 c2 : list Z) :
  combine c2 c1 = map swap (combine c1 c2).
Proof.
  revert c2. induction c1 as [|a c1 IH]; intros [|b c2]; simpl; try reflexivity.
  rewrite IH. reflexivity.
Qed.

Lemma broadcast_swap (c1 c2 : list Z) :
  broadcast c2 c1 = (entries <- broadcast c1 c2 ;; Ok (map swap entries)).
Proof.
  unfold broadcast. rewrite (Nat.eqb_sym (List.length c2) (List.length c1)).
  destruct (Nat.eqb (List.length c1) (List.length c2)) eqn:E.
  - simpl. rewrite combine_swap. reflexivity.
  - destruct c1 as [|a [|a' c1]], c2 as [|b [|b' c2]];
      try discriminate; simpl; rewrite ?map_map; reflexivity.
Qed.

Lemma mapM_ext {A B : Type} (f g : A -> result B) (l : list A) :
  (forall a, f a = g a) -> mapM f l = mapM g l.
Proof.
  intros H. induction l as [|a l IH]; simpl; [reflexivity |].
  rewrite H, IH. reflexivity.
Qed.

Lemma mapM_compose {A B C : Type} (f : B -> result C) (g : A -> B) (l : list A) :
  mapM f (map g l) = mapM (fun a => f (g a)) l.
Proof.
  induction l as [|a l IH]; simpl; [reflexivity |]. rewrite IH. reflexivity.
Qed.

Lemma channel_result_swap (operation : string) (alpha : float) (p : Z * Z) :
  In operation symmetric_operations ->
  channel_result operation alpha (swap p) = channel_result operation alpha p.
Proof.
  intros Hop. destruct p as [c1 c2]. unfold swap. cbn [fst snd].
  unfold channel_result, add_channel, multiply_channel, screen_channel.
  simpl in Hop. destruct Hop as [<-|[<-|[<-|[]]]]; simpl.
  - rewrite (Z.add_comm c2 c1). reflexivity.
  - rewrite (Z.mul_comm c2 c1). reflexivity.
  - rewrite (Z.mul_comm (wrap64 (255 - c2))). reflexivity.
Qed.

Lemma _apply_overlay_operation_comm (operation : string) (alpha : float)
    (color1 color2 : list Z) :
  In operation symmetric_operations ->
  _apply_overlay_operation color1 color2 operation alpha
  = _apply_overlay_operation color2 color1 operation alpha.
Proof.
  intros Hop.
  rewrite !_apply_overlay_operation_entries, (broadcast_swap color1 color2).
  destruct (broadcast color1 color2) as [entries|e]; [| reflexivity].
  cbn [bind]. rewrite mapM_compose. apply mapM_ext.
  intros p. symmetry. apply channel_result_swap. exact Hop.
Qed.

Lemma aligned_sym (a b : QuadTreeNode) : aligned a b -> aligned b a.
Proof.
  intros (Sa & Sb & Hr). repeat split; auto.
Qed.

Lemma expand_if_leaf_region (node : QuadTreeNode) :
  region_of (expand_if_leaf node) = region_of node.
Proof.
  unfold expand_if_leaf, _expand_leaf_node.
  destruct (is_leaf node); [| reflexivity].
  destruct ((width node <=? 1) || (height node <=? 1)); reflexivity.
Qed.

Lemma _overlay_recursive_comm (operation : string) (alpha : float) :
  In operation symmetric_operations ->
  forall node1 node2,
    aligned node1 node2 ->
    _overlay_recursive node1 node2 operation alpha
    = _overlay_recursive node2 node1 operation alpha.
Proof.
  intros Hop node1 node2.
  remember (size node1 + size node2)%nat as k eqn:Hk.
  revert node1 node2 Hk.
  induction k as [k IH] using lt_wf_ind.
  intros node1 node2 Hk Hal.
  rewrite (_overlay_recursive_eq node1 node2), (_overlay_recursive_eq node2 node1).
  rewrite (andb_comm (is_leaf node2) (is_leaf node1)).
  pose proof Hal as (S1 & S2 & Hreg).
  assert (Hx : x node1 = x node2) by (apply (f_equal rx) in Hreg; exact Hreg).
  assert (Hy : y node1 = y node2) by (apply (f_equal ry) in Hreg; exact Hreg).
  assert (Hw : width node1 = width node2) by (apply (f_equal rw) in Hreg; exact Hreg).
  assert (Hh : height node1 = height node2) by (apply (f_equal rh) in Hreg; exact Hreg).
  destruct (is_leaf node1 && is_leaf node2) eqn:Hl.
  - rewrite (_apply_overlay_operation_comm operation alpha
               (pixel_or_black (pixel_value node1))) by exact Hop.
    rewrite Hx, Hy, Hw, Hh. reflexivity.
  - cbv zeta.
    assert (Hstep : forall i, (i < 4)%nat ->
              exists c d,
                child_pair (expand_if_leaf node1) (expand_if_leaf node2) i = Ok (c, d)
                /\ child_pair (expand_if_leaf node2) (expand_if_leaf node1) i = Ok (d, c)
                /\ _overlay_recursive c d operation alpha
                   = _overlay_recursive d c operation alpha).
    { intros i Hi.
      destruct (aligned_child_pair _ _ i Hal Hl Hi) as (c & d & Hc & Hcd).
      exists c, d. split; [exact Hc |].
      pose proof (size_child_pair _ _ _ _ _ Hl Hc) as Hlt.
      apply child_pair_Ok in Hc. destruct Hc as [Gc Gd].
      split; [unfold child_pair; rewrite Gd, Gc; reflexivity |].
      subst k. exact (IH _ Hlt c d eq_refl Hcd). }
    destruct (Hstep 0%nat ltac:(lia)) as (c0 & d0 & A0 & B0 & E0).
    destruct (Hstep 1%nat ltac:(lia)) as (c1 & d1 & A1 & B1 & E1).
    destruct (Hstep 2%nat ltac:(lia)) as (c2 & d2 & A2 & B2 & E2).
    destruct (Hstep 3%nat ltac:(lia)) as (c3 & d3 & A3 & B3 & E3).
    rewrite A0, A1, A2, A3, B0, B1, B2, B3. cbn [bind].
    rewrite E0, E1, E2, E3.
    pose proof (expand_if_leaf_region node1) as R1.
    pose proof (expand_if_leaf_region node2) as R2.
    assert (Hx' : x (expand_if_leaf node1) = x (expand_if_leaf node2))
      by (apply (f_equal rx) in R1, R2; simpl in R1, R2; lia).
    assert (Hy' : y (expand_if_leaf node1) = y (expand_if_leaf node2))
      by (apply (f_equal ry) in R1, R2; simpl in R1, R2; lia).
    assert (Hw' : width (expand_if_leaf node1) = width (expand_if_leaf node2))
      by (apply (f_equal rw) in R1, R2; simpl in R1, R2; lia).
    assert (Hh' : height (expand_if_leaf node1) = height (expand_if_leaf node2))
      by (apply (f_equal rh) in R1, R2; simpl in R1, R2; lia).
    rewrite Hx', Hy', Hw', Hh'. reflexivity.
Qed.

Section OverlayCommutes.

Context {np_std : NumpyStd}.

(** X13. For add, multiply and screen the overlay of two trees built over
    rasters of the same height and width does not depend on the order of
    the operands: both orders raise the same exception or return trees with
    the same root. *)
Theorem overlay_symmetric (image1 image2 : ndarray) (thr1 thr2 : Z)
    (t1 t2 : QuadTree) (operation : string) (alpha : float) :
  QuadTree_init image1 thr1 = Ok t1 ->
  QuadTree_init image2 thr2 = Ok t2 ->
  rows image1 = rows image2 -> cols image1 = cols image2 ->
  In operation symmetric_operations ->
  match overlay t1 t2 operation alpha, overlay t2 t1 operation alpha with
  | Ok a, Ok b => root a = root b
  | Raise e, Raise e' => e = e'
  | _, _ => False
  end.
Proof.
  intros I1 I2 Hrows Hcols Hop.
  pose proof (built_roots_aligned _ _ _ _ _ _ I1 I2 Hrows Hcols) as Hal.
  unfold overlay.
  rewrite (_overlay_recursive_comm operation alpha Hop _ _ Hal).
  destruct (_overlay_recursive (root t2) (root t1) operation alpha);
    reflexivity.
Qed.

End OverlayCommutes.

(** ** Neutral and absorbing colours *)

Lemma truncate_Q_quotient (a : Z) :
  truncate_Q (inject_Z a / 255) = Z.quot a 255.
Proof.
  unfold truncate_Q, Qdiv, Qmult, Qinv, inject_Z. cbn [Qnum Qden].
  change (Z.pos (1 * 255)) with 255. rewrite Z.mul_1_r. reflexivity.
Qed.

Lemma truncate_Q_screen (a : Z) :
  truncate_Q (255 - inject_Z a / 255) = Z.quot (255 * 255 - a) 255.
Proof.
  unfold truncate_Q, Qminus, Qplus, Qopp, Qdiv, Qmult, Qinv, inject_Z.
  cbn [Qnum Qden].
  change (Z.pos (1 * 255)) with 255. change (Z.pos (1 * (1 * 255))) with 255.
  f_equal. lia.
Qed.

Lemma map_fst_combine {A B : Type} (l : list A) (l' : list B) :
  List.length l = List.length l' -> map fst (combine l l') = l.
Proof.
  revert l'. induction l as [|a l IH]; intros [|b l']; simpl;
    try discriminate; try reflexivity.
  intros [= H]. rewrite IH by exact H. reflexivity.
Qed.

Lemma map_snd_combine {A B : Type} (l : list A) (l' : list B) :
  List.length l = List.length l' -> map snd (combine l l') = l'.
Proof.
  revert l'. induction l as [|a l IH]; intros [|b l']; simpl;
    try discriminate; try reflexivity.
  intros [= H]. rewrite IH by exact H. reflexivity.
Qed.

(** Channel by channel against a constant second colour. *)
Lemma _apply_overlay_operation_constant (operation : string) (alpha : float)
    (color : list Z) (k : Z) (g : Z -> Z) :
  (forall c, In c color ->
             channel_result operation alpha (c, k) = Ok (g c)) ->
  _apply_overlay_operation color (repeat k (List.length color)) operation alpha
  = Ok (map g color).
Proof.
  intros Hg.
  assert (Hlen : List.length color = List.length (repeat k (List.length color)))
    by (rewrite repeat_length; reflexivity).
  rewrite _apply_overlay_operation_entries, broadcast_same_length by exact Hlen.
  cbn [bind].
  transitivity (Ok (map (fun p => g (fst p))
                        (combine color (repeat k (List.length color))))).
  - apply mapM_map. intros [c1 c2] Hin. cbn [fst].
    pose proof (in_combine_l _ _ _ _ Hin) as H1.
    pose proof (in_combine_r _ _ _ _ Hin) as H2.
    apply repeat_spec in H2. subst c2. apply Hg. exact H1.
  - rewrite <- (map_map fst g), map_fst_combine by exact Hlen. reflexivity.
Qed.

Lemma map_id_on {A : Type} (g : A -> A) (l : list A) :
  (forall a, In a l -> g a = a) -> map g l = l.
Proof.
  induction l as [|a l IH]; intros H; simpl; [reflexivity |].
  rewrite H by (left; reflexivity).
  rewrite IH by (intros; apply H; right; assumption). reflexivity.
Qed.

Lemma map_constant {A B : Type} (g : A -> B) (k : B) (l : list A) :
  (forall a, In a l -> g a = k) -> map g l = repeat k (List.length l).
Proof.
  induction l as [|a l IH]; intros H; simpl; [reflexivity |].
  rewrite H by (left; reflexivity).
  rewrite IH by (intros; apply H; right; assumption). reflexivity.
Qed.

(** X15. On colours made of bytes: white is neutral for multiply and black
    is neutral for add and screen; multiplying by black gives black, adding
    white or screening with white gives white.  Alpha plays no part. *)
Theorem neutral_and_absorbing_colours (alpha : float) (color : list Z) :
  Forall byte color ->
  let white := repeat 255 (List.length color) in
  let black := repeat 0 (List.length color) in
  _apply_overlay_operation color white "multiply" alpha = Ok color
  /\ _apply_overlay_operation color black "multiply" alpha = Ok black
  /\ _apply_overlay_operation color black "add" alpha = Ok color
  /\ _apply_overlay_operation color white "add" alpha = Ok white
  /\ _apply_overlay_operation color black "screen" alpha = Ok color
  /\ _apply_overlay_operation color white "screen" alpha = Ok white.
Proof.
  intros Hb white black. rewrite Forall_forall in Hb.
  assert (B255 : byte 255) by (unfold byte; lia).
  assert (B0 : byte 0) by (unfold byte; lia).
  assert (Hmul : forall c k, byte c -> byte k ->
            channel_result "multiply" alpha (c, k) = Ok (Z.quot (c * k) 255)).
  { intros c k Hc Hk.
    destruct (multiply_channel_formula alpha c k Hc Hk) as [E _].
    unfold channel_formula in E. cbn [String.eqb Ascii.eqb Bool.eqb] in E.
    rewrite truncate_Q_quotient in E. exact E. }
  assert (Hadd : forall c k, byte c -> byte k ->
            channel_result "add" alpha (c, k) = Ok (Z.min (c + k) 255)).
  { intros c k Hc Hk.
    destruct (add_channel_formula alpha c k Hc Hk) as [E _].
    unfold channel_formula in E. cbn [String.eqb Ascii.eqb Bool.eqb] in E.
    unfold channel_result. cbn [String.eqb Ascii.eqb Bool.eqb].
    rewrite E. reflexivity. }
  assert (Hscr : forall c k, byte c -> byte k ->
            channel_result "screen" alpha (c, k)
            = Ok (Z.quot (255 * 255 - (255 - c) * (255 - k)) 255)).
  { intros c k Hc Hk.
    destruct (screen_channel_formula alpha c k Hc Hk) as [E _].
    unfold channel_formula in E. cbn [String.eqb Ascii.eqb Bool.eqb] in E.
    rewrite truncate_Q_screen in E. exact E. }
  repeat split.
  - unfold white.
    rewrite (_apply_overlay_operation_constant
               _ _ _ _ (fun c => Z.quot (c * 255) 255))
      by (intros c Hc; apply Hmul; auto).
    f_equal. apply map_id_on. intros c _. apply Z.quot_mul. lia.
  - unfold black.
    rewrite (_apply_overlay_operation_constant
               _ _ _ _ (fun c => Z.quot (c * 0) 255))
      by (intros c Hc; apply Hmul; auto).
    f_equal. apply map_constant. intros c _. rewrite Z.mul_0_r. reflexivity.
  - unfold black.
    rewrite (_apply_overlay_operation_constant
               _ _ _ _ (fun c => Z.min (c + 0) 255))
      by (intros c Hc; apply Hadd; auto).
    f_equal. apply map_id_on. intros c Hc. specialize (Hb c Hc).
    unfold byte in Hb. lia.
  - unfold white.
    rewrite (_apply_overlay_operation_constant
               _ _ _ _ (fun c => Z.min (c + 255) 255))
      by (intros c Hc; apply Hadd; auto).
    f_equal. apply map_constant. intros c Hc. specialize (Hb c Hc).
    unfold byte in Hb. lia.
  - unfold black.
    rewrite (_apply_overlay_operation_constant
               _ _ _ _
               (fun c => Z.quot (255 * 255 - (255 - c) * (255 - 0)) 255))
      by (intros c Hc; apply Hscr; auto).
    f_equal. apply map_id_on. intros c _.
    replace (255 * 255 - (255 - c) * (255 - 0)) with (c * 255) by lia.
    apply Z.quot_mul. lia.
  - unfold white.
    rewrite (_apply_overlay_operation_constant
               _ _ _ _
               (fun c => Z.quot (255 * 255 - (255 - c) * (255 - 255)) 255))
      by (intros c Hc; apply Hscr; auto).
    f_equal. apply map_constant. intros c _.
    replace (255 * 255 - (255 - c) * (255 - 255)) with (255 * 255) by lia.
    reflexivity.
Qed.

(** ** Blend at the ends of the range of alpha *)

Lemma byte_float_checked : forallb byte_float_check (zrange 0 256) = true.
Proof. vm_compute. reflexivity. Qed.

Lemma byte_float_facts (c : Z) :
  byte c ->
  (float_of_Z c * (1 - 0) = float_of_Z c)%float
  /\ (float_of_Z c * 1 = float_of_Z c)%float
  /\ (float_of_Z c * 0 = 0)%float
  /\ (float_of_Z c * (1 - 1) = 0)%float
  /\ (float_of_Z c + 0 = float_of_Z c)%float
  /\ (0 + float_of_Z c = float_of_Z c)%float
  /\ int_of_float (float_of_Z c) = Ok c.
Proof.
  intros Hc. unfold byte in Hc.
  assert (P63 : 2 ^ 63 = 9223372036854775808) by reflexivity.
  rewrite (fast_float_eq c) by lia.
  pose proof byte_float_checked as H. rewrite forallb_forall in H.
  specialize (H c ltac:(apply zrange_In; lia)).
  unfold byte_float_check in H.
  repeat (apply andb_true_iff in H; destruct H as [H ?]).
  repeat match goal with
         | H : PrimFloat.Leibniz.eqb _ _ = true |- _ =>
             apply FloatAxioms.Leibniz.eqb_spec in H
         end.
  repeat split; try assumption.
  match goal with
  | H : float_between _ _ = true |- _ =>
      apply float_between_truncates in H; apply H
  end.
Qed.

Lemma blend_channels_at_the_ends (color1 color2 : list Z) :
  Forall byte color1 -> Forall byte color2 ->
  List.length color1 = List.length color2 ->
  _apply_overlay_operation color1 color2 "blend" 0%float = Ok color1
  /\ _apply_overlay_operation color1 color2 "blend" 1%float = Ok color2.
Proof.
  intros F1 F2 Hlen.
  rewrite !_apply_overlay_operation_entries, broadcast_same_length by exact Hlen.
  cbn [bind]. split.
  - transitivity (Ok (map fst (combine color1 color2)));
      [| rewrite map_fst_combine by exact Hlen; reflexivity].
    apply mapM_map. intros [c1 c2] Hin.
    destruct (in_combine_bytes _ _ _ _ F1 F2 Hin) as [B1 B2].
    destruct (byte_float_facts c1 B1) as (E1 & _ & _ & _ & E5 & _ & E7).
    destruct (byte_float_facts c2 B2) as (_ & _ & E3 & _).
    unfold channel_result, blend_channel. cbn [String.eqb Ascii.eqb Bool.eqb fst].
    rewrite E1, E3, E5. exact E7.
  - transitivity (Ok (map snd (combine color1 color2)));
      [| rewrite map_snd_combine by exact Hlen; reflexivity].
    apply mapM_map. intros [c1 c2] Hin.
    destruct (in_combine_bytes _ _ _ _ F1 F2 Hin) as [B1 B2].
    destruct (byte_float_facts c1 B1) as (_ & _ & _ & E4 & _).
    destruct (byte_float_facts c2 B2) as (_ & E2 & _ & _ & _ & E6 & E7).
    unfold channel_result, blend_channel. cbn [String.eqb Ascii.eqb Bool.eqb snd].
    rewrite E4, E2, E6. exact E7.
Qed.

(** X16. At alpha = 0 the blend of two colours made of bytes is the first
    colour, at alpha = 1 the second, exactly; so it is for every tag other
    than add, multiply and screen, which falls back to blend. *)
Theorem blend_at_the_ends (operation : string) (color1 color2 : list Z) :
  ~ In operation symmetric_operations ->
  Forall byte color1 -> Forall byte color2 ->
  List.length color1 = List.length color2 ->
  _apply_overlay_operation color1 color2 operation 0%float = Ok color1
  /\ _apply_overlay_operation color1 color2 operation 1%float = Ok color2.
Proof.
  intros Hop F1 F2 Hlen.
  assert (Hblend : forall alpha,
            _apply_overlay_operation color1 color2 operation alpha
            = _apply_overlay_operation color1 color2 "blend" alpha).
  { intros alpha. destruct (String.eqb operation "blend") eqn:Eb.
    - apply String.eqb_eq in Eb. subst operation. reflexivity.
    - apply _apply_overlay_operation_fallback. simpl. rewrite Eb.
      destruct (String.eqb operation "add") eqn:Ea;
        [apply String.eqb_eq in Ea; subst; exfalso; apply Hop; simpl; auto |].
      destruct (String.eqb operation "multiply") eqn:Em;
        [apply String.eqb_eq in Em; subst; exfalso; apply Hop; simpl; auto |].
      destruct (String.eqb operation "screen") eqn:Es;
        [apply String.eqb_eq in Es; subst; exfalso; apply Hop; simpl; auto |].
      reflexivity. }
  rewrite !Hblend. apply blend_channels_at_the_ends; assumption.
Qed.

(** ** Leaves and homogeneous regions *)

Section Homogeneous.

Context {np_std : NumpyStd}.

Lemma _build_tree_nodes (thr : Z) (image : ndarray) (x y w h : Z)
    (node : QuadTreeNode) :
  _build_tree thr image x y w h = Ok node ->
  forall m, subnode m node -> built_node thr image m.
Proof.
  remember (Z.to_nat w) as k eqn:Hk.
  revert x y w h node Hk.
  induction k as [k IH] using lt_wf_ind.
  intros x0 y0 w h node Hk Hb m Hsub.
  rewrite _build_tree_eq in Hb.
  destruct ((w <=? 1) || (h <=? 1)) eqn:Hsmall.
  - inv_bind Hb. injection Hb as <-.
    inversion Hsub as [|n l c Hch]; subst; [| discriminate Hch].
    unfold built_node, _is_homogeneous, minimal. simpl. rewrite Hsmall.
    split; [reflexivity |]. intros _. eauto.
  - destruct (_is_homogeneous thr image x0 y0 w h) eqn:Hhom.
    + inv_bind Hb. injection Hb as <-.
      inversion Hsub as [|n l c Hch]; subst; [| discriminate Hch].
      unfold built_node, minimal. simpl. rewrite Hsmall, Hhom.
      split; [reflexivity |]. intros _. eauto.
    + cbv zeta in Hb.
      apply orb_false_elim in Hsmall. destruct Hsmall as [Hw Hh].
      apply Z.leb_gt in Hw, Hh.
      inv_bind Hb. inv_bind Hb. inv_bind Hb. inv_bind Hb.
      injection Hb as <-.
      assert (Hlo : (Z.to_nat (w / 2) < k)%nat) by (subst k; apply Z2Nat.inj_lt; zdiv).
      assert (Hhi : (Z.to_nat (w - w / 2) < k)%nat) by (subst k; apply Z2Nat.inj_lt; zdiv).
      inversion Hsub as [|n l c Hch Hin Hsub']; subst.
      * unfold built_node. simpl. rewrite Hhom. split; [reflexivity | discriminate].
      * simpl in Hch. injection Hch as <-. simpl in Hin.
        destruct Hin as [<-|[<-|[<-|[<-|[]]]]].
        -- exact (IH _ Hlo _ _ _ _ _ eq_refl Hv m Hsub').
        -- exact (IH _ Hhi _ _ _ _ _ eq_refl Hv0 m Hsub').
        -- exact (IH _ Hlo _ _ _ _ _ eq_refl Hv1 m Hsub').
        -- exact (IH _ Hhi _ _ _ _ _ eq_refl Hv2 m Hsub').
Qed.

(** X5. A node of a built tree is a leaf exactly when [_is_homogeneous]
    holds of its region.  A leaf one pixel wide or high carries the colour
    of its corner pixel, any other leaf the colour [_get_average_color]
    computes for its region. *)
Theorem built_leaves_are_the_homogeneous_regions (image : ndarray) (thr : Z)
    (t : QuadTree) (m : QuadTreeNode) :
  QuadTree_init image thr = Ok t ->
  subnode m (root t) ->
  is_leaf m = _is_homogeneous thr image (x m) (y m) (width m) (height m)
  /\ (is_leaf m = true ->
      exists pv,
        pixel_value m = Some pv
        /\ (if minimal m then pixel_list image (y m) (x m)
            else _get_average_color image (x m) (y m) (width m) (height m))
           = Ok pv).
Proof.
  intros Hinit Hsub. apply QuadTree_init_Ok in Hinit.
  destruct Hinit as (Hb & _).
  exact (_build_tree_nodes _ _ _ _ _ _ _ Hb m Hsub).
Qed.

End Homogeneous.

(** ** Rasters of one colour *)

Lemma zsum_constant (l : list Z) (v : Z) :
  (forall u, In u l -> u = v) -> zsum l = v * Z.of_nat (List.length l).
Proof.
  induction l as [|u l IH]; intros H; simpl; [lia |].
  rewrite (H u) by (left; reflexivity).
  rewrite IH by (intros; apply H; right; assumption). lia.
Qed.

Lemma region_sum_constant (f : Z -> Z -> Z) (rs cs : list Z) (v : Z) :
  (forall r c, In r rs -> In c cs -> f r c = v) ->
  region_sum f rs cs = v * region_count rs cs.
Proof.
  intros Hf. unfold region_sum, region_count.
  rewrite (zsum_constant _ (v * Z.of_nat (List.length cs))).
  - rewrite length_map. lia.
  - intros u Hu. apply in_map_iff in Hu. destruct Hu as (r & <- & Hr).
    rewrite (zsum_constant _ v).
    + rewrite length_map. reflexivity.
    + intros u Hu. apply in_map_iff in Hu. destruct Hu as (c & <- & Hc).
      apply Hf; assumption.
Qed.

Lemma int_mean_constant (v count : Z) :
  0 < count -> int_mean (v * count) count = Ok v.
Proof.
  intros Hc. unfold int_mean.
  assert (E : (count =? 0) = false) by (apply Z.eqb_neq; lia).
  rewrite E, Z.quot_mul by lia. reflexivity.
Qed.

Lemma pixel_list_uniform (image : ndarray) (colour : list Z) (y x : Z) :
  uniform image colour ->
  0 <= y < rows image -> 0 <= x < cols image ->
  pixel_list image y x = Ok colour.
Proof.
  intros Hu Hy Hx. destruct image as [H W px|H W C px]; simpl in *;
    rewrite !axis_index_in_range by assumption; cbn [bind].
  - destruct Hu as (v & -> & Hv). rewrite Hv by assumption. reflexivity.
  - destruct Hu as (Hlen & Hv). f_equal. unfold channels.
    transitivity (map (fun k => nth (Z.to_nat k) colour 0)
                      (zrange 0 (Z.of_nat (List.length colour))));
      [| apply (map_nth_zrange colour (fun v => v)); reflexivity].
    rewrite Hlen. apply map_ext_in. intros k Hk. apply zrange_In in Hk.
    apply Hv; assumption.
Qed.

Lemma _get_average_color_uniform (image : ndarray) (colour : list Z)
    (x y w h : Z) :
  uniform image colour ->
  0 <= x -> 0 < w -> x + w <= cols image ->
  0 <= y -> 0 < h -> y + h <= rows image ->
  _get_average_color image x y w h = Ok colour.
Proof.
  intros Hu Hx Hw Hxw Hy Hh Hyh.
  assert (Hcount : forall H W, H = rows image -> W = cols image ->
            region_count (slice_indices H y (y + h)) (slice_indices W x (x + w))
            = h * w).
  { intros H W -> ->. apply region_count_in_range; assumption. }
  assert (Hpos : 0 < h * w) by nia.
  destruct image as [H W px|H W C px]; simpl in *.
  - destruct Hu as (v & -> & Hv).
    rewrite (region_sum_constant _ _ _ v).
    + rewrite (Hcount H W eq_refl eq_refl), int_mean_constant by exact Hpos.
      reflexivity.
    + intros r c Hr Hc. rewrite slice_indices_in_range in Hr, Hc by lia.
      apply zrange_In in Hr, Hc. apply Hv; lia.
  - destruct Hu as (Hlen & Hv).
    transitivity (Ok (map (fun k => nth (Z.to_nat k) colour 0)
                          (zrange 0 (Z.of_nat (List.length colour)))));
      [| f_equal; apply (map_nth_zrange colour (fun v => v)); reflexivity].
    rewrite Hlen. apply mapM_map. intros k Hk. apply zrange_In in Hk.
    rewrite (region_sum_constant _ _ _ (nth (Z.to_nat k) colour 0)).
    + rewrite (Hcount H W eq_refl eq_refl), int_mean_constant by exact Hpos.
      reflexivity.
    + intros r c Hr Hc. rewrite slice_indices_in_range in Hr, Hc by lia.
      apply zrange_In in Hr, Hc. apply Hv; lia.
Qed.

Lemma leaves_subnode (rule : region -> list region -> Prop)
    (node leaf : QuadTreeNode) :
  shaped rule node -> In leaf (leaves node) ->
  subnode leaf node /\ is_leaf leaf = true.
Proof.
  intros Hs. revert leaf.
  induction Hs as [x0 y0 w h pv
                  |x0 y0 w h nw ne sw se Hr Hnw IHnw Hne IHne Hsw IHsw Hse IHse];
    intros leaf Hin.
  - simpl in Hin. destruct Hin as [<-|[]]. split; [constructor | reflexivity].
  - rewrite leaves_internal, !in_app_iff in Hin.
    destruct Hin as [Hin|[Hin|[Hin|Hin]]];
      [destruct (IHnw _ Hin) as [Hsub Hl]
      |destruct (IHne _ Hin) as [Hsub Hl]
      |destruct (IHsw _ Hin) as [Hsub Hl]
      |destruct (IHse _ Hin) as [Hsub Hl]];
      (split; [| exact Hl]);
      (eapply subnode_child; [reflexivity | | exact Hsub]); simpl; auto.
Qed.

Section RoundTrips.

Context {np_std : NumpyStd}.

(** The colour of a leaf of a built tree, from the raster. *)
Lemma built_leaf_colour (image : ndarray) (thr : Z) (t : QuadTree)
    (leaf : QuadTreeNode) :
  QuadTree_init image thr = Ok t ->
  In leaf (leaves (root t)) ->
  exists pv,
    pixel_value leaf = Some pv
    /\ (if minimal leaf then pixel_list image (y leaf) (x leaf)
        else _get_average_color image (x leaf) (y leaf) (width leaf)
                                (height leaf))
       = Ok pv.
Proof.
  intros Hinit Hin.
  destruct (QuadTree_init_shaped _ _ _ Hinit) as (Hs & _).
  destruct (leaves_subnode _ _ _ Hs Hin) as [Hsub Hl].
  apply QuadTree_init_Ok in Hinit. destruct Hinit as (Hb & _).
  destruct (_build_tree_nodes _ _ _ _ _ _ _ Hb leaf Hsub) as [_ Hcol].
  exact (Hcol Hl).
Qed.

(** X19. A raster of bytes of one colour is rendered back exactly:
    whatever the threshold and the outcome of the homogeneity tests, the
    tree is built and every pixel of its rendering has the colour of the
    raster. *)
Theorem uniform_raster_round_trip (image : ndarray) (thr : Z)
    (colour : list Z) :
  byte_raster image -> 0 < rows image -> 0 < cols image ->
  uniform image colour ->
  exists t out,
    QuadTree_init image thr = Ok t
    /\ to_image t = Ok out
    /\ shape out = shape image
    /\ forall r c, 0 <= r < rows image -> 0 <= c < cols image ->
         pixel_list out r c = Ok colour
         /\ pixel_list image r c = Ok colour.
Proof.
  intros Hbytes Hrows Hcols Hu.
  destruct (QuadTree_init_in_range image thr Hrows Hcols) as (t & Hinit & _).
  destruct (to_image_built_painted _ _ _ Hbytes Hinit) as (out & Hout & Hf & Hp).
  destruct (same_frame_rows_cols _ _ Hf) as [Er Ec].
  exists t, out. split; [exact Hinit |]. split; [exact Hout |].
  split; [apply same_frame_shape; exact Hf |].
  intros r c Hr Hc. split; [| apply pixel_list_uniform; assumption].
  destruct (Hp r c) as (leaf & pv & Hin & Hi & Hpv & Hpx); [lia | lia |].
  rewrite Hpx. f_equal.
  destruct (built_leaves _ _ _ _ Hbytes Hinit Hin) as (_ & Hpos).
  destruct (built_leaf_colour _ _ _ _ Hinit Hin) as (pv' & Hpv' & Hsrc).
  rewrite Hpv in Hpv'. injection Hpv' as <-.
  destruct (minimal leaf).
  - rewrite (pixel_list_uniform image colour) in Hsrc by (assumption || lia).
    congruence.
  - rewrite (_get_average_color_uniform image colour) in Hsrc
      by (assumption || lia).
    congruence.
Qed.




End RoundTrips.

(** ** The snapshot determines the tree *)

Lemma map_VInt_injective (l l' : list Z) : map VInt l = map VInt l' -> l = l'.
Proof.
  revert l'. induction l as [|a l IH]; intros [|b l']; simpl;
    try discriminate; [reflexivity |].
  intros [= -> H]. rewrite (IH _ H). reflexivity.
Qed.

Lemma to_dict_leaf (x0 y0 w h : Z) (pv : list Z) :
  to_dict (mkNode x0 y0 w h true (Some pv) None)
  = [ ("x", VInt x0); ("y", VInt y0); ("width", VInt w); ("height", VInt h);
      ("is_leaf", VBool true); ("pixel_value", VList (map VInt pv)) ].
Proof. reflexivity. Qed.

Lemma to_dict_internal (x0 y0 w h : Z) (nw ne sw se : QuadTreeNode) :
  to_dict (mkNode x0 y0 w h false None (Some [nw; ne; sw; se]))
  = [ ("x", VInt x0); ("y", VInt y0); ("width", VInt w); ("height", VInt h);
      ("is_leaf", VBool false); ("pixel_value", VNone);
      ("children", VList [VDict (to_dict nw); VDict (to_dict ne);
                          VDict (to_dict sw); VDict (to_dict se)]) ].
Proof. reflexivity. Qed.

Lemma to_dict_injective (rule rule' : region -> list region -> Prop)
    (a : QuadTreeNode) :
  shaped rule a ->
  forall b, shaped rule' b -> to_dict a = to_dict b -> a = b.
Proof.
  induction 1 as [x0 y0 w h pv
                 |x0 y0 w h nw ne sw se Hr Hnw IHnw Hne IHne Hsw IHsw Hse IHse];
    intros b Hb; destruct Hb as [x1 y1 w1 h1 pv1|x1 y1 w1 h1 nw1 ne1 sw1 se1 Hr1 S0 S1 S2 S3];
    rewrite ?to_dict_leaf, ?to_dict_internal; intros E;
    try discriminate.
  - injection E as -> -> -> -> E. apply map_VInt_injective in E. subst. reflexivity.
  - injection E as -> -> -> -> E0 E1 E2 E3.
    rewrite (IHnw _ S0 E0), (IHne _ S1 E1), (IHsw _ S2 E2), (IHse _ S3 E3).
    reflexivity.
Qed.

Section Snapshot.

Context {np_std : NumpyStd}.

(** X21. The snapshot loses nothing: two trees the core produces whose
    roots have the same [to_dict] have the same root. *)
Theorem to_dict_determines_tree (t t' : QuadTree) :
  produced t -> produced t' ->
  to_dict (root t) = to_dict (root t') -> root t = root t'.
Proof.
  intros Hp Hp' E.
  apply produced_shaped in Hp, Hp'. destruct Hp as [Hs _], Hp' as [Hs' _].
  exact (to_dict_injective _ _ _ Hs _ Hs' E).
Qed.

End Snapshot.

(** ** Nodes of an overlay *)

Lemma _count_nodes_positive (rule : region -> list region -> Prop)
    (node : QuadTreeNode) :
  shaped rule node -> 1 <= _count_nodes node.
Proof.
  intros Hs. destruct (shaped_counts _ _ Hs) as (k & Hk & -> & _). lia.
Qed.

Lemma expand_child_counts (node : QuadTreeNode) (a0 a1 a2 a3 : QuadTreeNode) :
  shaped floor_rule node ->
  children (expand_if_leaf node) = Some [a0; a1; a2; a3] ->
  (forall r0 r1 r2 r3,
      _count_nodes a0 <= r0 -> _count_nodes a1 <= r1 ->
      _count_nodes a2 <= r2 -> _count_nodes a3 <= r3 ->
      _count_nodes node <= 1 + (r0 + r1 + r2 + r3)).
Proof.
  intros Hs Hch r0 r1 r2 r3 H0 H1 H2 H3.
  destruct Hs as [x0 y0 w h pv|x0 y0 w h nw ne sw se _ Snw Sne Ssw Sse].
  - unfold expand_if_leaf, _expand_leaf_node in Hch. simpl in Hch.
    destruct ((w <=? 1) || (h <=? 1)); simpl in Hch; [discriminate |].
    injection Hch as <- <- <- <-. cbn [_count_nodes is_leaf] in *. lia.
  - unfold expand_if_leaf in Hch. simpl in Hch. injection Hch as <- <- <- <-.
    rewrite _count_nodes_internal. lia.
Qed.

Lemma _overlay_recursive_count (operation : string) (alpha : float) :
  forall node1 node2 res,
    aligned node1 node2 ->
    _overlay_recursive node1 node2 operation alpha = Ok res ->
    _count_nodes node1 <= _count_nodes res
    /\ _count_nodes node2 <= _count_nodes res
    /\ is_leaf res = is_leaf node1 && is_leaf node2.
Proof.
  intros node1 node2.
  remember (size node1 + size node2)%nat as k eqn:Hk.
  revert node1 node2 Hk.
  induction k as [k IH] using lt_wf_ind.
  intros node1 node2 Hk res Hal Ho.
  rewrite _overlay_recursive_eq in Ho.
  destruct (is_leaf node1 && is_leaf node2) eqn:Hl.
  - inv_bind Ho. injection Ho as <-.
    apply andb_true_iff in Hl. destruct Hl as [L1 L2].
    destruct node1 as [? ? ? ? l1 ? ?], node2 as [? ? ? ? l2 ? ?].
    simpl in L1, L2. subst l1 l2. simpl. split; [lia |]. split; [lia | reflexivity].
  - cbv zeta in Ho.
    destruct (aligned_internal _ _ Hal Hl) as (W1 & H1 & W2 & H2).
    pose proof Hal as (S1 & S2 & Hreg).
    destruct (expand_if_leaf_children node1 S1 W1 H1)
      as (a0 & a1 & a2 & a3 & Ca & _).
    destruct (expand_if_leaf_children node2 S2 W2 H2)
      as (b0 & b1 & b2 & b3 & Cb & _).
    assert (Hstep : forall i c d r,
              (i < 4)%nat ->
              child_pair (expand_if_leaf node1) (expand_if_leaf node2) i = Ok (c, d) ->
              _overlay_recursive c d operation alpha = Ok r ->
              _count_nodes c <= _count_nodes r /\ _count_nodes d <= _count_nodes r).
    { intros i c d r Hi Hc Hr.
      destruct (aligned_child_pair _ _ i Hal Hl Hi) as (c' & d' & Hc' & Hcd).
      rewrite Hc in Hc'. injection Hc' as <- <-.
      pose proof (size_child_pair _ _ _ _ _ Hl Hc) as Hlt. subst k.
      destruct (IH _ Hlt c d eq_refl r Hcd Hr) as (? & ? & _). auto. }
    inv_bind Ho. destruct v as [c0 d0]. inv_bind Ho.
    inv_bind Ho. destruct v0 as [c1 d1]. inv_bind Ho.
    inv_bind Ho. destruct v1 as [c2 d2]. inv_bind Ho.
    inv_bind Ho. destruct v2 as [c3 d3]. inv_bind Ho.
    injection Ho as <-.
    destruct (Hstep 0%nat _ _ _ ltac:(lia) Hv Hv0) as [K0 M0].
    destruct (Hstep 1%nat _ _ _ ltac:(lia) Hv1 Hv2) as [K1 M1].
    destruct (Hstep 2%nat _ _ _ ltac:(lia) Hv3 Hv4) as [K2 M2].
    destruct (Hstep 3%nat _ _ _ ltac:(lia) Hv5 Hv6) as [K3 M3].
    apply child_pair_Ok in Hv, Hv1, Hv3, Hv5.
    unfold children_or_empty in Hv, Hv1, Hv3, Hv5.
    rewrite Ca, Cb in Hv, Hv1, Hv3, Hv5. cbn in Hv, Hv1, Hv3, Hv5.
    destruct Hv as [[= <-] [= <-]], Hv1 as [[= <-] [= <-]],
             Hv3 as [[= <-] [= <-]], Hv5 as [[= <-] [= <-]].
    rewrite _count_nodes_internal. split; [| split; [| reflexivity]].
    + apply (expand_child_counts node1 _ _ _ _ S1 Ca); assumption.
    + apply (expand_child_counts node2 _ _ _ _ S2 Cb); assumption.
Qed.

Section OverlayCount.

Context {np_std : NumpyStd}.

(** X14. The tree an overlay of two built trees returns has at least as
    many nodes as each operand, and its root is a leaf only if both roots
    are. *)
Theorem overlay_node_count (image1 image2 : ndarray) (thr1 thr2 : Z)
    (t1 t2 t : QuadTree) (operation : string) (alpha : float) :
  QuadTree_init image1 thr1 = Ok t1 ->
  QuadTree_init image2 thr2 = Ok t2 ->
  rows image1 = rows image2 -> cols image1 = cols image2 ->
  overlay t1 t2 operation alpha = Ok t ->
  Z.max (_count_nodes (root t1)) (_count_nodes (root t2))
  <= _count_nodes (root t)
  /\ is_leaf (root t) = is_leaf (root t1) && is_leaf (root t2).
Proof.
  intros I1 I2 Hrows Hcols Ho.
  pose proof (built_roots_aligned _ _ _ _ _ _ I1 I2 Hrows Hcols) as Hal.
  unfold overlay in Ho. inv_bind Ho. injection Ho as <-. simpl.
  destruct (_overlay_recursive_count _ _ _ _ _ Hal Hv) as (H1 & H2 & H3).
  split; [lia | exact H3].
Qed.

End OverlayCount.

(** ** Nodes of a built tree lie in the raster *)

Lemma floor_nodes_in_range (node m : QuadTreeNode) (W H : Z) :
  shaped floor_rule node ->
  0 <= x node -> 0 < width node -> x node + width node <= W ->
  0 <= y node -> 0 < height node -> y node + height node <= H ->
  subnode m node ->
  0 <= x m /\ 0 < width m /\ x m + width m <= W
  /\ 0 <= y m /\ 0 < height m /\ y m + height m <= H.
Proof.
  intros Hs. revert m.
  induction Hs as [x0 y0 w h pv
                  |x0 y0 w h nw ne sw se Hr Hnw IHnw Hne IHne Hsw IHsw Hse IHse];
    simpl x; simpl y; simpl width; simpl height;
    intros m Hx Hw Hxw Hy Hh Hyh Hsub.
  - inversion Hsub as [|n l c Hch]; subst; [simpl; lia | discriminate Hch].
  - inversion Hsub as [|n l c Hch Hin Hsub']; subst; [simpl; lia |].
    simpl in Hch. injection Hch as <-.
    destruct Hr as (Hw1 & Hh1 & Hq). simpl in Hw1, Hh1.
    unfold quadrants, region_of in Hq. simpl in Hq.
    injection Hq; intros.
    simpl in Hin. destruct Hin as [<-|[<-|[<-|[<-|[]]]]];
      [apply IHnw | apply IHne | apply IHsw | apply IHse];
      try exact Hsub'; zdiv.
Qed.

Section NodesInRange.

Context {np_std : NumpyStd}.

(** X4. Every node of a built tree covers a region of positive width and
    height that lies inside the raster. *)
Theorem built_nodes_in_raster (image : ndarray) (thr : Z) (t : QuadTree)
    (m : QuadTreeNode) :
  QuadTree_init image thr = Ok t ->
  subnode m (root t) ->
  0 <= x m /\ 0 < width m /\ x m + width m <= cols image
  /\ 0 <= y m /\ 0 < height m /\ y m + height m <= rows image.
Proof.
  intros Hinit Hsub.
  destruct (QuadTree_init_positive _ _ _ Hinit) as [Hrows Hcols].
  destruct (QuadTree_init_shaped _ _ _ Hinit) as (Hs & Hreg & _).
  injection Hreg as Hx Hy Hw Hh.
  apply (floor_nodes_in_range (root t)); try assumption; lia.
Qed.

End NodesInRange.

(** ** Blend overlays at the ends, and the guards of the endpoints *)

Lemma masked_error {A : Type} (body : result A) (e : exn) :
  match body with
  | Ok r => Ok r
  | Raise _ => Raise (HTTPException 500)
  end = Raise e ->
  e = HTTPException 500.
Proof.
  destruct body; [discriminate | intros [= <-]; reflexivity].
Qed.

Section BlendEnds.

Context {np_std : NumpyStd}.

Lemma blend_overlay_end (image1 image2 : ndarray) (thr1 thr2 : Z)
    (t1 t2 : QuadTree) (alpha : float) (first : bool) :
  byte_raster image1 -> byte_raster image2 ->
  same_frame image1 image2 ->
  QuadTree_init image1 thr1 = Ok t1 ->
  QuadTree_init image2 thr2 = Ok t2 ->
  alpha = (if first then 0 else 1)%float ->
  exists t out1 out2 out,
    overlay t1 t2 "blend" alpha = Ok t
    /\ to_image t1 = Ok out1 /\ to_image t2 = Ok out2 /\ to_image t = Ok out
    /\ forall r c, 0 <= r < rows image1 -> 0 <= c < cols image1 ->
         pixel_list out r c
         = pixel_list (if first then out1 else out2) r c.
Proof.
  intros B1 B2 Hframe I1 I2 Halpha.
  assert (Ha : (0 <=? alpha)%float = true /\ (alpha <=? 1)%float = true)
    by (subst alpha; destruct first; split; reflexivity).
  destruct Ha as [Ha0 Ha1].
  destruct (overlay_rendered image1 image2 thr1 thr2 t1 t2 "blend" alpha
              B1 B2 Hframe I1 I2 Ha0 Ha1)
    as (t & out1 & out2 & out & Ht & O1 & O2 & O & _ & Hpix & _).
  exists t, out1, out2, out. repeat (split; [assumption |]).
  intros r c Hr Hc.
  destruct (Hpix r c Hr Hc) as (p1 & p2 & p & E1 & E2 & Hcomb & Ep & F1 & F2).
  destruct (colour_fits_bytes _ _ F1) as (Bp1 & L1 & _).
  destruct (colour_fits_bytes _ _ F2) as (Bp2 & L2 & _).
  assert (Hlen : List.length p1 = List.length p2) by lia.
  destruct (blend_channels_at_the_ends p1 p2 Bp1 Bp2 Hlen) as [Z0 Z1].
  subst alpha. destruct first.
  - rewrite Z0 in Hcomb. injection Hcomb as <-. rewrite Ep, E1. reflexivity.
  - rewrite Z1 in Hcomb. injection Hcomb as <-. rewrite Ep, E2. reflexivity.
Qed.

(** X17. For two trees built over rasters of bytes of the same shape, the
    blend overlay at alpha = 0 renders as the first tree does, and at
    alpha = 1 as the second. *)
Theorem blend_overlay_at_the_ends (image1 image2 : ndarray) (thr1 thr2 : Z)
    (t1 t2 : QuadTree) :
  byte_raster image1 -> byte_raster image2 ->
  same_frame image1 image2 ->
  QuadTree_init image1 thr1 = Ok t1 ->
  QuadTree_init image2 thr2 = Ok t2 ->
  exists out1 out2,
    to_image t1 = Ok out1 /\ to_image t2 = Ok out2
    /\ (exists t out,
          overlay t1 t2 "blend" 0%float = Ok t /\ to_image t = Ok out
          /\ forall r c, 0 <= r < rows image1 -> 0 <= c < cols image1 ->
               pixel_list out r c = pixel_list out1 r c)
    /\ (exists t out,
          overlay t1 t2 "blend" 1%float = Ok t /\ to_image t = Ok out
          /\ forall r c, 0 <= r < rows image1 -> 0 <= c < cols image1 ->
               pixel_list out r c = pixel_list out2 r c).
Proof.
  intros B1 B2 Hframe I1 I2.
  destruct (blend_overlay_end _ _ _ _ _ _ 0%float true B1 B2 Hframe I1 I2 eq_refl)
    as (ta & out1 & out2 & oa & Hta & O1 & O2 & Oa & Hpa).
  destruct (blend_overlay_end _ _ _ _ _ _ 1%float false B1 B2 Hframe I1 I2 eq_refl)
    as (tb & out1' & out2' & ob & Htb & O1' & O2' & Ob & Hpb).
  rewrite O2 in O2'. injection O2' as <-.
  exists out1, out2. split; [exact O1 |]. split; [exact O2 |]. split.
  - exists ta, oa. auto.
  - exists tb, ob. auto.
Qed.

(** X22. The endpoints return an array only on guarded input: [/flip] for
    an image file and the operation horizontal or vertical, [/overlay] for
    two image files, one of the four operations and 0 <= alpha <= 1 (NaN
    fails both comparisons).  Whatever is raised inside them, the client
    gets [HTTPException(500)], the 400 of their own checks included.
    [ImageProcessor.process_image] returns only for the two flips. *)
Theorem endpoint_guards :
  (forall file_is_image image_array operation threshold out,
      flip_image file_is_image image_array operation threshold = Ok out ->
      file_is_image = true
      /\ (operation = "horizontal" \/ operation = "vertical"))
  /\ (forall file1_is_image file2_is_image image1_array image2_array
             operation alpha threshold out,
        overlay_images file1_is_image file2_is_image image1_array
                       image2_array operation alpha threshold = Ok out ->
        file1_is_image = true /\ file2_is_image = true
        /\ In operation valid_operations
        /\ (0 <=? alpha)%float = true /\ (alpha <=? 1)%float = true)
  /\ (forall file_is_image image_array operation threshold e,
        flip_image file_is_image image_array operation threshold = Raise e ->
        e = HTTPException 500)
  /\ (forall file1_is_image file2_is_image image1_array image2_array
             operation alpha threshold e,
        overlay_images file1_is_image file2_is_image image1_array
                       image2_array operation alpha threshold = Raise e ->
        e = HTTPException 500)
  /\ (forall image_array operation threshold out,
        ImageProcessor_process_image image_array operation threshold = Ok out ->
        operation = "flip_horizontal" \/ operation = "flip_vertical").
Proof.
  split; [| split; [| split; [| split]]].
  - intros f img op thr out. unfold flip_image.
    destruct f; simpl; [| discriminate].
    destruct (String.eqb op "horizontal") eqn:Eh.
    { apply String.eqb_eq in Eh. auto. }
    destruct (String.eqb op "vertical") eqn:Ev.
    { apply String.eqb_eq in Ev. auto. }
    discriminate.
  - intros f1 f2 i1 i2 op alpha thr out. unfold overlay_images.
    destruct (existsb (String.eqb op) valid_operations) eqn:Eop;
      destruct ((0 <=? alpha)%float) eqn:E0;
      destruct ((alpha <=? 1)%float) eqn:E1;
      destruct f1, f2; cbn [negb orb andb]; try discriminate.
    intros _. repeat split.
    apply existsb_exists in Eop. destruct Eop as (s & Hin & Es).
    apply String.eqb_eq in Es. subst s. exact Hin.
  - intros f img op thr e. unfold flip_image. cbv zeta. apply masked_error.
  - intros f1 f2 i1 i2 op alpha thr e. unfold overlay_images. cbv zeta.
    apply masked_error.
  - intros img op thr out. unfold ImageProcessor_process_image.
    destruct (QuadTree_init img thr); simpl; [| discriminate].
    destruct (String.eqb op "flip_horizontal") eqn:Eh.
    { apply String.eqb_eq in Eh. auto. }
    destruct (String.eqb op "flip_vertical") eqn:Ev.
    { apply String.eqb_eq in Ev. auto. }
    discriminate.
Qed.

End BlendEnds.

(** ** Colours after each operation *)

Section ValidColours.

Context {np_std : NumpyStd}.

(** X18. The leaf colours of a tree built over a raster of bytes fit the
    raster (one byte per channel; three equal bytes for a grey raster), and
    so do the leaf colours of its flips and of its overlay with a tree
    built over a raster of the same shape, for alpha in [0, 1]. *)
Theorem colours_stay_valid (image1 image2 : ndarray) (thr1 thr2 : Z)
    (t1 t2 : QuadTree) (operation : string) (alpha : float) :
  byte_raster image1 -> byte_raster image2 ->
  same_frame image1 image2 ->
  QuadTree_init image1 thr1 = Ok t1 ->
  QuadTree_init image2 thr2 = Ok t2 ->
  (0 <=? alpha)%float = true -> (alpha <=? 1)%float = true ->
  colours_fit image1 (root t1)
  /\ (exists th tv,
        flip_horizontal t1 = Ok th /\ flip_vertical t1 = Ok tv
        /\ colours_fit image1 (root th) /\ colours_fit image1 (root tv))
  /\ (exists t,
        overlay t1 t2 operation alpha = Ok t /\ colours_fit image1 (root t)).
Proof.
  intros B1 B2 Hframe I1 I2 Ha0 Ha1.
  destruct (QuadTree_init_Ok _ _ _ I1) as (Hb1 & _).
  destruct (QuadTree_init_Ok _ _ _ I2) as (Hb2 & _).
  destruct (QuadTree_init_shaped _ _ _ I1) as (S1 & _ & HH & HW).
  pose proof (_build_tree_colours _ _ _ _ _ _ _ B1 Hb1) as F1.
  pose proof (_build_tree_colours _ _ _ _ _ _ _ B2 Hb2) as F2.
  split; [exact F1 |]. split.
  - destruct (flip_horizontal_shaped floor_rule _ _ _ HW S1) as (nh & Hnh & _).
    destruct (flip_vertical_shaped floor_rule _ _ _ HH S1) as (nv & Hnv & _).
    unfold flip_horizontal, flip_vertical. rewrite Hnh, Hnv. simpl.
    do 2 eexists. split; [reflexivity |]. split; [reflexivity |]. simpl.
    rewrite Forall_forall in F1.
    split; apply Forall_forall; intros leaf' Hin'.
    + destruct (flip_horizontal_leaves _ _ _ _ _ HW S1 Hnh _ Hin')
        as (leaf & Hin & ->).
      destruct (F1 leaf Hin) as (pv & Hpv & Hfit).
      exists pv. simpl. rewrite Hpv. auto.
    + destruct (flip_vertical_leaves _ _ _ _ _ HH S1 Hnv _ Hin')
        as (leaf & Hin & ->).
      destruct (F1 leaf Hin) as (pv & Hpv & Hfit).
      exists pv. simpl. rewrite Hpv. auto.
  - destruct (same_frame_rows_cols _ _ Hframe) as [Er Ec].
    assert (Hd : depth image1 = depth image2).
    { destruct image1, image2; simpl in *; tauto. }
    destruct (overlay_built_returns _ _ _ _ _ _ I1 I2 (eq_sym Er) (eq_sym Ec)
                operation alpha B1 B2 Hd Ha0 Ha1) as [t Ht].
    pose proof (built_roots_aligned _ _ _ _ _ _ I1 I2 (eq_sym Er) (eq_sym Ec))
      as Hal.
    assert (F2' : colours_fit image1 (root t2)).
    { eapply Forall_impl; [| exact F2]. cbv beta.
      intros leaf (pv & Hpv & Hfit). exists pv. split; [exact Hpv |].
      destruct image1, image2; simpl in *; try tauto.
      destruct Hframe as (_ & _ & ->). exact Hfit. }
    exists t. split; [exact Ht |].
    unfold overlay in Ht. inv_bind Ht. injection Ht as <-. simpl.
    exact (proj1 (_overlay_recursive_colours image1 operation alpha Ha0 Ha1
                    _ _ _ Hal F1 F2' Hv)).
Qed.

End ValidColours.

(** ** The further properties on the concrete rasters *)

Lemma raster_3x2_bytes : byte_raster raster_3x2.
Proof.
  unfold raster_3x2, byte_raster, byte.
  split; [lia |]. split; [lia |]. intros r c Hr Hc. lia.
Defined.

Lemma tree_3x2_produced : produced tree_3x2.
Proof.
  apply (produced_build raster_3x2 0). vm_compute. reflexivity.
Defined.

Lemma QuadTree_init_returns_witness :
  exists t,
    QuadTree_init raster_2x2 0 = Ok t
    /\ threshold t = 0
    /\ original_shape t = shape raster_2x2
    /\ region_of (root t) = mkRegion 0 0 (cols raster_2x2) (rows raster_2x2).
Proof.
  apply (QuadTree_init_returns raster_2x2 0).
  - exact raster_2x2_bytes.
  - simpl. lia.
  - simpl. lia.
Defined.

Lemma QuadTree_init_empty_witness :
  QuadTree_init raster_empty 10 = Raise IndexError.
Proof.
  apply (QuadTree_init_empty raster_empty 10).
  - simpl. lia.
  - simpl. lia.
  - left. reflexivity.
Defined.

Lemma built_node_count_witness :
  exists k,
    0 <= k
    /\ _count_nodes (root tree_3x4) = 4 * k + 1
    /\ Z.of_nat (List.length (leaves (root tree_3x4))) = 3 * k + 1
    /\ 3 * k + 1 <= rows raster_3x4 * cols raster_3x4
    /\ 3 * _count_nodes (root tree_3x4) + 1
       <= 4 * (rows raster_3x4 * cols raster_3x4).
Proof.
  apply (built_node_count raster_3x4 0 tree_3x4). vm_compute. reflexivity.
Defined.

Lemma flip_keeps_summary_witness :
  exists th tv,
    flip_horizontal tree_3x2 = Ok th /\ flip_vertical tree_3x2 = Ok tv
    /\ same_summary tree_3x2 th /\ same_summary tree_3x2 tv.
Proof.
  apply (flip_keeps_summary tree_3x2). exact tree_3x2_produced.
Defined.

Lemma flipped_ratio_is_exact_witness :
  exists th tv,
    flip_horizontal tree_3x2 = Ok th /\ flip_vertical tree_3x2 = Ok tv
    /\ _calculate_compression_ratio (original_shape th) (root th)
       = Ok (compression_ratio th)
    /\ _calculate_compression_ratio (original_shape tv) (root tv)
       = Ok (compression_ratio tv).
Proof.
  apply (flipped_ratio_is_exact raster_3x2 0 tree_3x2). vm_compute. reflexivity.
Defined.

Lemma flips_commute_witness :
  exists a b c,
    flip_horizontal tree_3x2 = Ok a /\ flip_vertical a = Ok c
    /\ flip_vertical tree_3x2 = Ok b /\ flip_horizontal b = Ok c.
Proof.
  apply (flips_commute tree_3x2). exact tree_3x2_produced.
Defined.

Lemma flip_twice_produced_witness :
  (exists t', flip_horizontal flipped_3x2 = Ok t'
              /\ flip_horizontal t' = Ok flipped_3x2)
  /\ (exists t', flip_vertical flipped_3x2 = Ok t'
                 /\ flip_vertical t' = Ok flipped_3x2).
Proof.
  apply (flip_twice_produced flipped_3x2).
  apply (produced_flip_horizontal tree_3x2).
  - exact tree_3x2_produced.
  - vm_compute. reflexivity.
Defined.

Lemma flip_horizontal_renders_mirror_witness :
  exists t' out out',
    flip_horizontal tree_3x2 = Ok t'
    /\ to_image tree_3x2 = Ok out
    /\ to_image t' = Ok out'
    /\ shape out' = shape out
    /\ (forall r c, 0 <= r < rows raster_3x2 -> 0 <= c < cols raster_3x2 ->
          pixel_list out' r c = pixel_list out r (cols raster_3x2 - 1 - c))
    /\ ImageProcessor_process_image raster_3x2 "flip_horizontal" 0 = Ok out'
    /\ flip_image true raster_3x2 "horizontal" 0 = Ok out'.
Proof.
  apply (flip_horizontal_renders_mirror raster_3x2 0 tree_3x2).
  - exact raster_3x2_bytes.
  - vm_compute. reflexivity.
Defined.

Lemma flip_vertical_renders_mirror_witness :
  exists t' out out',
    flip_vertical tree_3x2 = Ok t'
    /\ to_image tree_3x2 = Ok out
    /\ to_image t' = Ok out'
    /\ shape out' = shape out
    /\ (forall r c, 0 <= r < rows raster_3x2 -> 0 <= c < cols raster_3x2 ->
          pixel_list out' r c = pixel_list out (rows raster_3x2 - 1 - r) c)
    /\ ImageProcessor_process_image raster_3x2 "flip_vertical" 0 = Ok out'
    /\ flip_image true raster_3x2 "vertical" 0 = Ok out'.
Proof.
  apply (flip_vertical_renders_mirror raster_3x2 0 tree_3x2).
  - exact raster_3x2_bytes.
  - vm_compute. reflexivity.
Defined.

Lemma overlay_renders_pointwise_witness :
  exists t out,
    overlay tree_red tree_2x2 "multiply" 0.5%float = Ok t
    /\ to_image t = Ok out
    /\ shape out = shape raster_red.
Proof.
  assert (H1 : QuadTree_init raster_red 10 = Ok tree_red)
    by (vm_compute; reflexivity).
  assert (H2 : QuadTree_init raster_2x2 0 = Ok tree_2x2)
    by (vm_compute; reflexivity).
  assert (Hf : same_frame raster_red raster_2x2) by (simpl; auto).
  destruct (overlay_renders_pointwise raster_red raster_2x2 10 0
              tree_red tree_2x2 "multiply" 0.5%float
              raster_red_bytes raster_2x2_bytes Hf H1 H2 eq_refl eq_refl)
    as (t & out1 & out2 & out & Ht & _ & _ & Hout & Hsh & _).
  exists t, out. auto.
Defined.

Lemma overlay_symmetric_witness :
  match overlay tree_red tree_2x2 "screen" 0.5%float,
        overlay tree_2x2 tree_red "screen" 0.5%float with
  | Ok a, Ok b => root a = root b
  | Raise e, Raise e' => e = e'
  | _, _ => False
  end.
Proof.
  apply (overlay_symmetric raster_red raster_2x2 10 0).
  - vm_compute. reflexivity.
  - vm_compute. reflexivity.
  - reflexivity.
  - reflexivity.
  - simpl. auto.
Defined.

Lemma neutral_and_absorbing_colours_witness :
  _apply_overlay_operation [10; 20; 30] [255; 255; 255] "multiply" 0.5%float
  = Ok [10; 20; 30]
  /\ _apply_overlay_operation [10; 20; 30] [0; 0; 0] "multiply" 0.5%float
     = Ok [0; 0; 0]
  /\ _apply_overlay_operation [10; 20; 30] [0; 0; 0] "add" 0.5%float
     = Ok [10; 20; 30]
  /\ _apply_overlay_operation [10; 20; 30] [255; 255; 255] "add" 0.5%float
     = Ok [255; 255; 255]
  /\ _apply_overlay_operation [10; 20; 30] [0; 0; 0] "screen" 0.5%float
     = Ok [10; 20; 30]
  /\ _apply_overlay_operation [10; 20; 30] [255; 255; 255] "screen" 0.5%float
     = Ok [255; 255; 255].
Proof.
  apply (neutral_and_absorbing_colours 0.5%float [10; 20; 30]).
  repeat constructor; unfold byte; lia.
Defined.

Lemma blend_at_the_ends_witness :
  _apply_overlay_operation [10; 20; 30] [50; 60; 70] "blend" 0%float
  = Ok [10; 20; 30]
  /\ _apply_overlay_operation [10; 20; 30] [50; 60; 70] "blend" 1%float
     = Ok [50; 60; 70].
Proof.
  apply (blend_at_the_ends "blend" [10; 20; 30] [50; 60; 70]).
  - simpl. intros [H|[H|[H|[]]]]; discriminate H.
  - repeat constructor; unfold byte; lia.
  - repeat constructor; unfold byte; lia.
  - reflexivity.
Defined.

Lemma built_leaves_are_the_homogeneous_regions_witness :
  is_leaf (root tree_2x2)
  = _is_homogeneous 0 raster_2x2 (x (root tree_2x2)) (y (root tree_2x2))
                    (width (root tree_2x2)) (height (root tree_2x2))
  /\ (is_leaf (root tree_2x2) = true ->
      exists pv,
        pixel_value (root tree_2x2) = Some pv
        /\ (if minimal (root tree_2x2)
            then pixel_list raster_2x2 (y (root tree_2x2)) (x (root tree_2x2))
            else _get_average_color raster_2x2 (x (root tree_2x2))
                                    (y (root tree_2x2))
                                    (width (root tree_2x2))
                                    (height (root tree_2x2)))
           = Ok pv).
Proof.
  apply (built_leaves_are_the_homogeneous_regions raster_2x2 0 tree_2x2).
  - vm_compute. reflexivity.
  - apply subnode_refl.
Defined.

Lemma raster_red_uniform : uniform raster_red [255; 0; 0].
Proof.
  unfold raster_red, uniform. split; [reflexivity |].
  intros r c k _ _ Hk.
  assert (Ek : k = 0 \/ k = 1 \/ k = 2) by lia.
  destruct Ek as [-> | [-> | ->]]; reflexivity.
Defined.

Lemma uniform_raster_round_trip_witness :
  exists t out,
    QuadTree_init raster_red 10 = Ok t
    /\ to_image t = Ok out
    /\ shape out = shape raster_red
    /\ forall r c, 0 <= r < rows raster_red -> 0 <= c < cols raster_red ->
         pixel_list out r c = Ok [255; 0; 0]
         /\ pixel_list raster_red r c = Ok [255; 0; 0].
Proof.
  apply (uniform_raster_round_trip raster_red 10 [255; 0; 0]).
  - exact raster_red_bytes.
  - simpl. lia.
  - simpl. lia.
  - exact raster_red_uniform.
Defined.


Lemma to_dict_determines_tree_witness :
  root tree_2x2_strict = root tree_2x2.
Proof.
  apply (to_dict_determines_tree tree_2x2_strict tree_2x2).
  - apply (produced_build raster_2x2 (-5)). vm_compute. reflexivity.
  - apply (produced_build raster_2x2 0). vm_compute. reflexivity.
  - vm_compute. reflexivity.
Defined.

Lemma overlay_node_count_witness :
  Z.max (_count_nodes (root tree_red)) (_count_nodes (root tree_2x2))
  <= _count_nodes (root overlay_red_2x2)
  /\ is_leaf (root overlay_red_2x2)
     = is_leaf (root tree_red) && is_leaf (root tree_2x2).
Proof.
  apply (overlay_node_count raster_red raster_2x2 10 0 tree_red tree_2x2
                            overlay_red_2x2 "blend" 0.5%float).
  - vm_compute. reflexivity.
  - vm_compute. reflexivity.
  - reflexivity.
  - reflexivity.
  - vm_compute. reflexivity.
Defined.

Lemma built_nodes_in_raster_witness :
  0 <= x (root tree_3x4) /\ 0 < width (root tree_3x4)
  /\ x (root tree_3x4) + width (root tree_3x4) <= cols raster_3x4
  /\ 0 <= y (root tree_3x4) /\ 0 < height (root tree_3x4)
  /\ y (root tree_3x4) + height (root tree_3x4) <= rows raster_3x4.
Proof.
  apply (built_nodes_in_raster raster_3x4 0 tree_3x4).
  - vm_compute. reflexivity.
  - apply subnode_refl.
Defined.

Lemma blend_overlay_at_the_ends_witness :
  exists out1 out2,
    to_image tree_red = Ok out1 /\ to_image tree_2x2 = Ok out2
    /\ (exists t out,
          overlay tree_red tree_2x2 "blend" 0%float = Ok t
          /\ to_image t = Ok out
          /\ forall r c, 0 <= r < rows raster_red -> 0 <= c < cols raster_red ->
               pixel_list out r c = pixel_list out1 r c)
    /\ (exists t out,
          overlay tree_red tree_2x2 "blend" 1%float = Ok t
          /\ to_image t = Ok out
          /\ forall r c, 0 <= r < rows raster_red -> 0 <= c < cols raster_red ->
               pixel_list out r c = pixel_list out2 r c).
Proof.
  apply (blend_overlay_at_the_ends raster_red raster_2x2 10 0).
  - exact raster_red_bytes.
  - exact raster_2x2_bytes.
  - simpl. auto.
  - vm_compute. reflexivity.
  - vm_compute. reflexivity.
Defined.

Lemma colours_stay_valid_witness :
  colours_fit raster_red (root tree_red)
  /\ (exists th tv,
        flip_horizontal tree_red = Ok th /\ flip_vertical tree_red = Ok tv
        /\ colours_fit raster_red (root th) /\ colours_fit raster_red (root tv))
  /\ (exists t,
        overlay tree_red tree_2x2 "screen" 0.25%float = Ok t
        /\ colours_fit raster_red (root t)).
Proof.
  apply (colours_stay_valid raster_red raster_2x2 10 0 tree_red tree_2x2).
  - exact raster_red_bytes.
  - exact raster_2x2_bytes.
  - simpl. auto.
  - vm_compute. reflexivity.
  - vm_compute. reflexivity.
  - reflexivity.
  - reflexivity.
Defined.
